(** * CrossCracker web client: a model of src/static/js/script.js

    The source file holds three successive snapshots of the client script
    (lines 1-236, 237-520 and 521-798).  The data model, [createCellNumbering]
    and [renderGrid] are the same in all three and are modelled once; the
    functions that differ live in the modules [Snapshot1], [Snapshot2] and
    [Snapshot3].

    Conventions of the model:
    - the module-level [let] variables and the DOM nodes the script writes
      are the fields of one record, [Client]; its field [traffic] is no
      variable of the script: it lists, in order, the timers and requests
      the page starts and the responses it gets;
    - a payload field the script reads without a guard ([grid], the clue
      lists, [start], [number]) is always there; a field it tests before
      use ([assigned_clues], [message], [solved], [progress], [char],
      [assigned], [confidence]) may be missing;
    - a function that can throw is a state-and-exception computation [Js A]:
      mutations made before a [throw] persist, as in JavaScript;
    - an [await] on the network takes the settled [Response] as an argument;
      the [solveAll] loops take a script with one entry per turn, and say
      so when the script ends before the loop does.  Handlers that the user
      starts while another one waits are the subject of the last part, where
      the handlers are cut at their awaits and run on a page with clicks,
      timers and responses in any order;
    - [renderClues] only rewrites the two clue list elements, which nothing
      else reads; it is left out of the callers and modelled on its own, as
      the function from the client to the items it puts in the two lists. *)

From Stdlib Require Import QArith Ascii.
From stdpp Require Import base numbers strings gmap list pretty.

(** ** JSON values *)

(** A boolean field of a JSON payload, which may be missing or [null]. *)
Inductive JsBool : Type :=
| JUndefined
| JNull
| JBool (b : bool).

(** [v == true] *)
Definition looseTrue (v : JsBool) : bool :=
  match v with JBool true => true | _ => false end.

(** [v == false]: neither [null] nor [undefined] is loosely equal to [false]. *)
Definition looseFalse (v : JsBool) : bool :=
  match v with JBool false => true | _ => false end.

(** Truthiness, as in [!v] and [while (!v)]. *)
Definition truthy (v : JsBool) : bool :=
  match v with JBool true => true | _ => false end.

(** Truthiness of a number that may be missing: [0] is falsy. *)
Definition truthyNumber (v : option Z) : bool :=
  match v with Some n => negb (n =? 0)%Z | None => false end.

(** Truthiness of a string that may be missing: [''] is falsy. *)
Definition truthyString (v : option string) : bool :=
  match v with Some s => negb (String.eqb s "") | None => false end.

(** ** Data model *)

Record Cell : Type := mkCell {
  is_black : bool;
  char : option string
}.

Definition Grid : Type := list (list Cell).

(** [clue.length] is called [clue_length] here. *)
Record Clue : Type := mkClue {
  number : Z;
  start : nat * nat;
  clue_length : nat;
  text : string;
  assigned : option string;
  confidence : option Q
}.

(** An entry of [assigned_clues]: [{number, direction, assigned, confidence}]. *)
Record Assignment : Type := mkAssignment {
  a_number : Z;
  a_direction : string;
  a_assigned : option string;
  a_confidence : option Q
}.

(** Body of the [/api/initialize] response. *)
Record InitData : Type := mkInitData {
  init_grid : Grid;
  across_clues : list Clue;
  down_clues : list Clue
}.

(** Body of the [/api/solve_step] response. *)
Record StepData : Type := mkStepData {
  step_grid : Grid;
  assigned_clues : option (list Assignment);
  message : option string;
  solved : JsBool;
  progress : JsBool
}.

(** How a [fetch] followed by [response.json()] settles. *)
Inductive Response (A : Type) : Type :=
| NetworkError (msg : string)
| HttpError
| BadBody (msg : string)
| Ok (data : A).
Arguments NetworkError {A} msg.
Arguments HttpError {A}.
Arguments BadBody {A} msg.
Arguments Ok {A} data.

(** What the page does that is visible from outside. *)
Inductive NetEvent : Type :=
| Request (url : string)
| Settled (url : string)
| Timer (ms : nat).

(** ** The rendered grid *)

Inductive Node : Type :=
| NumberSpan (n : Z)
| TextNode (s : string).

Record CellElement : Type := mkCellElement {
  classes : list string;
  children : list Node
}.

(** ** Client state: the globals of the script and the DOM nodes it writes *)

Record Client : Type := mkClient {
  gridData : option Grid;
  acrossClues : list Clue;
  downClues : list Clue;
  cellNumbering : gmap string Z;
  pauseRequested : bool;
  statusText : string;
  statusClass : list string;
  solveStepBtn_disabled : bool;
  solveAllBtn_disabled : bool;
  pauseBtn_disabled : bool;
  crosswordGrid : list CellElement;
  gridTemplateColumns : option nat;
  traffic : list NetEvent
}.

Definition set_gridData (v : option Grid) (s : Client) : Client :=
  mkClient v (acrossClues s) (downClues s) (cellNumbering s) (pauseRequested s)
    (statusText s) (statusClass s) (solveStepBtn_disabled s)
    (solveAllBtn_disabled s) (pauseBtn_disabled s) (crosswordGrid s)
    (gridTemplateColumns s) (traffic s).

Definition set_acrossClues (v : list Clue) (s : Client) : Client :=
  mkClient (gridData s) v (downClues s) (cellNumbering s) (pauseRequested s)
    (statusText s) (statusClass s) (solveStepBtn_disabled s)
    (solveAllBtn_disabled s) (pauseBtn_disabled s) (crosswordGrid s)
    (gridTemplateColumns s) (traffic s).

Definition set_downClues (v : list Clue) (s : Client) : Client :=
  mkClient (gridData s) (acrossClues s) v (cellNumbering s) (pauseRequested s)
    (statusText s) (statusClass s) (solveStepBtn_disabled s)
    (solveAllBtn_disabled s) (pauseBtn_disabled s) (crosswordGrid s)
    (gridTemplateColumns s) (traffic s).

Definition set_cellNumbering (v : gmap string Z) (s : Client) : Client :=
  mkClient (gridData s) (acrossClues s) (downClues s) v (pauseRequested s)
    (statusText s) (statusClass s) (solveStepBtn_disabled s)
    (solveAllBtn_disabled s) (pauseBtn_disabled s) (crosswordGrid s)
    (gridTemplateColumns s) (traffic s).

Definition set_pauseRequested (v : bool) (s : Client) : Client :=
  mkClient (gridData s) (acrossClues s) (downClues s) (cellNumbering s) v
    (statusText s) (statusClass s) (solveStepBtn_disabled s)
    (solveAllBtn_disabled s) (pauseBtn_disabled s) (crosswordGrid s)
    (gridTemplateColumns s) (traffic s).

Definition set_statusText (v : string) (s : Client) : Client :=
  mkClient (gridData s) (acrossClues s) (downClues s) (cellNumbering s)
    (pauseRequested s) v (statusClass s) (solveStepBtn_disabled s)
    (solveAllBtn_disabled s) (pauseBtn_disabled s) (crosswordGrid s)
    (gridTemplateColumns s) (traffic s).

Definition set_statusClass (v : list string) (s : Client) : Client :=
  mkClient (gridData s) (acrossClues s) (downClues s) (cellNumbering s)
    (pauseRequested s) (statusText s) v (solveStepBtn_disabled s)
    (solveAllBtn_disabled s) (pauseBtn_disabled s) (crosswordGrid s)
    (gridTemplateColumns s) (traffic s).

Definition set_solveStepBtn_disabled (v : bool) (s : Client) : Client :=
  mkClient (gridData s) (acrossClues s) (downClues s) (cellNumbering s)
    (pauseRequested s) (statusText s) (statusClass s) v
    (solveAllBtn_disabled s) (pauseBtn_disabled s) (crosswordGrid s)
    (gridTemplateColumns s) (traffic s).

Definition set_solveAllBtn_disabled (v : bool) (s : Client) : Client :=
  mkClient (gridData s) (acrossClues s) (downClues s) (cellNumbering s)
    (pauseRequested s) (statusText s) (statusClass s)
    (solveStepBtn_disabled s) v (pauseBtn_disabled s) (crosswordGrid s)
    (gridTemplateColumns s) (traffic s).

Definition set_pauseBtn_disabled (v : bool) (s : Client) : Client :=
  mkClient (gridData s) (acrossClues s) (downClues s) (cellNumbering s)
    (pauseRequested s) (statusText s) (statusClass s)
    (solveStepBtn_disabled s) (solveAllBtn_disabled s) v (crosswordGrid s)
    (gridTemplateColumns s) (traffic s).

Definition set_crosswordGrid (v : list CellElement) (s : Client) : Client :=
  mkClient (gridData s) (acrossClues s) (downClues s) (cellNumbering s)
    (pauseRequested s) (statusText s) (statusClass s)
    (solveStepBtn_disabled s) (solveAllBtn_disabled s) (pauseBtn_disabled s) v
    (gridTemplateColumns s) (traffic s).

Definition set_gridTemplateColumns (v : option nat) (s : Client) : Client :=
  mkClient (gridData s) (acrossClues s) (downClues s) (cellNumbering s)
    (pauseRequested s) (statusText s) (statusClass s)
    (solveStepBtn_disabled s) (solveAllBtn_disabled s) (pauseBtn_disabled s)
    (crosswordGrid s) v (traffic s).

Definition set_traffic (v : list NetEvent) (s : Client) : Client :=
  mkClient (gridData s) (acrossClues s) (downClues s) (cellNumbering s)
    (pauseRequested s) (statusText s) (statusClass s)
    (solveStepBtn_disabled s) (solveAllBtn_disabled s) (pauseBtn_disabled s)
    (crosswordGrid s) (gridTemplateColumns s) v.

(** The page as loaded: lines 10-14 (and 535, 764 in the third snapshot).
    The two solve buttons are taken to start disabled. *)
Definition initialClient : Client :=
  mkClient None [] [] ∅ false "" [] true true true [] None [].

(** ** Computations that may throw *)

Inductive Outcome (A : Type) : Type :=
| Returned (a : A) (s : Client)
| Thrown (msg : string) (s : Client).
Arguments Returned {A} a s.
Arguments Thrown {A} msg s.

Definition Js (A : Type) : Type := Client → Outcome A.

Definition ret {A} (a : A) : Js A := λ s, Returned a s.

Definition bind {A B} (m : Js A) (k : A → Js B) : Js B :=
  λ s, match m s with
       | Returned a s' => k a s'
       | Thrown msg s' => Thrown msg s'
       end.

Definition throw {A} (msg : string) : Js A := λ s, Thrown msg s.

(** A statement that only assigns. *)
Definition exec (f : Client → Client) : Js unit := λ s, Returned tt (f s).

(** [try { m } catch (error) { h error.message }] *)
Definition tryCatch {A} (m : Js A) (h : string → Js A) : Js A :=
  λ s, match m s with
       | Returned a s' => Returned a s'
       | Thrown msg s' => h msg s'
       end.

Notation "x <- m ;; k" := (bind m (λ x, k))
  (at level 100, m at next level, right associativity).
Notation "m >> k" := (bind m (λ _, k))
  (at level 100, right associativity).

Definition finalState {A} (o : Outcome A) : Client :=
  match o with Returned _ s => s | Thrown _ s => s end.

(** The value of a call that returns; none for one that throws. *)
Definition returned {A} (o : Outcome A) : option A :=
  match o with Returned a _ => Some a | Thrown _ _ => None end.

(** ** Effects on the DOM and the network *)

(** [element.classList.add(c)] *)
Definition classList_add (c : string) (l : list string) : list string :=
  if bool_decide (c ∈ l) then l else l ++ [c].

Definition emit (e : NetEvent) (s : Client) : Client :=
  set_traffic (traffic s ++ [e]) s.

(** [await fetch(url)], the [response.ok] test with its [throw], and
    [await response.json()]. *)
Definition fetchJson {A} (url failure : string) (r : Response A) : Js A :=
  exec (emit (Request url)) >>
  exec (emit (Settled url)) >>
  match r with
  | NetworkError msg => throw msg
  | HttpError => throw failure
  | BadBody msg => throw msg
  | Ok data => ret data
  end.

(** [await new Promise(resolve => setTimeout(resolve, ms))] *)
Definition sleep (ms : nat) : Js unit := exec (emit (Timer ms)).

(** ** createCellNumbering (lines 61-79, 297-315, 591-609) *)

(** The template literal [`${row}-${col}`]. *)
Definition cellKey (row col : nat) : string :=
  pretty row +:+ "-" +:+ pretty col.

Definition numberAcross (m : gmap string Z) (clue : Clue) : gmap string Z :=
  let '(row, col) := start clue in
  let key := cellKey row col in
  <[key := number clue]> m.

Definition numberDown (m : gmap string Z) (clue : Clue) : gmap string Z :=
  let '(row, col) := start clue in
  let key := cellKey row col in
  if negb (truthyNumber (m !! key)) then <[key := number clue]> m else m.

Definition createCellNumbering (s : Client) : Client :=
  let s := set_cellNumbering ∅ s in
  let s := set_cellNumbering
             (foldl numberAcross (cellNumbering s) (acrossClues s)) s in
  set_cellNumbering (foldl numberDown (cellNumbering s) (downClues s)) s.

(** ** renderGrid (lines 81-118, 317-354, 611-648) *)

Definition newCellElement : CellElement := mkCellElement [] [].

Definition addClass (c : string) (el : CellElement) : CellElement :=
  mkCellElement (classList_add c (classes el)) (children el).

Definition appendChild (n : Node) (el : CellElement) : CellElement :=
  mkCellElement (classes el) (children el ++ [n]).

(** Assigning [textContent] replaces every child by one text node. *)
Definition setTextContent (t : string) (el : CellElement) : CellElement :=
  mkCellElement (classes el) [TextNode t].

Definition renderCell (numbering : gmap string Z)
    (rowIndex colIndex : nat) (cell : Cell) : CellElement :=
  let cellElement := addClass "cell" newCellElement in
  if is_black cell then addClass "black" cellElement
  else
    let cellKey := cellKey rowIndex colIndex in
    let cellElement :=
      if truthyNumber (numbering !! cellKey) then
        match numbering !! cellKey with
        | Some n => appendChild (NumberSpan n) cellElement
        | None => cellElement
        end
      else cellElement in
    if truthyString (char cell) && negb (bool_decide (char cell = Some "*"))
    then
      match char cell with
      | Some c => addClass "filled" (setTextContent c cellElement)
      | None => cellElement
      end
    else cellElement.

Definition renderRows (numbering : gmap string Z) (g : Grid)
    : list CellElement :=
  concat (imap (λ rowIndex row,
                  imap (λ colIndex cell,
                          renderCell numbering rowIndex colIndex cell) row) g).

(** Lines 86-88: inside the guard [gridData.length > 0], the assignment
    [style.gridTemplateColumns = `repeat(${gridData[0].length}, 1fr)`].  The
    field holds the count [n] of the value [repeat(n, 1fr)] in force.  A
    count of 0 is no value of the property, and the style object drops the
    assignment of an invalid value: for an empty first row the template in
    force stays, as it does for a grid without rows. *)
Definition assignTemplateColumns (g : Grid) (inForce : option nat)
    : option nat :=
  match g with
  | row0 :: _ =>
      match length row0 with
      | 0 => inForce
      | S n => Some (S n)
      end
  | [] => inForce
  end.

(** [gridData.forEach] throws a [TypeError] when [gridData] is still [null];
    the grid element has been emptied by then. *)
Definition renderGrid : Js unit := λ s,
  let s := set_crosswordGrid [] s in
  match gridData s with
  | None => Thrown "Cannot read properties of null (reading 'forEach')" s
  | Some g =>
      let s := set_gridTemplateColumns
                 (assignTemplateColumns g (gridTemplateColumns s)) s in
      Returned tt (set_crosswordGrid (renderRows (cellNumbering s) g) s)
  end.

(** ** Pieces shared by the snapshots *)

(** A word between double quotes, for the status texts that contain them. *)
Definition quoted (w : string) : string :=
  let dq := String (Ascii.ascii_of_nat 34) EmptyString in dq +:+ w +:+ dq.

(** [const clue = clues.find(c => c.number === n); if (clue) { ... }]:
    the first clue with that number is updated in place. *)
Fixpoint updateFound (n : Z) (f : Clue → Clue) (clues : list Clue)
    : list Clue :=
  match clues with
  | [] => []
  | c :: rest =>
      if (number c =? n)%Z then f c :: rest else c :: updateFound n f rest
  end.

(** [if (data.message) solutionStatus.textContent = data.message;] *)
Definition showMessage (data : StepData) (s : Client) : Client :=
  if truthyString (message data)
  then set_statusText (default "" (message data)) s
  else s.

(** [clues.every(clue => clue.assigned)] *)
Definition everyAssigned (clues : list Clue) : bool :=
  forallb (λ clue, truthyString (assigned clue)) clues.

(** How a [while] loop that awaits ends on a script of [T]s: the condition
    became false, an exception left the loop, or the script ended while the
    loop was still going round.  [rest] is the unused part of the script. *)
Inductive Loop (T : Type) : Type :=
| Exited (s : Client) (rest : list T)
| Escaped (msg : string) (s : Client) (rest : list T)
| Starved (s : Client).
Arguments Exited {T} s rest.
Arguments Escaped {T} msg s rest.
Arguments Starved {T} s.

(** What a call of [solveAll] comes to: it has returned, or it is still
    inside its loop when the script ends. *)
Inductive Run (T : Type) : Type :=
| Finished (s : Client) (rest : list T)
| Pending (s : Client).
Arguments Finished {T} s rest.
Arguments Pending {T} s.

(** An [li] element of a clue list, as [renderClues] builds it. *)
Record ClueItem : Type := mkClueItem {
  item_id : string;
  item_classes : list string;
  item_text : string
}.

(** [document.createElement('li')] with its [id] and first [textContent]:
    lines 127-129; the loop over the down clues (lines 141-143) differs in
    the prefix of the id only. *)
Definition newClueItem (prefix : string) (clue : Clue) : ClueItem :=
  mkClueItem (prefix +:+ pretty (number clue)) []
    (pretty (number clue) +:+ ". " +:+ text clue
       +:+ " (" +:+ pretty (clue_length clue) +:+ ")").

(** ** First snapshot (lines 1-236) *)

Module Snapshot1.

(** [clue.assigned = assigned.assigned;] *)
Definition assign (a : Assignment) (clue : Clue) : Clue :=
  mkClue (number clue) (start clue) (clue_length clue) (text clue)
    (a_assigned a) (confidence clue).

Definition applyAssignment (s : Client) (a : Assignment) : Client :=
  if String.eqb (a_direction a) "A"
  then set_acrossClues (updateFound (a_number a) (assign a) (acrossClues s)) s
  else set_downClues (updateFound (a_number a) (assign a) (downClues s)) s.

(** lines 154-170 *)
Definition updateCluesWithAssignments
    (assignedClues : option (list Assignment)) (s : Client) : Client :=
  match assignedClues with
  | None => s
  | Some l => foldl applyAssignment s l
  end.

(** lines 173-201 *)
Definition runSolveStep (r : Response StepData) : Js JsBool :=
  data <- fetchJson "/api/solve_step" "Failed to solve step" r ;;
  exec (set_gridData (Some (step_grid data))) >>
  exec (updateCluesWithAssignments (assigned_clues data)) >>
  renderGrid >>
  exec (showMessage data) >>
  exec (λ s,
    if looseTrue (solved data) then
      set_solveAllBtn_disabled true
        (set_solveStepBtn_disabled true
           (set_statusClass (classList_add "correct" (statusClass s)) s))
    else if looseFalse (progress data) then
      set_statusClass (classList_add "incorrect" (statusClass s)) s
    else s) >>
  ret (solved data).

(** lines 203-213 *)
Definition solveStep (r : Response StepData) : Js JsBool :=
  tryCatch
    (exec (set_statusText "Solving step...") >>
     exec (set_statusClass []) >>
     runSolveStep r)
    (λ msg,
       exec (set_statusText ("Error: " +:+ msg)) >>
       ret (JBool false)).

(** The [while (!solved)] loop of lines 222-227. *)
Fixpoint solveAllLoop (solved : JsBool) (script : list (Response StepData))
    (s : Client) : Loop (Response StepData) :=
  if negb (truthy solved) then
    match script with
    | [] => Starved s
    | r :: rest =>
        match (sleep 500 >> solveStep r) s with
        | Returned solved' s' => solveAllLoop solved' rest s'
        | Thrown msg s' => Escaped msg s' rest
        end
    end
  else Exited s script.

(** lines 215-236 *)
Definition solveAll (script : list (Response StepData)) (s : Client)
    : Run (Response StepData) :=
  let s := set_statusText "Solving puzzle step by step..." s in
  let s := set_statusClass [] s in
  let s := set_solveStepBtn_disabled true s in
  let s := set_solveAllBtn_disabled true s in
  match solveAllLoop (JBool false) script s with
  | Exited s rest => Finished (set_solveAllBtn_disabled true s) rest
  | Escaped msg s rest =>
      let s := set_statusText ("Error: " +:+ msg) s in
      let s := set_solveStepBtn_disabled false s in
      Finished (set_solveAllBtn_disabled false s) rest
  | Starved s => Pending s
  end.


(** lines 22-59, and again lines 258-295 *)
Definition initializePuzzle (r : Response InitData) : Js unit :=
  tryCatch
    (exec (set_statusText "Initializing puzzle...") >>
     exec (set_statusClass []) >>
     data <- fetchJson "/api/initialize" "Failed to initialize puzzle" r ;;
     exec (set_gridData (Some (init_grid data))) >>
     exec (set_acrossClues (across_clues data)) >>
     exec (set_downClues (down_clues data)) >>
     exec createCellNumbering >>
     renderGrid >>
     exec (set_solveStepBtn_disabled false) >>
     exec (set_solveAllBtn_disabled false) >>
     exec (set_statusText
       ("Puzzle initialized. Click " +:+ quoted "Solve Step" +:+
        " to start solving or " +:+ quoted "Solve All" +:+
        " to solve the entire puzzle.")))
    (λ msg, exec (set_statusText ("Error: " +:+ msg))).

(** The body of one [forEach] of [renderClues], lines 126-137. *)
Definition clueItem (prefix : string) (clue : Clue) : ClueItem :=
  let listItem := newClueItem prefix clue in
  if truthyString (assigned clue) then
    mkClueItem (item_id listItem)
      (classList_add "solved" (item_classes listItem))
      (item_text listItem +:+ " → " +:+ default "" (assigned clue))
  else listItem.

(** lines 120-152, and again lines 356-388: the items of the across list
    and of the down list after the call. *)
Definition renderClues (s : Client) : list ClueItem * list ClueItem :=
  (clueItem "across-" <$> acrossClues s, clueItem "down-" <$> downClues s).

End Snapshot1.

(** ** Second snapshot (lines 237-520) *)

Module Snapshot2.

(** lines 444-460 are lines 154-170 again. *)
Definition updateCluesWithAssignments := Snapshot1.updateCluesWithAssignments.

(** One turn of the loop body, lines 472-510; the value is [allSolved]. *)
Definition solveAllBody (r : Response StepData) : Js bool :=
  sleep 500 >>
  data <- fetchJson "/api/solve_step" "Failed to solve step" r ;;
  exec (set_gridData (Some (step_grid data))) >>
  exec (updateCluesWithAssignments (assigned_clues data)) >>
  renderGrid >>
  exec (showMessage data) >>
  (λ s,
    let allSolved :=
      everyAssigned (acrossClues s) && everyAssigned (downClues s)
      || negb (truthy (progress data)) in
    let s :=
      if allSolved then
        match solved data with
        | JUndefined => s
        | JBool true =>
            set_statusClass (classList_add "correct" (statusClass s))
              (set_statusText "Puzzle solved correctly!" s)
        | _ =>
            set_statusClass (classList_add "incorrect" (statusClass s))
              (set_statusText
                 "Puzzle solved, but the solution is incorrect." s)
        end
      else s in
    Returned allSolved s).

(** The [while (!allSolved)] loop of lines 471-511. *)
Fixpoint solveAllLoop (allSolved : bool) (script : list (Response StepData))
    (s : Client) : Loop (Response StepData) :=
  if negb allSolved then
    match script with
    | [] => Starved s
    | r :: rest =>
        match solveAllBody r s with
        | Returned allSolved' s' => solveAllLoop allSolved' rest s'
        | Thrown msg s' => Escaped msg s' rest
        end
    end
  else Exited s script.

(** lines 462-520 *)
Definition solveAll (script : list (Response StepData)) (s : Client)
    : Run (Response StepData) :=
  let s := set_statusText "Solving puzzle step by step..." s in
  let s := set_statusClass [] s in
  let s := set_solveStepBtn_disabled true s in
  let s := set_solveAllBtn_disabled true s in
  match solveAllLoop false script s with
  | Exited s rest => Finished (set_solveAllBtn_disabled true s) rest
  | Escaped msg s rest =>
      let s := set_statusText ("Error: " +:+ msg) s in
      let s := set_solveStepBtn_disabled false s in
      Finished (set_solveAllBtn_disabled false s) rest
  | Starved s => Pending s
  end.


(** lines 390-442; the function has no [return]. *)
Definition solveStep (r : Response StepData) : Js unit :=
  tryCatch
    (exec (set_statusText "Solving step...") >>
     exec (set_statusClass []) >>
     data <- fetchJson "/api/solve_step" "Failed to solve step" r ;;
     exec (set_gridData (Some (step_grid data))) >>
     exec (updateCluesWithAssignments (assigned_clues data)) >>
     renderGrid >>
     exec (λ s,
       if truthyString (message data) then
         set_statusText (default "" (message data)) s
       else if truthy (progress data) then
         set_statusText "Step completed. Progress made!" s
       else
         set_statusText
           ("Step completed. No further progress. Try " +:+
            quoted "Solve All" +:+ " to use backtracking.") s) >>
     exec (λ s,
       let allSolved :=
         everyAssigned (acrossClues s) && everyAssigned (downClues s) in
       if allSolved then
         let s := set_solveStepBtn_disabled true s in
         match solved data with
         | JBool true =>
             set_statusClass (classList_add "correct" (statusClass s))
               (set_statusText "Puzzle solved correctly!" s)
         | JBool false =>
             set_statusClass (classList_add "incorrect" (statusClass s))
               (set_statusText
                  "Puzzle solved, but the solution is incorrect." s)
         | _ =>
             set_statusText "Puzzle solved! All clues have been assigned." s
         end
       else s))
    (λ msg, exec (set_statusText ("Error: " +:+ msg))).

End Snapshot2.

(** ** Third snapshot (lines 521-798) *)

Module Snapshot3.

(** [delete clue.assigned; delete clue.confidence;] *)
Definition forget (clue : Clue) : Clue :=
  mkClue (number clue) (start clue) (clue_length clue) (text clue) None None.

(** lines 543-589 *)
Definition initializePuzzle (r : Response InitData) : Js unit :=
  tryCatch
    (exec (set_statusText "Initializing puzzle...") >>
     exec (set_statusClass []) >>
     exec (set_acrossClues []) >>
     exec (set_downClues []) >>
     data <- fetchJson "/api/initialize" "Failed to initialize puzzle" r ;;
     exec (set_gridData (Some (init_grid data))) >>
     exec (set_acrossClues (across_clues data)) >>
     exec (set_downClues (down_clues data)) >>
     exec (λ s, set_acrossClues (forget <$> acrossClues s) s) >>
     exec (λ s, set_downClues (forget <$> downClues s) s) >>
     exec createCellNumbering >>
     renderGrid >>
     exec (set_solveStepBtn_disabled false) >>
     exec (set_solveAllBtn_disabled false) >>
     exec (set_pauseBtn_disabled true) >>
     exec (set_statusText
       ("Puzzle initialized. Click " +:+ quoted "Solve Step" +:+
        " to start solving or " +:+ quoted "Solve All" +:+
        " to solve the entire puzzle.")))
    (λ msg, exec (set_statusText ("Error: " +:+ msg))).

(** [clue.assigned = assigned.assigned; clue.confidence = assigned.confidence;] *)
Definition assign (a : Assignment) (clue : Clue) : Clue :=
  mkClue (number clue) (start clue) (clue_length clue) (text clue)
    (a_assigned a) (a_confidence a).

Definition applyAssignment (s : Client) (a : Assignment) : Client :=
  if String.eqb (a_direction a) "A"
  then set_acrossClues (updateFound (a_number a) (assign a) (acrossClues s)) s
  else set_downClues (updateFound (a_number a) (assign a) (downClues s)) s.

(** lines 693-711 *)
Definition updateCluesWithAssignments
    (assignedClues : option (list Assignment)) (s : Client) : Client :=
  match assignedClues with
  | None => s
  | Some l => foldl applyAssignment s l
  end.

(** lines 714-742 *)
Definition runSolveStep (r : Response StepData) : Js JsBool :=
  data <- fetchJson "/api/solve_step" "Failed to solve step" r ;;
  exec (set_gridData (Some (step_grid data))) >>
  exec (updateCluesWithAssignments (assigned_clues data)) >>
  renderGrid >>
  exec (showMessage data) >>
  exec (λ s,
    if looseTrue (solved data) then
      set_solveAllBtn_disabled true
        (set_solveStepBtn_disabled true
           (set_statusClass (classList_add "correct" (statusClass s)) s))
    else if looseFalse (progress data) then
      set_statusClass (classList_add "incorrect" (statusClass s)) s
    else s) >>
  ret (solved data).

(** lines 744-754 *)
Definition solveStep (r : Response StepData) : Js JsBool :=
  tryCatch
    (exec (set_statusText "Solving step...") >>
     exec (set_statusClass []) >>
     runSolveStep r)
    (λ msg,
       exec (set_statusText ("Error: " +:+ msg)) >>
       ret (JBool false)).

(** lines 756-758 *)
Definition pauseSolving (s : Client) : Client := set_pauseRequested true s.

(** A click on the Pause button (line 766); a disabled button does not
    dispatch it. *)
Definition clickPause (s : Client) : Client :=
  if pauseBtn_disabled s then s else pauseSolving s.

(** One turn of the [solveAll] loop as the outside world sees it: whether
    Pause is clicked while the turn waits for its timer or for its response,
    and how the request settles.  The click only sets [pauseRequested],
    which [solveStep] neither reads nor writes, so the loop below applies it
    before the step in both cases. *)
Record Turn : Type := mkTurn {
  pauseClicked : bool;
  reply : Response StepData
}.

(** The [while (!solved && !pauseRequested)] loop of lines 778-782. *)
Fixpoint solveAllLoop (solved : JsBool) (script : list Turn) (s : Client)
    : Loop Turn :=
  if negb (truthy solved) && negb (pauseRequested s) then
    match script with
    | [] => Starved s
    | t :: rest =>
        match (sleep 50 >>
               exec (λ s, if pauseClicked t then clickPause s else s) >>
               solveStep (reply t)) s with
        | Returned solved' s' => solveAllLoop solved' rest s'
        | Thrown msg s' => Escaped msg s' rest
        end
    end
  else Exited s script.

(** lines 768-798 *)
Definition solveAll (script : list Turn) (s : Client) : Run Turn :=
  let s := set_statusText "Solving puzzle step by step..." s in
  let s := set_statusClass [] s in
  let s := set_solveStepBtn_disabled true s in
  let s := set_solveAllBtn_disabled true s in
  let s := set_pauseBtn_disabled false s in
  let s := set_pauseRequested false s in
  match solveAllLoop (JBool false) script s with
  | Exited s rest =>
      let s := set_pauseBtn_disabled true s in
      Finished
        (if pauseRequested s then
           let s := set_statusText "Paused." s in
           let s := set_solveStepBtn_disabled false s in
           set_solveAllBtn_disabled false s
         else set_solveAllBtn_disabled true s)
        rest
  | Escaped msg s rest =>
      let s := set_statusText ("Error: " +:+ msg) s in
      let s := set_solveStepBtn_disabled false s in
      let s := set_solveAllBtn_disabled false s in
      Finished (set_pauseBtn_disabled true s) rest
  | Starved s => Pending s
  end.


(** The body of one [forEach] of [renderClues], lines 656-672.  How a number
    that is no integer reads in a template literal is left to the
    parameter [showNumber]. *)
Definition clueItem (showNumber : Q → string) (prefix : string) (clue : Clue)
    : ClueItem :=
  let listItem := newClueItem prefix clue in
  if truthyString (assigned clue) then
    mkClueItem (item_id listItem)
      (classList_add "solved" (item_classes listItem))
      match confidence clue with
      | Some q =>
          item_text listItem +:+ " → " +:+ default "" (assigned clue)
            +:+ " (" +:+ showNumber q +:+ ")"
      | None =>
          item_text listItem +:+ " → " +:+ default "" (assigned clue)
      end
  else listItem.

(** lines 650-691 *)
Definition renderClues (showNumber : Q → string) (s : Client)
    : list ClueItem * list ClueItem :=
  (clueItem showNumber "across-" <$> acrossClues s,
   clueItem showNumber "down-" <$> downClues s).

End Snapshot3.

(** ** Vocabulary of the statements *)

Fixpoint occurs (a : Ascii.ascii) (s : string) : bool :=
  match s with
  | EmptyString => false
  | String b rest => bool_decide (a = b) || occurs a rest
  end.

(** The key under which a clue's start cell is numbered. *)
Definition startKey (clue : Clue) : string :=
  cellKey (start clue).1 (start clue).2.

(** The test of line 101, [if (cellNumbering[cellKey])]: the cell at
    [(row, col)] has a number to show. *)
Definition hasVisibleNumber (m : gmap string Z) (row col : nat) : Prop :=
  truthyNumber (m !! cellKey row col) = true.

(** A small puzzle used to exercise the statements: a 3x3 grid with a
    black centre, across clues 1 and 3, down clues 1 and 2. *)
Definition white (c : option string) : Cell := mkCell false c.
Definition black : Cell := mkCell true None.

Definition sampleGrid : Grid :=
  [ [white None; white None; white None];
    [white None; black;      white None];
    [white None; white None; white None] ].

Definition sampleAcross : list Clue :=
  [ mkClue 1 (0, 0) 3 "Pet that purrs" None None;
    mkClue 3 (2, 0) 3 "Jog quickly" None None ].

Definition sampleDown : list Clue :=
  [ mkClue 1 (0, 0) 3 "Automobile" None None;
    mkClue 2 (0, 2) 3 "Heavy weight" None None ].

(** A response of [/api/initialize] whose clues still carry an answer, and
    a client left over from an earlier session. *)
Definition sampleInit : InitData :=
  mkInitData sampleGrid
    [ mkClue 1 (0, 0) 3 "Pet that purrs" (Some "DOG") (Some (1 # 4)%Q);
      mkClue 3 (2, 0) 3 "Jog quickly" None None ]
    sampleDown.

Definition staleClient : Client :=
  mkClient (Some [[black]])
    [mkClue 5 (4, 4) 2 "Old clue" (Some "NO") (Some (1 # 3)%Q)] []
    {[ "4-4" := 5%Z ]} true "Paused." ["incorrect"] true true false
    [mkCellElement ["cell"; "black"] []] (Some 1) [].

Definition sampleClient : Client :=
  set_downClues sampleDown
    (set_acrossClues sampleAcross (set_gridData (Some sampleGrid) initialClient)).

(** An entry of [assigned_clues] is addressed to the clue numbered [n] of
    the list of direction [dir]. *)
Definition addressedTo (dir : string) (n : Z) (a : Assignment) : bool :=
  String.eqb (a_direction a) dir && (a_number a =? n)%Z.

(** The last entry of the payload addressed to that clue, if there is one. *)
Definition lastAddressed (dir : string) (n : Z) (l : list Assignment)
    : option Assignment :=
  last (filter (addressedTo dir n) l).

(** Every entry names one of the two directions of the interface. *)
Definition wellDirected (l : list Assignment) : Prop :=
  Forall (λ a, a_direction a = "A" ∨ a_direction a = "D") l.

(** How a clue [c] of the list of direction [dir] relates to the clue [c']
    that takes its place after the payload [l] has been applied: a clue that
    no entry addresses is unchanged; one that is addressed takes [assigned]
    (and [confidence], where the snapshot copies it) from the last entry
    addressed to it and keeps its other fields. *)
Definition updatedAs (copiesConfidence : bool) (dir : string)
    (l : list Assignment) (c c' : Clue) : Prop :=
  match lastAddressed dir (number c) l with
  | None => c' = c
  | Some a =>
      number c' = number c ∧ start c' = start c
      ∧ clue_length c' = clue_length c ∧ text c' = text c
      ∧ assigned c' = a_assigned a
      ∧ confidence c' =
        (if copiesConfidence then a_confidence a else confidence c)
  end.

(** The loop body of [updateCluesWithAssignments] with the assignment to the
    clue found left open, and a clue after the entries addressed to it. *)
Definition applyAssignmentWith (assign : Assignment → Clue → Clue)
    (s : Client) (a : Assignment) : Client :=
  if String.eqb (a_direction a) "A"
  then set_acrossClues (updateFound (a_number a) (assign a) (acrossClues s)) s
  else set_downClues (updateFound (a_number a) (assign a) (downClues s)) s.

Definition replay (assign : Assignment → Clue → Clue) (c : Clue)
    (l : list Assignment) : Clue :=
  foldl (λ c a, assign a c) c l.

(** The place of the cell at [(row, col)] among the children of the grid
    element, which [renderGrid] appends row after row. *)
Definition cellIndex (g : Grid) (row col : nat) : nat :=
  length (concat (take row g)) + col.

(** The [char] field holds the letter [t]; an empty string and the
    placeholder [*] are no letters. *)
Definition holdsLetter (cell : Cell) (t : string) : Prop :=
  char cell = Some t ∧ t ≠ "" ∧ t ≠ "*".

(** The sample grid after two answers have been written into it, with a
    placeholder left in one cell. *)
Definition sampleFilledGrid : Grid :=
  [ [white (Some "C"); white (Some "A"); white (Some "T")];
    [white (Some "*"); black;            white (Some "O")];
    [white None;       white (Some "");  white (Some "N")] ].

Definition samplePayload : list Assignment :=
  [ mkAssignment 1 "A" (Some "CAT") (Some (9 # 10)%Q);
    mkAssignment 7 "D" (Some "XYZ") (Some (1 # 10)%Q);
    mkAssignment 2 "D" (Some "TON") (Some (1 # 2)%Q) ].

(** What [solveStep] hands back for a settled request: [data.solved], or
    [false] from the [catch]. *)
Definition stepResult (r : Response StepData) : JsBool :=
  match r with
  | Ok data => solved data
  | _ => JBool false
  end.

(** The request has failed with the error message [msg]: [fetch] rejected,
    the response was not ok, or its body could not be read. *)
Definition requestFails (r : Response StepData) (msg : string) : Prop :=
  r = NetworkError msg
  ∨ (r = HttpError ∧ msg = "Failed to solve step")
  ∨ r = BadBody msg.

(** The part of the client that holds the puzzle: the four globals and what
    is drawn of the grid. *)
Definition sameData (s1 s2 : Client) : Prop :=
  gridData s1 = gridData s2
  ∧ acrossClues s1 = acrossClues s2
  ∧ downClues s1 = downClues s2
  ∧ cellNumbering s1 = cellNumbering s2
  ∧ crosswordGrid s1 = crosswordGrid s2
  ∧ gridTemplateColumns s1 = gridTemplateColumns s2.

(** A step that backtracks while the puzzle is still being solved. *)
Definition backtrackStep : StepData :=
  mkStepData sampleGrid (Some [mkAssignment 2 "D" None None])
    (Some "Backtracking: removed 2-Down") JNull (JBool false).

(** A step that keeps going forward. *)
Definition forwardStep : StepData :=
  mkStepData sampleFilledGrid (Some samplePayload)
    (Some "Assigned 1-Across") JNull (JBool true).

(** A terminal step of a search that found no solution. *)
Definition exhaustedStep : StepData :=
  mkStepData sampleGrid (Some []) (Some "No solution found")
    (JBool false) (JBool false).

(** A terminal step of a search that succeeded. *)
Definition completeStep : StepData :=
  mkStepData sampleFilledGrid (Some []) (Some "Puzzle solved")
    (JBool true) (JBool true).

(** The tail of [runSolveStep] (lines 189-199, 730-740): the message and
    the status styling of a step result. *)
Definition announce (data : StepData) (s : Client) : Client :=
  let s := showMessage data s in
  if looseTrue (solved data) then
    set_solveAllBtn_disabled true
      (set_solveStepBtn_disabled true
         (set_statusClass (classList_add "correct" (statusClass s)) s))
  else if looseFalse (progress data) then
    set_statusClass (classList_add "incorrect" (statusClass s)) s
  else s.

(** What [renderGrid] leaves when the client holds the grid [g]. *)
Definition drawn (g : Grid) (s : Client) : Client :=
  let s := set_crosswordGrid [] s in
  let s := set_gridTemplateColumns
             (assignTemplateColumns g (gridTemplateColumns s)) s in
  set_crosswordGrid (renderRows (cellNumbering s) g) s.

(** The client when the request of [solveStep] has settled: the status has
    been reset and the request has gone out and come back. *)
Definition requested (s : Client) : Client :=
  emit (Settled "/api/solve_step")
    (emit (Request "/api/solve_step")
       (set_statusClass [] (set_statusText "Solving step..." s))).

(** The client after [solveStep] has taken in the body [data], read along
    the statements of [solveStep] and [runSolveStep]. *)
Definition afterStep1 (data : StepData) (s : Client) : Client :=
  announce data
    (drawn (step_grid data)
       (Snapshot1.updateCluesWithAssignments (assigned_clues data)
          (set_gridData (Some (step_grid data)) (requested s)))).

Definition afterStep3 (data : StepData) (s : Client) : Client :=
  announce data
    (drawn (step_grid data)
       (Snapshot3.updateCluesWithAssignments (assigned_clues data)
          (set_gridData (Some (step_grid data)) (requested s)))).

(** *** Runs of solveAll *)

(** The client once [solveAll] has reached its loop: lines 217-222 in the
    first snapshot, 770-777 in the third. *)
Definition entered1 (s : Client) : Client :=
  set_solveAllBtn_disabled true
    (set_solveStepBtn_disabled true
       (set_statusClass []
          (set_statusText "Solving puzzle step by step..." s))).

Definition entered3 (s : Client) : Client :=
  set_pauseRequested false (set_pauseBtn_disabled false (entered1 s)).

(** The client after one more turn of the loop. *)
Definition afterTurn1 (s : Client) (r : Response StepData) : Client :=
  finalState ((sleep 500 >> Snapshot1.solveStep r) s).

Definition afterTurn3 (s : Client) (t : Snapshot3.Turn) : Client :=
  finalState
    ((sleep 50 >>
      exec (λ s, if Snapshot3.pauseClicked t then Snapshot3.clickPause s else s) >>
      Snapshot3.solveStep (Snapshot3.reply t)) s).

(** A turn after which the loop is left: its step returned a truthy value,
    that is [solved] was [true], or (third snapshot) Pause was clicked. *)
Definition stops1 (r : Response StepData) : bool := truthy (stepResult r).

Definition stops3 (t : Snapshot3.Turn) : bool :=
  Snapshot3.pauseClicked t || truthy (stepResult (Snapshot3.reply t)).

(** The client a run of [solveAll] has reached. *)
Definition reached {T} (run : Run T) : Client :=
  match run with Finished s _ => s | Pending s => s end.

(** Requests for a step in a log, and requests still unanswered. *)
Definition isStepRequest (e : NetEvent) : bool :=
  match e with Request u => String.eqb u "/api/solve_step" | _ => false end.

Definition isStepSettled (e : NetEvent) : bool :=
  match e with Settled u => String.eqb u "/api/solve_step" | _ => false end.

Fixpoint stepRequests (log : list NetEvent) : nat :=
  match log with
  | [] => 0
  | e :: log => (if isStepRequest e then 1 else 0) + stepRequests log
  end.

Fixpoint inFlight (log : list NetEvent) : Z :=
  match log with
  | [] => 0
  | e :: log =>
      ((if isStepRequest e then 1 else 0)
       - (if isStepSettled e then 1 else 0) + inFlight log)%Z
  end.

(** At every moment of the log at most one step request is unanswered. *)
Definition serialized (log : list NetEvent) : Prop :=
  ∀ pre, pre `prefix_of` log → (0 ≤ inFlight pre ≤ 1)%Z.

(** [n] turns of a loop on the network: the timer, the request, its answer. *)
Definition turns (ms n : nat) : list NetEvent :=
  concat (replicate n
    [Timer ms; Request "/api/solve_step"; Settled "/api/solve_step"]).


(** The client after Solve Step has been used once for each reply. *)
Definition stepped3 (s : Client) (replies : list (Response StepData)) : Client :=
  foldl (λ s r, finalState (Snapshot3.solveStep r s)) s replies.

(** The client a loop has reached, however it ended. *)
Definition loopState {T} (l : Loop T) : Client :=
  match l with Exited s _ => s | Escaped _ s _ => s | Starved s => s end.

(** Second snapshot: the client when the loop body reaches line 497, and
    the value [allSolved] gets there. *)
Definition shown2 (data : StepData) (s : Client) : Client :=
  showMessage data
    (drawn (step_grid data)
       (Snapshot2.updateCluesWithAssignments (assigned_clues data)
          (set_gridData (Some (step_grid data))
             (emit (Settled "/api/solve_step")
                (emit (Request "/api/solve_step") (emit (Timer 500) s)))))).

Definition allSolved2 (data : StepData) (s : Client) : bool :=
  everyAssigned (acrossClues (shown2 data s))
  && everyAssigned (downClues (shown2 data s))
  || negb (truthy (progress data)).

(** Scripts for the sample puzzle: a backtracking step, a terminal step
    without solution and a failed request, none of which ends the loop of
    the first and third snapshot, then the step that does. *)
Definition sampleReplies : list (Response StepData) :=
  [Ok backtrackStep; Ok exhaustedStep; HttpError].

Definition sampleTurns : list Snapshot3.Turn :=
  Snapshot3.mkTurn false <$> sampleReplies.

(** *** Vocabulary of the further properties *)

(** What makes a clue the clue it is: the fields no step writes. *)
Definition identity (c : Clue) : Z * (nat * nat) * nat * string :=
  (number c, start c, clue_length c, text c).

(** The numbering map is the one [createCellNumbering] would build from the
    clue lists the client holds now. *)
Definition numberingInSync (s : Client) : Prop :=
  cellNumbering s = cellNumbering (createCellNumbering s).

(** The request of [initializePuzzle] has failed with the message [msg]. *)
Definition initFails (r : Response InitData) (msg : string) : Prop :=
  r = NetworkError msg
  ∨ (r = HttpError ∧ msg = "Failed to initialize puzzle")
  ∨ r = BadBody msg.

(** The clue an entry of the payload is meant for, as the loop body reads
    it: the across list when the direction is [A], else the down list, and
    the number looked for there. *)
Definition target (a : Assignment) : bool * Z :=
  (String.eqb (a_direction a) "A", a_number a).

(** The response with [assigned] and [confidence] deleted from every clue. *)
Definition forgotten (data : InitData) : InitData :=
  mkInitData (init_grid data) (Snapshot3.forget <$> across_clues data)
    (Snapshot3.forget <$> down_clues data).

(** *** Sessions *)

(** What the user does in a session, one handler after the other, each with
    the way its requests settle: a click on Initialize, a click on Solve
    Step, and a click on Solve All with the script of its turns.  After a run of Solve All whose script has run out the session
    goes on from the client the run has reached. *)
Inductive Action (T : Type) : Type :=
| Initialize (r : Response InitData)
| Step (r : Response StepData)
| All (script : list T).
Arguments Initialize {T} r.
Arguments Step {T} r.
Arguments All {T} script.

Definition act1 (s : Client) (a : Action (Response StepData)) : Client :=
  match a with
  | Initialize r => finalState (Snapshot1.initializePuzzle r s)
  | Step r => finalState (Snapshot1.solveStep r s)
  | All script => reached (Snapshot1.solveAll script s)
  end.

Definition act3 (s : Client) (a : Action Snapshot3.Turn) : Client :=
  match a with
  | Initialize r => finalState (Snapshot3.initializePuzzle r s)
  | Step r => finalState (Snapshot3.solveStep r s)
  | All script => reached (Snapshot3.solveAll script s)
  end.

(** The action is a call of [initializePuzzle] whose request fails. *)
Definition initializeFails {T} (a : Action T) : bool :=
  match a with
  | Initialize (Ok _) => false
  | Initialize _ => true
  | _ => false
  end.

(** The grid element shows the grid the client holds, numbered by the map
    it holds; it is empty as long as there is no grid. *)
Definition drawingInSync (s : Client) : Prop :=
  crosswordGrid s
  = match gridData s with
    | Some g => renderRows (cellNumbering s) g
    | None => []
    end.

(** A session of the sample puzzle: it is initialized, two steps, a run of
    Solve All that is paused in its second turn, a failed step, and it is
    initialized again. *)
Definition sampleSession3 : list (Action Snapshot3.Turn) :=
  [ Initialize (Ok sampleInit); Step (Ok forwardStep); Step (Ok backtrackStep);
    All [Snapshot3.mkTurn false (Ok forwardStep);
         Snapshot3.mkTurn true (Ok backtrackStep);
         Snapshot3.mkTurn false (Ok completeStep)];
    Step HttpError; Initialize (Ok sampleInit) ].

(** Second snapshot: the client when [solveStep] has taken in the body
    [data] and drawn it, lines 403-410. *)
Definition taken2 (data : StepData) (s : Client) : Client :=
  drawn (step_grid data)
    (Snapshot2.updateCluesWithAssignments (assigned_clues data)
       (set_gridData (Some (step_grid data)) (requested s))).

(** [allSolved] of line 424, read on a client. *)
Definition allAssigned (s : Client) : bool :=
  everyAssigned (acrossClues s) && everyAssigned (downClues s).

(** The answer a clue of the list of direction [dir] holds once the
    payload [l] has been applied: that of the last entry addressed to it,
    its own if there is none. *)
Definition answerAfter (dir : string) (l : list Assignment) (c : Clue)
    : option string :=
  match lastAddressed dir (number c) l with
  | Some a => a_assigned a
  | None => assigned c
  end.

(** The item of the list with ids [prefix] drawn for the clue [c] is marked
    solved exactly when [answer] is a non-empty string. *)
Definition marks (prefix : string) (answer : Clue → option string)
    (c : Clue) (item : ClueItem) : Prop :=
  item_id item = prefix +:+ pretty (number c)
  ∧ item_classes item = (if truthyString (answer c) then ["solved"] else []).

(** The number [createCellNumbering] leaves at the key [k], read off the
    two clue lists: the last across clue that starts at the cell decides, if
    its number is not 0; else, among the down clues that start there, the
    first whose number is not 0, and 0 if all have the number 0; with no
    down clue there, what the across clues left. *)
Definition numberAt (A D : list Clue) (k : string) : option Z :=
  let across := number <$> last (filter (λ c, startKey c = k) A) in
  if truthyNumber across then across
  else
    match filter (λ c, startKey c = k) D with
    | [] => across
    | ds =>
        Some (default 0%Z (number <$> head (filter (λ d, number d ≠ 0%Z) ds)))
    end.

(** A clue without its confidence. *)
Definition sansConfidence (c : Clue) : Clue :=
  mkClue (number c) (start c) (clue_length c) (text c) (assigned c) None.

(** ** Handlers that overlap *)

(** The handlers of the script are [async] functions.  A handler started by
    a click runs until its next [await] on the network or on a timer and
    goes on when the response has come or the timer has fired; between the
    two, other handlers run.  The awaits on the script's own functions
    ([await runSolveStep()], [await solveStep()]) give way to microtasks
    only, which no click, timer or response gets in between: they belong to
    the step that reaches them.  As in [fetchJson], the two awaits of a
    request, for the response and for its body, are taken as one. *)

(** Where a handler that has been started waits: [initializePuzzle] for
    its response; [solveStep], called by a click, for its response;
    [solveAll] for the timer of its turn; [solveAll] for the response of
    the [solveStep] it has called. *)
Inductive Waiting : Type :=
| InitFetch
| StepFetch
| AllTimer
| AllFetch.

(** [fetchJson] from its await on: the [response.ok] test with its [throw]
    and the body. *)
Definition fetched {A} (failure : string) (r : Response A) : Js A :=
  match r with
  | NetworkError msg => throw msg
  | HttpError => throw failure
  | BadBody msg => throw msg
  | Ok data => ret data
  end.

(** The handlers of one snapshot, cut at these awaits: what a handler does
    up to the call of [fetch] or [setTimeout], and what it does from the
    settled response on.  The call of [fetch] and the arrival of the
    response are left to the page. *)
Record Handlers : Type := mkHandlers {
  initializePuzzle_start : Client → Client;
  initializePuzzle_resume : Response InitData → Js unit;
  solveStep_start : Client → Client;
  solveStep_resume : Response StepData → Js JsBool;
  solveAll_start : Client → Client;
  solveAll_goesOn : JsBool → Client → bool;
  solveAll_end : Client → Client;
  solveAll_catch : string → Client → Client;
  solveAll_delay : nat;
  pause_click : Client → Client
}.

(** lines 174-175 and 715-716, the same in both snapshots *)
Definition solveStepStart (s : Client) : Client :=
  set_statusClass [] (set_statusText "Solving step..." s).

(** First snapshot: [initializePuzzle] (lines 22-59), [runSolveStep] inside
    [solveStep] (lines 173-213) and [solveAll] (lines 215-236). *)
Definition handlers1 : Handlers :=
  mkHandlers
    (λ s, set_statusClass [] (set_statusText "Initializing puzzle..." s))
    (λ r,
       tryCatch
         (data <- fetched "Failed to initialize puzzle" r ;;
          exec (set_gridData (Some (init_grid data))) >>
          exec (set_acrossClues (across_clues data)) >>
          exec (set_downClues (down_clues data)) >>
          exec createCellNumbering >>
          renderGrid >>
          exec (set_solveStepBtn_disabled false) >>
          exec (set_solveAllBtn_disabled false) >>
          exec (set_statusText
            ("Puzzle initialized. Click " +:+ quoted "Solve Step" +:+
             " to start solving or " +:+ quoted "Solve All" +:+
             " to solve the entire puzzle.")))
         (λ msg, exec (set_statusText ("Error: " +:+ msg))))
    solveStepStart
    (λ r,
       tryCatch
         (data <- fetched "Failed to solve step" r ;;
          exec (set_gridData (Some (step_grid data))) >>
          exec (Snapshot1.updateCluesWithAssignments (assigned_clues data)) >>
          renderGrid >>
          exec (announce data) >>
          ret (solved data))
         (λ msg,
            exec (set_statusText ("Error: " +:+ msg)) >>
            ret (JBool false)))
    entered1
    (λ solved _, negb (truthy solved))
    (set_solveAllBtn_disabled true)
    (λ msg s,
       set_solveAllBtn_disabled false
         (set_solveStepBtn_disabled false
            (set_statusText ("Error: " +:+ msg) s)))
    500
    (λ s, s).

(** Third snapshot: [initializePuzzle] (lines 543-589), [runSolveStep]
    inside [solveStep] (lines 714-754), [solveAll] (lines 768-798) and the
    click on Pause (line 766). *)
Definition handlers3 : Handlers :=
  mkHandlers
    (λ s,
       set_downClues []
         (set_acrossClues []
            (set_statusClass []
               (set_statusText "Initializing puzzle..." s))))
    (λ r,
       tryCatch
         (data <- fetched "Failed to initialize puzzle" r ;;
          exec (set_gridData (Some (init_grid data))) >>
          exec (set_acrossClues (across_clues data)) >>
          exec (set_downClues (down_clues data)) >>
          exec (λ s, set_acrossClues (Snapshot3.forget <$> acrossClues s) s) >>
          exec (λ s, set_downClues (Snapshot3.forget <$> downClues s) s) >>
          exec createCellNumbering >>
          renderGrid >>
          exec (set_solveStepBtn_disabled false) >>
          exec (set_solveAllBtn_disabled false) >>
          exec (set_pauseBtn_disabled true) >>
          exec (set_statusText
            ("Puzzle initialized. Click " +:+ quoted "Solve Step" +:+
             " to start solving or " +:+ quoted "Solve All" +:+
             " to solve the entire puzzle.")))
         (λ msg, exec (set_statusText ("Error: " +:+ msg))))
    solveStepStart
    (λ r,
       tryCatch
         (data <- fetched "Failed to solve step" r ;;
          exec (set_gridData (Some (step_grid data))) >>
          exec (Snapshot3.updateCluesWithAssignments (assigned_clues data)) >>
          renderGrid >>
          exec (announce data) >>
          ret (solved data))
         (λ msg,
            exec (set_statusText ("Error: " +:+ msg)) >>
            ret (JBool false)))
    entered3
    (λ solved s, negb (truthy solved) && negb (pauseRequested s))
    (λ s,
       let s := set_pauseBtn_disabled true s in
       if pauseRequested s then
         set_solveAllBtn_disabled false
           (set_solveStepBtn_disabled false (set_statusText "Paused." s))
       else set_solveAllBtn_disabled true s)
    (λ msg s,
       set_pauseBtn_disabled true
         (set_solveAllBtn_disabled false
            (set_solveStepBtn_disabled false
               (set_statusText ("Error: " +:+ msg) s))))
    50
    Snapshot3.clickPause.

(** The page: the client, the handlers that wait, each under the number it
    got when it was started, the count of handlers started so far, and, as
    [traffic] does for the client, the timers, requests and responses in
    order, each with the number of its handler. *)
Record Page : Type := mkPage {
  client : Client;
  waiting : gmap nat Waiting;
  started : nat;
  wire : list (nat * NetEvent)
}.

(** The page as loaded. *)
Definition loaded : Page := mkPage initialClient ∅ 0 [].

(** What happens on the page: a click on one of the four buttons, the
    timer of a handler fires, a request of a handler settles. *)
Inductive Event : Type :=
| ClickInitialize
| ClickSolveStep
| ClickSolveAll
| ClickPause
| TimerFires (id : nat)
| InitializeSettles (id : nat) (r : Response InitData)
| StepSettles (id : nat) (r : Response StepData).

(** The head of the [while] loop of [solveAll], reached with the value
    [solved]: the handler [id] starts its timer and waits, or leaves the
    loop and ends. *)
Definition loopHead (h : Handlers) (id : nat) (solved : JsBool)
    (c : Client) (p : Page) : Page :=
  if solveAll_goesOn h solved c then
    mkPage (emit (Timer (solveAll_delay h)) c)
      (<[id := AllTimer]> (waiting p)) (started p)
      (wire p ++ [(id, Timer (solveAll_delay h))])
  else mkPage (solveAll_end h c) (delete id (waiting p)) (started p) (wire p).

(** One event.  A disabled button dispatches no click; a timer or a
    response that no handler waits for changes nothing.  The Initialize
    button is never disabled. *)
Definition fire (h : Handlers) (p : Page) (e : Event) : Page :=
  let c := client p in
  match e with
  | ClickInitialize =>
      mkPage (emit (Request "/api/initialize") (initializePuzzle_start h c))
        (<[started p := InitFetch]> (waiting p)) (S (started p))
        (wire p ++ [(started p, Request "/api/initialize")])
  | ClickSolveStep =>
      if solveStepBtn_disabled c then p
      else
        mkPage (emit (Request "/api/solve_step") (solveStep_start h c))
          (<[started p := StepFetch]> (waiting p)) (S (started p))
          (wire p ++ [(started p, Request "/api/solve_step")])
  | ClickSolveAll =>
      if solveAllBtn_disabled c then p
      else
        loopHead h (started p) (JBool false) (solveAll_start h c)
          (mkPage c (waiting p) (S (started p)) (wire p))
  | ClickPause => mkPage (pause_click h c) (waiting p) (started p) (wire p)
  | TimerFires id =>
      match waiting p !! id with
      | Some AllTimer =>
          mkPage (emit (Request "/api/solve_step") (solveStep_start h c))
            (<[id := AllFetch]> (waiting p)) (started p)
            (wire p ++ [(id, Request "/api/solve_step")])
      | _ => p
      end
  | InitializeSettles id r =>
      match waiting p !! id with
      | Some InitFetch =>
          mkPage
            (finalState
               (initializePuzzle_resume h r
                  (emit (Settled "/api/initialize") c)))
            (delete id (waiting p)) (started p)
            (wire p ++ [(id, Settled "/api/initialize")])
      | _ => p
      end
  | StepSettles id r =>
      match waiting p !! id with
      | Some StepFetch =>
          mkPage
            (finalState
               (solveStep_resume h r (emit (Settled "/api/solve_step") c)))
            (delete id (waiting p)) (started p)
            (wire p ++ [(id, Settled "/api/solve_step")])
      | Some AllFetch =>
          let p' := mkPage c (waiting p) (started p)
                      (wire p ++ [(id, Settled "/api/solve_step")]) in
          match solveStep_resume h r (emit (Settled "/api/solve_step") c) with
          | Returned solved c' => loopHead h id solved c' p'
          | Thrown msg c' =>
              mkPage (solveAll_catch h msg c') (delete id (waiting p'))
                (started p') (wire p')
          end
      | _ => p
      end
  end.

(** The log of the page without the handlers' numbers, and the part of it
    that belongs to the handler [id]. *)
Definition air (p : Page) : list NetEvent := (wire p).*2.

Definition own (id : nat) (p : Page) : list NetEvent :=
  (filter (λ x, x.1 = id) (wire p)).*2.

(** The events a run of [solveAll] with the number [id] needs for the
    turns of a script, nothing else happening: a click on Pause where the
    turn has one, the timer, the response. *)
Definition attend (id : nat) (script : list Snapshot3.Turn) : list Event :=
  script ≫= λ t,
    (if Snapshot3.pauseClicked t then [ClickPause] else [])
    ++ [TimerFires id; StepSettles id (Snapshot3.reply t)].

(** The event is the response of a successful [initializePuzzle]. *)
Definition initializeSucceeds (e : Event) : bool :=
  match e with
  | InitializeSettles _ (Ok _) => true
  | _ => false
  end.

(** The run of [solveAll] with the number [id] is under way and alone with
    handlers of [initializePuzzle]: it waits for its timer or its step, no
    handler of a click on Solve Step or Solve All waits, and both solve
    buttons are disabled. *)
Definition runsAlone (id : nat) (p : Page) : Prop :=
  (waiting p !! id = Some AllTimer ∨ waiting p !! id = Some AllFetch)
  ∧ (∀ j w, j ≠ id → waiting p !! j = Some w → w = InitFetch)
  ∧ id < started p
  ∧ solveStepBtn_disabled (client p) = true
  ∧ solveAllBtn_disabled (client p) = true
  ∧ inFlight (air p)
    = match waiting p !! id with Some AllFetch => 1%Z | _ => 0%Z end.

(** A page on which the sample puzzle has been initialized and nothing
    waits. *)
Definition samplePage : Page :=
  mkPage (finalState (Snapshot3.initializePuzzle (Ok sampleInit) initialClient))
    ∅ 1 [(0, Request "/api/initialize"); (0, Settled "/api/initialize")].

(** What the log of a handler has to do with where the handler waits: one
    of its step requests is unanswered exactly while it waits for it. *)
Definition unanswered (w : option Waiting) : Z :=
  match w with
  | Some StepFetch | Some AllFetch => 1
  | _ => 0
  end.

(** What the log of a handler looks like, by where the handler waits.  A
    run of [solveAll] with the delay [ms] has gone through whole turns, the
    timer, then the request, then its answer, and is in the next one; a
    handler that has ended was one of the three kinds. *)
Definition paced (ms : nat) (w : option Waiting) (log : list NetEvent) : Prop :=
  match w with
  | Some InitFetch => log = [Request "/api/initialize"]
  | Some StepFetch => log = [Request "/api/solve_step"]
  | Some AllTimer => ∃ n, log = turns ms n ++ [Timer ms]
  | Some AllFetch =>
      ∃ n, log = turns ms n ++ [Timer ms; Request "/api/solve_step"]
  | None =>
      log = [Request "/api/initialize"; Settled "/api/initialize"]
      ∨ log = [Request "/api/solve_step"; Settled "/api/solve_step"]
      ∨ ∃ n, log = turns ms n
  end.

(** The numbers of the handlers are in use once: those that wait and those
    in the log are below the count, and the log of every handler agrees
    with where it waits. *)
Definition tidy (p : Page) : Prop :=
  (∀ j w, waiting p !! j = Some w → j < started p)
  ∧ (∀ j e, (j, e) ∈ wire p → j < started p)
  ∧ ∀ id, serialized (own id p)
          ∧ inFlight (own id p) = unanswered (waiting p !! id).

(** * Properties *)

(** ** Cell keys *)

Lemma occurs_app a s t : occurs a (s +:+ t) = occurs a s || occurs a t.
Proof.
  induction s as [|b s IH]; simpl; [done|].
  rewrite IH. by rewrite orb_assoc.
Qed.

Lemma pretty_N_go_dash (x : N) (s : string) :
  occurs "-"%char (pretty_N_go x s) = occurs "-"%char s.
Proof.
  revert s. induction (N.lt_wf_0 x) as [x _ IH]; intros s.
  destruct (decide (x = 0)%N) as [->|Hx].
  - by rewrite pretty_N_go_0.
  - rewrite pretty_N_go_step by lia.
    rewrite IH by (apply N.div_lt; lia).
    simpl. unfold pretty_N_char. by repeat case_match.
Qed.

Lemma pretty_nat_dash (n : nat) : occurs "-"%char (pretty n) = false.
Proof.
  unfold pretty, pretty_nat, pretty, pretty_N.
  case_decide; [done|]. by rewrite pretty_N_go_dash.
Qed.

Lemma split_at_dash (s1 s2 t1 t2 : string) :
  occurs "-"%char s1 = false → occurs "-"%char s2 = false →
  s1 +:+ "-" +:+ t1 = s2 +:+ "-" +:+ t2 → s1 = s2 ∧ t1 = t2.
Proof.
  revert s2. induction s1 as [|a s1 IH]; intros [|b s2] H1 H2 Heq;
    simplify_eq/=; [done|].
  apply orb_false_elim in H1 as [_ H1]. apply orb_false_elim in H2 as [_ H2].
  destruct (IH s2 H1 H2) as [-> ->]; done.
Qed.

Lemma cellKey_inj (r c r' c' : nat) :
  cellKey r c = cellKey r' c' → r = r' ∧ c = c'.
Proof.
  unfold cellKey. intros H.
  apply split_at_dash in H as [Hr Hc]; try apply pretty_nat_dash.
  split; by apply (inj pretty).
Qed.

(** ** The two passes of createCellNumbering *)

Lemma numberAcross_insert m clue :
  numberAcross m clue = <[startKey clue := number clue]> m.
Proof. unfold numberAcross, startKey. by destruct (start clue). Qed.

Lemma numberDown_insert m clue :
  numberDown m clue =
  if truthyNumber (m !! startKey clue) then m
  else <[startKey clue := number clue]> m.
Proof.
  unfold numberDown, startKey. destruct (start clue); simpl.
  by destruct (truthyNumber _).
Qed.

Lemma startKey_eq clue r c : startKey clue = cellKey r c ↔ start clue = (r, c).
Proof.
  unfold startKey. destruct (start clue) as [r' c']; simpl. split.
  - intros [-> ->]%cellKey_inj. done.
  - by intros [= -> ->].
Qed.

Lemma across_lookup (A : list Clue) (m : gmap string Z) (k : string) :
  (foldl numberAcross m A !! k = m !! k ∧ ∀ a, a ∈ A → startKey a ≠ k)
  ∨ ∃ a, a ∈ A ∧ startKey a = k ∧
         foldl numberAcross m A !! k = Some (number a).
Proof.
  induction A as [|x A IH] using rev_ind.
  - left. split; [done|]. by intros a ?%elem_of_nil.
  - rewrite foldl_snoc, numberAcross_insert.
    destruct (decide (startKey x = k)) as [<-|Hne].
    + right. exists x. rewrite lookup_insert_eq.
      split_and!; [|done..]. apply elem_of_app; right. by apply elem_of_cons; left.
    + rewrite lookup_insert_ne by done.
      destruct IH as [[Heq Hno]|(a & Ha & Hk & Hv)].
      * left. split; [done|]. intros a [?|Hx]%elem_of_app; [auto|].
        apply list_elem_of_singleton in Hx. by subst.
      * right. exists a. split_and!; [|done..]. apply elem_of_app; by left.
Qed.

Lemma across_lookup_unique (A : list Clue) (m : gmap string Z) (a : Clue) :
  (∀ a1 a2, a1 ∈ A → a2 ∈ A → start a1 = start a2 → number a1 = number a2) →
  a ∈ A →
  foldl numberAcross m A !! startKey a = Some (number a).
Proof.
  intros Huniq Ha.
  destruct (across_lookup A m (startKey a)) as [[_ Hno]|(a' & Ha' & Hk & Hv)].
  - by destruct (Hno a Ha).
  - rewrite Hv. f_equal. apply Huniq; [done..|].
    unfold startKey in Hk. destruct (start a'), (start a); simpl in *.
    by apply cellKey_inj in Hk as [-> ->].
Qed.

Lemma down_keeps (D : list Clue) (m : gmap string Z) (k : string) :
  truthyNumber (m !! k) = true → foldl numberDown m D !! k = m !! k.
Proof.
  revert m. induction D as [|d D IH]; intros m Hk; simpl; [done|].
  rewrite numberDown_insert.
  destruct (truthyNumber (m !! startKey d)) eqn:Hd; [by apply IH|].
  assert (startKey d ≠ k) as Hne by (intros Heq; rewrite Heq in Hd; congruence).
  rewrite IH; rewrite lookup_insert_ne by done; done.
Qed.

Lemma down_lookup (D : list Clue) (m : gmap string Z) (k : string) :
  (foldl numberDown m D !! k = m !! k)
  ∨ ∃ d, d ∈ D ∧ startKey d = k ∧
         foldl numberDown m D !! k = Some (number d).
Proof.
  revert m. induction D as [|d D IH]; intros m; simpl; [by left|].
  rewrite numberDown_insert.
  destruct (truthyNumber (m !! startKey d)) eqn:Hd.
  - destruct (IH m) as [Heq|(d' & Hd' & Hk & Hv)]; [by left|].
    right. exists d'. split_and!; [|done..]. by apply elem_of_cons; right.
  - destruct (IH (<[startKey d := number d]> m)) as [Heq|(d' & Hd' & Hk & Hv)].
    + destruct (decide (startKey d = k)) as [<-|Hne].
      * right. exists d. rewrite Heq, lookup_insert_eq.
        split_and!; [|done..]. by apply elem_of_cons; left.
      * left. by rewrite Heq, lookup_insert_ne.
    + right. exists d'. split_and!; [|done..]. by apply elem_of_cons; right.
Qed.

Lemma down_numbers (D : list Clue) (m : gmap string Z) (d : Clue) :
  (∀ d', d' ∈ D → number d' ≠ 0%Z) → d ∈ D →
  truthyNumber (foldl numberDown m D !! startKey d) = true.
Proof.
  revert m. induction D as [|x D IH]; intros m Hnz Hd; simpl.
  - by apply elem_of_nil in Hd.
  - apply elem_of_cons in Hd as [->|Hd].
    + assert (truthyNumber (numberDown m x !! startKey x) = true) as Hx.
      { rewrite numberDown_insert.
        destruct (truthyNumber (m !! startKey x)) eqn:Hm; [done|].
        rewrite lookup_insert_eq. simpl.
        apply negb_true_iff, Z.eqb_neq, Hnz. by apply elem_of_cons; left. }
      by rewrite down_keeps.
    + apply IH; [|done]. intros d' ?. apply Hnz. by apply elem_of_cons; right.
Qed.

Lemma createCellNumbering_map (s : Client) :
  cellNumbering (createCellNumbering s) =
  foldl numberDown (foldl numberAcross ∅ (acrossClues s)) (downClues s).
Proof. reflexivity. Qed.

Lemma createCellNumbering_frame (s : Client) :
  createCellNumbering s =
  set_cellNumbering (cellNumbering (createCellNumbering s)) s.
Proof. reflexivity. Qed.

Lemma numbering_entry (A D : list Clue) (row col : nat) (n : Z) :
  foldl numberDown (foldl numberAcross ∅ A) D !! cellKey row col = Some n →
  ∃ clue, clue ∈ A ++ D ∧ start clue = (row, col) ∧ number clue = n.
Proof.
  intros Hn.
  destruct (down_lookup D (foldl numberAcross ∅ A) (cellKey row col))
    as [Heq|(d & Hd & Hk & Hv)].
  - rewrite Heq in Hn.
    destruct (across_lookup A ∅ (cellKey row col))
      as [[Hv _]|(a & Ha & Hk & Hv)].
    + by rewrite Hv, lookup_empty in Hn.
    + exists a. split_and!; [apply elem_of_app; by left|by apply startKey_eq|].
      congruence.
  - exists d. split_and!; [apply elem_of_app; by right|by apply startKey_eq|].
    congruence.
Qed.

(** C2: when no clue is numbered 0 and an across start carries one number,
    the map built by [createCellNumbering] has a number to show at a cell
    exactly when some across or down clue starts there; a number in the map
    is the number of a clue that starts at that cell; and a cell that starts
    an across and a down clue keeps the number written by the across pass. *)
Theorem createCellNumbering_numbers_clue_starts (s : Client) :
  (∀ clue, clue ∈ acrossClues s ++ downClues s → number clue ≠ 0%Z) →
  (∀ a1 a2, a1 ∈ acrossClues s → a2 ∈ acrossClues s →
            start a1 = start a2 → number a1 = number a2) →
  let m := cellNumbering (createCellNumbering s) in
  (∀ row col,
     hasVisibleNumber m row col ↔
     ∃ clue, clue ∈ acrossClues s ++ downClues s ∧ start clue = (row, col))
  ∧ (∀ row col n,
       m !! cellKey row col = Some n →
       ∃ clue, clue ∈ acrossClues s ++ downClues s
               ∧ start clue = (row, col) ∧ number clue = n)
  ∧ (∀ a d, a ∈ acrossClues s → d ∈ downClues s → start a = start d →
            m !! startKey d = Some (number a)
            ∧ m !! startKey d =
              foldl numberAcross ∅ (acrossClues s) !! startKey d).
Proof.
  intros Hnz Huniq m. subst m. rewrite createCellNumbering_map.
  set (mA := foldl numberAcross ∅ (acrossClues s)).
  assert (∀ a, a ∈ acrossClues s → truthyNumber (mA !! startKey a) = true)
    as HmA.
  { intros a Ha.
    destruct (across_lookup (acrossClues s) ∅ (startKey a))
      as [[_ Hno]|(a' & Ha' & _ & Hv)]; [by destruct (Hno a Ha)|].
    fold mA in Hv. rewrite Hv. simpl.
    apply negb_true_iff, Z.eqb_neq, Hnz, elem_of_app. by left. }
  split_and!.
  - intros row col. unfold hasVisibleNumber. split.
    + intros Hvis.
      destruct (down_lookup (downClues s) mA (cellKey row col))
        as [Heq|(d & Hd & Hk & _)].
      * rewrite Heq in Hvis.
        destruct (across_lookup (acrossClues s) ∅ (cellKey row col))
          as [[Hv _]|(a & Ha & Hk & _)].
        -- fold mA in Hv. by rewrite Hv, lookup_empty in Hvis.
        -- exists a. split; [apply elem_of_app; by left|by apply startKey_eq].
      * exists d. split; [apply elem_of_app; by right|by apply startKey_eq].
    + intros (clue & [Ha|Hd]%elem_of_app & Hstart%startKey_eq); subst.
      * rewrite <- Hstart. rewrite down_keeps; by apply HmA.
      * rewrite <- Hstart. apply down_numbers; [|done].
        intros d' ?. apply Hnz, elem_of_app. by right.
  - intros row col n Hn. by apply numbering_entry.
  - intros a d Ha Hd Hstart.
    assert (startKey d = startKey a) as -> by (unfold startKey; by rewrite Hstart).
    rewrite down_keeps by by apply HmA.
    split; [|done]. by apply across_lookup_unique.
Qed.

(** A run on the sample puzzle: both hypotheses hold and the statement is
    read off at the sample client. *)
Lemma createCellNumbering_numbers_clue_starts_sample :
  let m := cellNumbering (createCellNumbering sampleClient) in
  (∀ row col,
     hasVisibleNumber m row col ↔
     ∃ clue, clue ∈ sampleAcross ++ sampleDown ∧ start clue = (row, col))
  ∧ (∀ row col n,
       m !! cellKey row col = Some n →
       ∃ clue, clue ∈ sampleAcross ++ sampleDown
               ∧ start clue = (row, col) ∧ number clue = n)
  ∧ (∀ a d, a ∈ sampleAcross → d ∈ sampleDown → start a = start d →
            m !! startKey d = Some (number a)
            ∧ m !! startKey d = foldl numberAcross ∅ sampleAcross !! startKey d).
Proof.
  apply (createCellNumbering_numbers_clue_starts sampleClient).
  - intros clue Hin. simpl in Hin.
    repeat (apply elem_of_cons in Hin as [->|Hin]); simpl; try lia.
    by apply elem_of_nil in Hin.
  - intros a1 a2 H1 H2. simpl in H1, H2.
    repeat (apply elem_of_cons in H1 as [->|H1]);
      repeat (apply elem_of_cons in H2 as [->|H2]);
      simpl; try done; try (by apply elem_of_nil in H1);
      by apply elem_of_nil in H2.
Defined.

Example createCellNumbering_sample :
  cellNumbering (createCellNumbering sampleClient)
  = {[ "0-0" := 1%Z; "0-2" := 2%Z; "2-0" := 3%Z ]}.
Proof. vm_compute. reflexivity. Qed.

(** Why the numbers must not be 0: a start numbered 0 is in the map but
    fails the test of line 101, and a down clue at the same cell overwrites
    it (line 75). *)
Example zero_numbered_start :
  let s0 := set_acrossClues [mkClue 0 (1, 1) 2 "Nothing" None None] initialClient in
  let s1 := set_downClues [mkClue 4 (1, 1) 2 "Four" None None] s0 in
  cellNumbering (createCellNumbering s0) !! cellKey 1 1 = Some 0%Z
  ∧ ¬ hasVisibleNumber (cellNumbering (createCellNumbering s0)) 1 1
  ∧ cellNumbering (createCellNumbering s1) !! cellKey 1 1 = Some 4%Z.
Proof. vm_compute. split_and!; [done|discriminate|done]. Qed.

(** C10: [createCellNumbering] reads the two clue lists and nothing else:
    two clients with equal clue lists get equal numbering maps, whatever the
    rest of their state (the previous map included) holds, and the call
    writes no other field. *)
Theorem createCellNumbering_deterministic (s1 s2 : Client) :
  acrossClues s1 = acrossClues s2 →
  downClues s1 = downClues s2 →
  cellNumbering (createCellNumbering s1) = cellNumbering (createCellNumbering s2)
  ∧ createCellNumbering s1 =
    set_cellNumbering (cellNumbering (createCellNumbering s2)) s1.
Proof.
  intros HA HD. rewrite (createCellNumbering_frame s1).
  rewrite !createCellNumbering_map, HA, HD. done.
Qed.

Lemma createCellNumbering_deterministic_sample :
  let s1 := sampleClient in
  let s2 := set_statusText "Paused."
              (set_cellNumbering {[ "9-9" := 7%Z ]} sampleClient) in
  cellNumbering (createCellNumbering s1) = cellNumbering (createCellNumbering s2)
  ∧ createCellNumbering s1 =
    set_cellNumbering (cellNumbering (createCellNumbering s2)) s1.
Proof.
  apply createCellNumbering_deterministic; reflexivity.
Defined.

(** ** initializePuzzle *)

Lemma startKey_forget clue : startKey (Snapshot3.forget clue) = startKey clue.
Proof. reflexivity. Qed.

Lemma returned_Some {A} (o : Outcome A) (a : A) :
  returned o = Some a → o = Returned a (finalState o).
Proof. destruct o; simpl; congruence. Qed.

Lemma initializePuzzle_ok (data : InitData) (s : Client) :
  let s' := finalState (Snapshot3.initializePuzzle (Ok data) s) in
  returned (Snapshot3.initializePuzzle (Ok data) s) = Some tt
  ∧ gridData s' = Some (init_grid data)
  ∧ acrossClues s' = Snapshot3.forget <$> across_clues data
  ∧ downClues s' = Snapshot3.forget <$> down_clues data
  ∧ cellNumbering s' =
    foldl numberDown
      (foldl numberAcross ∅ (Snapshot3.forget <$> across_clues data))
      (Snapshot3.forget <$> down_clues data)
  ∧ crosswordGrid s' =
    renderRows
      (foldl numberDown
         (foldl numberAcross ∅ (Snapshot3.forget <$> across_clues data))
         (Snapshot3.forget <$> down_clues data))
      (init_grid data).
Proof. intros s'. subst s'. split_and!; reflexivity. Qed.

(** C4: a successful [initializePuzzle] returns, and the grid, the clue
    lists, the numbering map and the rendered grid it leaves are the same
    whatever the client held before.  They are those of the response: the
    grid is the response's grid; the clue lists are the response's lists,
    clue by clue, with [assigned] and [confidence] deleted; the map is the
    one the two passes of [createCellNumbering] build from these lists
    starting from the empty map; the grid element shows the response's grid
    numbered by that map.  So the new map has no key besides the starts of
    the clues in the response, and no clue of the new lists has an
    [assigned] or [confidence] value. *)
Theorem initializePuzzle_rebuilds_from_response (data : InitData) :
  (∀ s1 s2,
     let s1' := finalState (Snapshot3.initializePuzzle (Ok data) s1) in
     let s2' := finalState (Snapshot3.initializePuzzle (Ok data) s2) in
     Snapshot3.initializePuzzle (Ok data) s1 = Returned tt s1'
     ∧ Snapshot3.initializePuzzle (Ok data) s2 = Returned tt s2'
     ∧ gridData s1' = gridData s2'
     ∧ acrossClues s1' = acrossClues s2'
     ∧ downClues s1' = downClues s2'
     ∧ cellNumbering s1' = cellNumbering s2'
     ∧ crosswordGrid s1' = crosswordGrid s2')
  ∧ (∀ s, let s' := finalState (Snapshot3.initializePuzzle (Ok data) s) in
       gridData s' = Some (init_grid data)
       ∧ acrossClues s' = Snapshot3.forget <$> across_clues data
       ∧ downClues s' = Snapshot3.forget <$> down_clues data
       ∧ cellNumbering s'
         = foldl numberDown (foldl numberAcross ∅ (acrossClues s'))
             (downClues s')
       ∧ crosswordGrid s' = renderRows (cellNumbering s') (init_grid data)
       ∧ (∀ k, is_Some (cellNumbering s' !! k) →
               ∃ clue, clue ∈ across_clues data ++ down_clues data
                       ∧ startKey clue = k)
       ∧ (∀ clue, clue ∈ acrossClues s' ++ downClues s' →
                  assigned clue = None ∧ confidence clue = None)).
Proof.
  split.
  - intros s1 s2 s1' s2'.
    destruct (initializePuzzle_ok data s1) as (E1 & G1 & A1 & D1 & N1 & R1).
    destruct (initializePuzzle_ok data s2) as (E2 & G2 & A2 & D2 & N2 & R2).
    fold s1' in G1, A1, D1, N1, R1. fold s2' in G2, A2, D2, N2, R2.
    split_and!;
      [exact (returned_Some _ _ E1)|exact (returned_Some _ _ E2)|congruence..].
  - intros s s'.
    destruct (initializePuzzle_ok data s) as (E & G & A & D & N & R).
    fold s' in G, A, D, N, R.
    split_and!; [exact G|exact A|exact D|by rewrite A, D|by rewrite N| |].
    + intros k [n Hn]. rewrite N in Hn.
      destruct (down_lookup (Snapshot3.forget <$> down_clues data)
                  (foldl numberAcross ∅ (Snapshot3.forget <$> across_clues data)) k)
        as [Heq|(d & Hd & Hk & _)].
      * rewrite Heq in Hn.
        destruct (across_lookup (Snapshot3.forget <$> across_clues data) ∅ k)
          as [[Hv _]|(a & Ha & Hk & _)].
        -- by rewrite Hv, lookup_empty in Hn.
        -- apply list_elem_of_fmap in Ha as (a0 & -> & Ha0).
           exists a0. split; [apply elem_of_app; by left|done].
      * apply list_elem_of_fmap in Hd as (d0 & -> & Hd0).
        exists d0. split; [apply elem_of_app; by right|done].
    + intros clue. rewrite A, D.
      intros [H|H]%elem_of_app; apply list_elem_of_fmap in H as (c0 & -> & _);
        done.
Qed.

Example initializePuzzle_sample :
  let s' := finalState (Snapshot3.initializePuzzle (Ok sampleInit) staleClient) in
  gridData s' = Some sampleGrid
  ∧ acrossClues s' = sampleAcross
  ∧ downClues s' = sampleDown
  ∧ cellNumbering s' = {[ "0-0" := 1%Z; "0-2" := 2%Z; "2-0" := 3%Z ]}
  ∧ pauseRequested s' = true
  ∧ solveStepBtn_disabled s' = false
  ∧ solveAllBtn_disabled s' = false
  ∧ pauseBtn_disabled s' = true.
Proof. cbv zeta. split_and!; vm_compute; reflexivity. Qed.

(** ** updateCluesWithAssignments *)

Lemma updateFound_fmap (n : Z) (f : Clue → Clue) (l : list Clue) :
  NoDup (number <$> l) →
  updateFound n f l = (λ c, if (number c =? n)%Z then f c else c) <$> l.
Proof.
  induction l as [|x l IH]; intros Hnd; simpl; [done|].
  rewrite fmap_cons in Hnd. apply NoDup_cons in Hnd as [Hx Hnd].
  destruct (number x =? n)%Z eqn:Hxn.
  - f_equal. rewrite <- (list_fmap_id l) at 1. apply list_fmap_ext.
    intros i c Hc. simpl.
    destruct (number c =? n)%Z eqn:Hcn; [|done].
    apply Z.eqb_eq in Hxn, Hcn. destruct Hx.
    apply list_elem_of_fmap. exists c.
    split; [congruence|by eapply list_elem_of_lookup_2].
  - f_equal. by apply IH.
Qed.

Lemma filter_addressedTo_singleton dir n a :
  filter (addressedTo dir n) [a] = if addressedTo dir n a then [a] else [].
Proof.
  rewrite (filter_singleton _ _ []).
  destruct (addressedTo dir n a); case_decide; done.
Qed.

Section Assignments.
Variable assign : Assignment → Clue → Clue.
Hypothesis assign_number : ∀ a c, number (assign a c) = number c.

Lemma replay_number c l : number (replay assign c l) = number c.
Proof.
  unfold replay. induction l as [|a l IH] using rev_ind; [done|].
  by rewrite foldl_snoc, assign_number.
Qed.

Lemma replay_snoc c l a : replay assign c (l ++ [a]) = assign a (replay assign c l).
Proof. unfold replay. by rewrite foldl_snoc. Qed.

Lemma foldl_applyAssignmentWith (s : Client) (l : list Assignment) :
  NoDup (number <$> acrossClues s) →
  NoDup (number <$> downClues s) →
  wellDirected l →
  let s' := foldl (applyAssignmentWith assign) s l in
  s' = set_downClues (downClues s') (set_acrossClues (acrossClues s') s)
  ∧ acrossClues s' =
    (λ c, replay assign c (filter (addressedTo "A" (number c)) l))
      <$> acrossClues s
  ∧ downClues s' =
    (λ c, replay assign c (filter (addressedTo "D" (number c)) l))
      <$> downClues s.
Proof.
  intros HA HD. induction l as [|a l IH] using rev_ind; intros Hdir s'.
  - subst s'. simpl. split_and!.
    + by destruct s.
    + rewrite <- (list_fmap_id (acrossClues s)) at 1. by apply list_fmap_ext.
    + rewrite <- (list_fmap_id (downClues s)) at 1. by apply list_fmap_ext.
  - unfold wellDirected in Hdir.
    destruct (proj1 (Forall_app _ _ _) Hdir) as [Hl Ha].
    rewrite Forall_singleton in Ha.
    destruct (IH Hl) as (Hframe & HAl & HDl). clear IH.
    subst s'. rewrite foldl_snoc.
    set (s0 := foldl (applyAssignmentWith assign) s l) in *.
    unfold applyAssignmentWith.
    assert (∀ n, addressedTo "A" n a
                 = (a_direction a =? "A")%string && (n =? a_number a)%Z) as EA.
    { intros n. unfold addressedTo. by rewrite (Z.eqb_sym n). }
    assert (∀ n, addressedTo "D" n a
                 = (a_direction a =? "D")%string && (n =? a_number a)%Z) as ED.
    { intros n. unfold addressedTo. by rewrite (Z.eqb_sym n). }
    destruct Ha as [Ha|Ha]; rewrite Ha in *; simpl in EA, ED; simpl.
    + split_and!.
      * rewrite Hframe at 2. done.
      * rewrite updateFound_fmap.
        2:{ rewrite HAl, <- list_fmap_compose.
            erewrite list_fmap_ext; [exact HA|].
            intros i c _. simpl. apply replay_number. }
        rewrite HAl, <- list_fmap_compose. apply list_fmap_ext.
        intros i c _. simpl.
        rewrite replay_number, filter_app, filter_addressedTo_singleton, EA.
        destruct (number c =? a_number a)%Z; simpl.
        -- by rewrite replay_snoc.
        -- by rewrite app_nil_r.
      * rewrite HDl. apply list_fmap_ext. intros i c _. simpl.
        rewrite filter_app, filter_addressedTo_singleton, ED.
        by rewrite app_nil_r.
    + split_and!.
      * rewrite Hframe at 2. done.
      * rewrite HAl. apply list_fmap_ext. intros i c _. simpl.
        rewrite filter_app, filter_addressedTo_singleton, EA.
        by rewrite app_nil_r.
      * rewrite updateFound_fmap.
        2:{ rewrite HDl, <- list_fmap_compose.
            erewrite list_fmap_ext; [exact HD|].
            intros i c _. simpl. apply replay_number. }
        rewrite HDl, <- list_fmap_compose. apply list_fmap_ext.
        intros i c _. simpl.
        rewrite replay_number, filter_app, filter_addressedTo_singleton, ED.
        destruct (number c =? a_number a)%Z; simpl.
        -- by rewrite replay_snoc.
        -- by rewrite app_nil_r.
Qed.
End Assignments.

Lemma applyAssignment1_with :
  Snapshot1.applyAssignment = applyAssignmentWith Snapshot1.assign.
Proof. reflexivity. Qed.

Lemma applyAssignment3_with :
  Snapshot3.applyAssignment = applyAssignmentWith Snapshot3.assign.
Proof. reflexivity. Qed.

Lemma replay1_updatedAs (dir : string) (l : list Assignment) (c : Clue) :
  updatedAs false dir l c
    (replay Snapshot1.assign c (filter (addressedTo dir (number c)) l)).
Proof.
  unfold updatedAs, lastAddressed.
  generalize (filter (addressedTo dir (number c)) l). intros fl.
  assert (∀ k, number (replay Snapshot1.assign c k) = number c
             ∧ start (replay Snapshot1.assign c k) = start c
             ∧ clue_length (replay Snapshot1.assign c k) = clue_length c
             ∧ text (replay Snapshot1.assign c k) = text c
             ∧ confidence (replay Snapshot1.assign c k) = confidence c) as Hkeep.
  { induction k as [|a k IH] using rev_ind; [done|].
    rewrite replay_snoc. simpl. apply IH. }
  destruct fl as [|a fl _] using rev_ind; [done|].
  rewrite last_snoc, replay_snoc. simpl.
  destruct (Hkeep fl) as (? & ? & ? & ? & ?). done.
Qed.

Lemma replay3_updatedAs (dir : string) (l : list Assignment) (c : Clue) :
  updatedAs true dir l c
    (replay Snapshot3.assign c (filter (addressedTo dir (number c)) l)).
Proof.
  unfold updatedAs, lastAddressed.
  generalize (filter (addressedTo dir (number c)) l). intros fl.
  assert (∀ k, number (replay Snapshot3.assign c k) = number c
             ∧ start (replay Snapshot3.assign c k) = start c
             ∧ clue_length (replay Snapshot3.assign c k) = clue_length c
             ∧ text (replay Snapshot3.assign c k) = text c) as Hkeep.
  { induction k as [|a k IH] using rev_ind; [done|].
    rewrite replay_snoc. simpl. apply IH. }
  destruct fl as [|a fl _] using rev_ind; [done|].
  rewrite last_snoc, replay_snoc. simpl.
  destruct (Hkeep fl) as (? & ? & ? & ?). done.
Qed.

Lemma Forall2_fmap_diag {A} (P : A → A → Prop) (f : A → A) (l : list A) :
  (∀ x, P x (f x)) → Forall2 P l (f <$> l).
Proof. intros HP. induction l; simpl; constructor; auto. Qed.

(** C3: on clue lists whose numbers are unique within each direction and a
    payload whose entries name direction A or D, [updateCluesWithAssignments]
    returns normally and changes nothing but the two clue lists; each list
    keeps its length and order; a clue that no entry addresses by (number,
    direction) is unchanged, which covers entries that address no clue; an
    addressed clue keeps number, start, length and text and takes [assigned]
    from the last entry addressed to it.  The third snapshot copies that
    entry's [confidence] too; the first leaves the clue's own in place. *)
Theorem updateCluesWithAssignments_touches_matched_clues
    (payload : option (list Assignment)) (s : Client) :
  NoDup (number <$> acrossClues s) →
  NoDup (number <$> downClues s) →
  wellDirected (default [] payload) →
  let entries := default [] payload in
  let s3 := Snapshot3.updateCluesWithAssignments payload s in
  let s1 := Snapshot1.updateCluesWithAssignments payload s in
  (s3 = set_downClues (downClues s3) (set_acrossClues (acrossClues s3) s)
   ∧ Forall2 (updatedAs true "A" entries) (acrossClues s) (acrossClues s3)
   ∧ Forall2 (updatedAs true "D" entries) (downClues s) (downClues s3))
  ∧ (s1 = set_downClues (downClues s1) (set_acrossClues (acrossClues s1) s)
     ∧ Forall2 (updatedAs false "A" entries) (acrossClues s) (acrossClues s1)
     ∧ Forall2 (updatedAs false "D" entries) (downClues s) (downClues s1)).
Proof.
  intros HA HD Hdir entries s3 s1.
  assert (s3 = foldl (applyAssignmentWith Snapshot3.assign) s entries) as E3.
  { subst s3 entries. by destruct payload. }
  assert (s1 = foldl (applyAssignmentWith Snapshot1.assign) s entries) as E1.
  { subst s1 entries. by destruct payload. }
  split.
  - destruct (foldl_applyAssignmentWith Snapshot3.assign (λ _ _, eq_refl)
                s entries HA HD Hdir) as (Hf & HAl & HDl).
    rewrite <- E3 in Hf, HAl, HDl. split_and!; [done|..].
    + rewrite HAl. apply Forall2_fmap_diag. intros c. apply replay3_updatedAs.
    + rewrite HDl. apply Forall2_fmap_diag. intros c. apply replay3_updatedAs.
  - destruct (foldl_applyAssignmentWith Snapshot1.assign (λ _ _, eq_refl)
                s entries HA HD Hdir) as (Hf & HAl & HDl).
    rewrite <- E1 in Hf, HAl, HDl. split_and!; [done|..].
    + rewrite HAl. apply Forall2_fmap_diag. intros c. apply replay1_updatedAs.
    + rewrite HDl. apply Forall2_fmap_diag. intros c. apply replay1_updatedAs.
Qed.

Lemma updateCluesWithAssignments_touches_matched_clues_sample :
  let s := sampleClient in
  let s3 := Snapshot3.updateCluesWithAssignments (Some samplePayload) s in
  let s1 := Snapshot1.updateCluesWithAssignments (Some samplePayload) s in
  (s3 = set_downClues (downClues s3) (set_acrossClues (acrossClues s3) s)
   ∧ Forall2 (updatedAs true "A" samplePayload) (acrossClues s) (acrossClues s3)
   ∧ Forall2 (updatedAs true "D" samplePayload) (downClues s) (downClues s3))
  ∧ (s1 = set_downClues (downClues s1) (set_acrossClues (acrossClues s1) s)
     ∧ Forall2 (updatedAs false "A" samplePayload) (acrossClues s) (acrossClues s1)
     ∧ Forall2 (updatedAs false "D" samplePayload) (downClues s) (downClues s1)).
Proof.
  apply (updateCluesWithAssignments_touches_matched_clues
           (Some samplePayload) sampleClient).
  - apply (bool_decide_unpack _). vm_compute. exact I.
  - apply (bool_decide_unpack _). vm_compute. exact I.
  - unfold wellDirected, samplePayload. simpl.
    repeat (apply Forall_cons_2; [simpl; auto|]). apply Forall_nil_2.
Defined.

Example updateCluesWithAssignments_sample_across :
  acrossClues (Snapshot3.updateCluesWithAssignments (Some samplePayload) sampleClient)
  = [ mkClue 1 (0, 0) 3 "Pet that purrs" (Some "CAT") (Some (9 # 10)%Q);
      mkClue 3 (2, 0) 3 "Jog quickly" None None ].
Proof. reflexivity. Qed.

Example updateCluesWithAssignments_sample_down :
  downClues (Snapshot3.updateCluesWithAssignments (Some samplePayload) sampleClient)
  = [ mkClue 1 (0, 0) 3 "Automobile" None None;
      mkClue 2 (0, 2) 3 "Heavy weight" (Some "TON") (Some (1 # 2)%Q) ].
Proof. reflexivity. Qed.

(** Why the numbers must be unique within a list and the directions A or D:
    [find] stops at the first clue with the number, and every direction
    other than A is taken for down. *)
Example updateCluesWithAssignments_first_match_only :
  let twins := [ mkClue 1 (0, 0) 3 "First" None None;
                 mkClue 1 (2, 0) 3 "Second" None None ] in
  let s := set_downClues sampleDown (set_acrossClues twins initialClient) in
  let s' := Snapshot3.updateCluesWithAssignments
              (Some [ mkAssignment 1 "A" (Some "CAT") None;
                      mkAssignment 2 "across" (Some "TON") None ]) s in
  assigned <$> acrossClues s' = [Some "CAT"; None]
  ∧ assigned <$> downClues s' = [None; Some "TON"].
Proof. vm_compute. done. Qed.

(** ** renderGrid *)

Lemma renderCell_black m r c cell :
  is_black cell = true →
  renderCell m r c cell = mkCellElement ["cell"; "black"] [].
Proof. intros H. unfold renderCell. by rewrite H. Qed.

Lemma renderCell_text m r c cell t :
  TextNode t ∈ children (renderCell m r c cell) ↔
  is_black cell = false ∧ holdsLetter cell t.
Proof.
  unfold renderCell, holdsLetter.
  destruct (is_black cell); simpl.
  { split; [by intros ?%elem_of_nil|by intros [? _]]. }
  assert (∀ el, (∀ u, TextNode u ∉ children el) →
    TextNode t ∈ children
      (if truthyString (char cell) && negb (bool_decide (char cell = Some "*"))
       then match char cell with
            | Some c0 => addClass "filled" (setTextContent c0 el)
            | None => el
            end
       else el) ↔ false = false ∧ char cell = Some t ∧ t ≠ "" ∧ t ≠ "*") as Hgo.
  { intros el Hel. destruct (char cell) as [u|]; simpl.
    - destruct (String.eqb_spec u ""); simpl.
      + split; [by intros ?%Hel|]. intros (_ & [= ->] & ? & _). done.
      + case_bool_decide as Hstar; simpl.
        * split; [by intros ?%Hel|]. intros (_ & [= ->] & _ & ?). congruence.
        * split.
          -- intros Ht. apply list_elem_of_singleton in Ht.
             injection Ht as ->. split_and!; [done..|]. intros ->. done.
          -- intros (_ & [= ->] & _ & _). by apply list_elem_of_singleton.
    - split; [by intros ?%Hel|]. by intros (_ & ? & _). }
  destruct (truthyNumber (m !! cellKey r c)); [destruct (m !! cellKey r c)|];
    apply Hgo; simpl; intros u Hu.
  - apply list_elem_of_singleton in Hu. done.
  - by apply elem_of_nil in Hu.
  - by apply elem_of_nil in Hu.
Qed.

(** The number of a cell is drawn only while the cell shows no letter:
    line 110 assigns [textContent], which removes the number span appended
    at line 105. *)
Lemma renderCell_number m r c cell n :
  NumberSpan n ∈ children (renderCell m r c cell) ↔
  is_black cell = false ∧ m !! cellKey r c = Some n ∧ n ≠ 0%Z
  ∧ ¬ ∃ t, holdsLetter cell t.
Proof.
  unfold renderCell, holdsLetter.
  destruct (is_black cell); simpl.
  { split; [by intros ?%elem_of_nil|by intros [? _]]. }
  assert (NumberSpan n
          ∈ children
              (if truthyNumber (m !! cellKey r c)
               then
                match m !! cellKey r c with
                | Some n0 =>
                    appendChild (NumberSpan n0) (addClass "cell" newCellElement)
                | None => addClass "cell" newCellElement
                end
               else addClass "cell" newCellElement)
          ↔ m !! cellKey r c = Some n ∧ n ≠ 0%Z) as Hnum.
  { destruct (m !! cellKey r c) as [n0|]; simpl.
    - destruct (Z.eqb_spec n0 0); simpl.
      + split; [by intros ?%elem_of_nil|]. intros [[= ->] ?]. done.
      + split.
        * intros Hn. apply list_elem_of_singleton in Hn.
          injection Hn as ->. done.
        * intros [[= ->] _]. by apply list_elem_of_singleton.
    - split; [by intros ?%elem_of_nil|]. by intros [? _]. }
  destruct (char cell) as [u|]; simpl.
  - destruct (String.eqb_spec u ""); simpl.
    + rewrite Hnum. split; [|tauto].
      intros [? ?]. split_and!; [done..|]. intros (t & [= <-] & ? & _). done.
    + case_bool_decide as Hstar; simpl.
      * rewrite Hnum. split; [|tauto].
        intros [? ?]. split_and!; [done..|].
        intros (t & [= <-] & _ & ?). congruence.
      * split.
        -- intros Hn. apply list_elem_of_singleton in Hn. done.
        -- intros (_ & _ & _ & Hno). destruct Hno. exists u.
           split_and!; [done..|]. intros ->. done.
  - rewrite Hnum. split; [|tauto].
    intros [? ?]. split_and!; [done..|]. by intros (t & ? & _).
Qed.

(** On a white cell that shows no letter, the test of line 101 decides
    whether a number is drawn. *)
Lemma hasVisibleNumber_rendered m r c cell :
  is_black cell = false → (¬ ∃ t, holdsLetter cell t) →
  (∃ n, NumberSpan n ∈ children (renderCell m r c cell)) ↔
  hasVisibleNumber m r c.
Proof.
  intros Hw Hno. unfold hasVisibleNumber. split.
  - intros [n (_ & Hn & Hnz & _)%renderCell_number]. rewrite Hn. simpl.
    by apply negb_true_iff, Z.eqb_neq.
  - destruct (m !! cellKey r c) as [n|] eqn:Hn; simpl; [|done].
    intros Hnz%negb_true_iff%Z.eqb_neq. exists n.
    apply renderCell_number. by rewrite Hn.
Qed.

Lemma lookup_rendered {B} (F : nat → nat → Cell → B) (g : Grid)
    (r c : nat) (row : list Cell) (cell : Cell) :
  g !! r = Some row → row !! c = Some cell →
  concat (imap (λ i, imap (F i)) g) !! cellIndex g r c = Some (F r c cell).
Proof.
  unfold cellIndex. revert F r.
  induction g as [|row0 g IH]; intros F [|r] Hr Hc; simplify_eq/=.
  - rewrite lookup_app_l by (rewrite length_imap; by eapply lookup_lt_Some).
    by rewrite list_lookup_imap, Hc.
  - rewrite length_app, <- Nat.add_assoc.
    rewrite lookup_app_r by (rewrite length_imap; lia).
    rewrite length_imap.
    replace (length row0 + (length (concat (take r g)) + c) - length row0)
      with (length (concat (take r g)) + c) by lia.
    by apply (IH (F ∘ S)).
Qed.

Lemma renderGrid_rows (s : Client) (g : Grid) :
  gridData s = Some g →
  returned (renderGrid s) = Some tt
  ∧ crosswordGrid (finalState (renderGrid s)) = renderRows (cellNumbering s) g.
Proof. intros Hg. unfold renderGrid. simpl. rewrite Hg. done. Qed.

(** C8: on a client that holds a grid, [renderGrid] returns, and the element
    it appends for a cell has the text [t] exactly when the cell is white and
    its [char] is the string [t], not empty and not the placeholder; the
    element of a black cell has no child at all, neither number nor letter. *)
Theorem renderGrid_shows_letters (s : Client) (g : Grid) :
  gridData s = Some g →
  returned (renderGrid s) = Some tt
  ∧ ∀ row col cells cell,
      g !! row = Some cells → cells !! col = Some cell →
      ∃ el,
        crosswordGrid (finalState (renderGrid s)) !! cellIndex g row col
          = Some el
        ∧ (∀ t, TextNode t ∈ children el ↔
                is_black cell = false ∧ holdsLetter cell t)
        ∧ (is_black cell = true → children el = []).
Proof.
  intros Hg. destruct (renderGrid_rows s g Hg) as [Hret Hrows].
  split; [exact Hret|].
  intros row col cells cell Hrow Hcol.
  exists (renderCell (cellNumbering s) row col cell). split_and!.
  - rewrite Hrows. unfold renderRows.
    apply (lookup_rendered (renderCell (cellNumbering s)) g row col cells cell);
      assumption.
  - intros t. apply renderCell_text.
  - intros Hb. by rewrite renderCell_black.
Qed.

Lemma renderGrid_shows_letters_sample :
  let s := createCellNumbering (set_gridData (Some sampleFilledGrid) sampleClient) in
  returned (renderGrid s) = Some tt
  ∧ ∀ row col cells cell,
      sampleFilledGrid !! row = Some cells → cells !! col = Some cell →
      ∃ el,
        crosswordGrid (finalState (renderGrid s))
          !! cellIndex sampleFilledGrid row col = Some el
        ∧ (∀ t, TextNode t ∈ children el ↔
                is_black cell = false ∧ holdsLetter cell t)
        ∧ (is_black cell = true → children el = []).
Proof.
  apply (renderGrid_shows_letters
           (createCellNumbering (set_gridData (Some sampleFilledGrid) sampleClient))
           sampleFilledGrid).
  reflexivity.
Defined.

Example renderGrid_sample :
  crosswordGrid
    (finalState
       (renderGrid
          (createCellNumbering
             (set_gridData (Some sampleFilledGrid) sampleClient))))
  = [ mkCellElement ["cell"; "filled"] [TextNode "C"];
      mkCellElement ["cell"; "filled"] [TextNode "A"];
      mkCellElement ["cell"; "filled"] [TextNode "T"];
      mkCellElement ["cell"] [];
      mkCellElement ["cell"; "black"] [];
      mkCellElement ["cell"; "filled"] [TextNode "O"];
      mkCellElement ["cell"] [NumberSpan 3];
      mkCellElement ["cell"] [];
      mkCellElement ["cell"; "filled"] [TextNode "N"] ].
Proof. vm_compute. reflexivity. Qed.

(** ** One step *)

Lemma foldl_applyAssignmentWith_clues assign (l : list Assignment) (s1 s2 : Client) :
  acrossClues s1 = acrossClues s2 → downClues s1 = downClues s2 →
  acrossClues (foldl (applyAssignmentWith assign) s1 l)
  = acrossClues (foldl (applyAssignmentWith assign) s2 l)
  ∧ downClues (foldl (applyAssignmentWith assign) s1 l)
    = downClues (foldl (applyAssignmentWith assign) s2 l).
Proof.
  revert s1 s2. induction l as [|a l IH]; intros s1 s2 HA HD; simpl; [done|].
  apply IH; unfold applyAssignmentWith;
    destruct (String.eqb (a_direction a) "A"); simpl; congruence.
Qed.

Lemma foldl_applyAssignmentWith_frame assign (l : list Assignment) (s : Client) :
  foldl (applyAssignmentWith assign) s l
  = set_downClues (downClues (foldl (applyAssignmentWith assign) s l))
      (set_acrossClues (acrossClues (foldl (applyAssignmentWith assign) s l)) s).
Proof.
  induction l as [|a l IH] using rev_ind; [by destruct s|].
  rewrite foldl_snoc.
  generalize dependent (foldl (applyAssignmentWith assign) s l).
  intros s0 IH. unfold applyAssignmentWith.
  destruct (String.eqb (a_direction a) "A"); destruct s0, s;
    unfold set_downClues, set_acrossClues in *; simpl in *;
    injection IH; intros; subst; reflexivity.
Qed.

Lemma update3_clues (p : option (list Assignment)) (s1 s2 : Client) :
  acrossClues s1 = acrossClues s2 → downClues s1 = downClues s2 →
  acrossClues (Snapshot3.updateCluesWithAssignments p s1)
  = acrossClues (Snapshot3.updateCluesWithAssignments p s2)
  ∧ downClues (Snapshot3.updateCluesWithAssignments p s1)
    = downClues (Snapshot3.updateCluesWithAssignments p s2).
Proof.
  intros HA HD. destruct p as [l|]; simpl; [|done].
  by apply (foldl_applyAssignmentWith_clues Snapshot3.assign).
Qed.

Lemma update3_frame (p : option (list Assignment)) (s : Client) :
  Snapshot3.updateCluesWithAssignments p s
  = set_downClues (downClues (Snapshot3.updateCluesWithAssignments p s))
      (set_acrossClues (acrossClues (Snapshot3.updateCluesWithAssignments p s)) s).
Proof.
  destruct p as [l|]; simpl; [|by destruct s].
  change Snapshot3.applyAssignment with (applyAssignmentWith Snapshot3.assign).
  apply foldl_applyAssignmentWith_frame.
Qed.

Lemma update1_clues (p : option (list Assignment)) (s1 s2 : Client) :
  acrossClues s1 = acrossClues s2 → downClues s1 = downClues s2 →
  acrossClues (Snapshot1.updateCluesWithAssignments p s1)
  = acrossClues (Snapshot1.updateCluesWithAssignments p s2)
  ∧ downClues (Snapshot1.updateCluesWithAssignments p s1)
    = downClues (Snapshot1.updateCluesWithAssignments p s2).
Proof.
  intros HA HD. destruct p as [l|]; simpl; [|done].
  by apply (foldl_applyAssignmentWith_clues Snapshot1.assign).
Qed.

Lemma update1_frame (p : option (list Assignment)) (s : Client) :
  Snapshot1.updateCluesWithAssignments p s
  = set_downClues (downClues (Snapshot1.updateCluesWithAssignments p s))
      (set_acrossClues (acrossClues (Snapshot1.updateCluesWithAssignments p s)) s).
Proof.
  destruct p as [l|]; simpl; [|by destruct s].
  change Snapshot1.applyAssignment with (applyAssignmentWith Snapshot1.assign).
  apply foldl_applyAssignmentWith_frame.
Qed.

Lemma renderGrid_drawn (s : Client) (g : Grid) :
  gridData s = Some g → renderGrid s = Returned tt (drawn g s).
Proof. intros Hg. unfold renderGrid. simpl. rewrite Hg. reflexivity. Qed.

Lemma solveStep3_Ok (data : StepData) (s : Client) :
  Snapshot3.solveStep (Ok data) s = Returned (solved data) (afterStep3 data s).
Proof.
  cbv beta iota delta [Snapshot3.solveStep Snapshot3.runSolveStep tryCatch
                       bind exec fetchJson ret].
  rewrite (renderGrid_drawn _ (step_grid data)).
  - reflexivity.
  - rewrite update3_frame. reflexivity.
Qed.

Lemma solveStep1_Ok (data : StepData) (s : Client) :
  Snapshot1.solveStep (Ok data) s = Returned (solved data) (afterStep1 data s).
Proof.
  cbv beta iota delta [Snapshot1.solveStep Snapshot1.runSolveStep tryCatch
                       bind exec fetchJson ret].
  rewrite (renderGrid_drawn _ (step_grid data)).
  - reflexivity.
  - rewrite update1_frame. reflexivity.
Qed.

Lemma solveStep3_fails (r : Response StepData) (msg : string) (s : Client) :
  requestFails r msg →
  Snapshot3.solveStep r s
  = Returned (JBool false) (set_statusText ("Error: " +:+ msg) (requested s)).
Proof. intros [H|[[H ?]|H]]; subst; reflexivity. Qed.

Lemma solveStep1_fails (r : Response StepData) (msg : string) (s : Client) :
  requestFails r msg →
  Snapshot1.solveStep r s
  = Returned (JBool false) (set_statusText ("Error: " +:+ msg) (requested s)).
Proof. intros [H|[[H ?]|H]]; subst; reflexivity. Qed.

Lemma settles (r : Response StepData) :
  (∃ data, r = Ok data) ∨ (∃ msg, requestFails r msg).
Proof.
  destruct r as [msg| |msg|data]; [right|right|right|left]; eauto;
    unfold requestFails; eauto.
Qed.

Lemma announce_fields (data : StepData) (s : Client) :
  let s' := announce data s in
  gridData s' = gridData s
  ∧ acrossClues s' = acrossClues s
  ∧ downClues s' = downClues s
  ∧ cellNumbering s' = cellNumbering s
  ∧ crosswordGrid s' = crosswordGrid s
  ∧ gridTemplateColumns s' = gridTemplateColumns s
  ∧ pauseRequested s' = pauseRequested s
  ∧ pauseBtn_disabled s' = pauseBtn_disabled s
  ∧ traffic s' = traffic s
  ∧ statusClass s'
    = (if looseTrue (solved data)
       then classList_add "correct" (statusClass s)
       else if looseFalse (progress data)
            then classList_add "incorrect" (statusClass s)
            else statusClass s)
  ∧ statusText s'
    = (if truthyString (message data) then default "" (message data)
       else statusText s)
  ∧ solveStepBtn_disabled s'
    = (if looseTrue (solved data) then true else solveStepBtn_disabled s)
  ∧ solveAllBtn_disabled s'
    = (if looseTrue (solved data) then true else solveAllBtn_disabled s).
Proof.
  unfold announce, showMessage.
  destruct (looseTrue (solved data)), (looseFalse (progress data)),
    (truthyString (message data)); simpl; by split_and!.
Qed.

(** The fields of the client after a step: those [announce] writes are read
    off [announce_fields]; for the others the update of the clues is moved
    out of the way with its two lemmas, [clues] and [frame]. *)
Ltac after_step_fields clues frame :=
  match goal with
  | |- context [announce ?data (drawn ?g (?update ?payload ?s0))] =>
      let HA := fresh "HA" in
      let HD := fresh "HD" in
      let E := fresh "E" in
      match s0 with
      | set_gridData _ (requested ?s) =>
          destruct (clues s0 s eq_refl eq_refl) as [HA HD]
      end;
      pose proof (announce_fields data (drawn g (update payload s0))) as E;
      cbv zeta in E; destruct_and! E;
      repeat match goal with
             | H : _ (announce _ _) = _ |- _ => rewrite H; clear H
             end;
      unfold drawn; simpl; rewrite <- HA, <- HD;
      rewrite (frame s0); simpl;
      unfold emit; simpl; rewrite <- app_assoc; by split_and!
  end.

Lemma afterStep3_fields (data : StepData) (s : Client) :
  let s' := afterStep3 data s in
  gridData s' = Some (step_grid data)
  ∧ acrossClues s'
    = acrossClues (Snapshot3.updateCluesWithAssignments (assigned_clues data) s)
  ∧ downClues s'
    = downClues (Snapshot3.updateCluesWithAssignments (assigned_clues data) s)
  ∧ cellNumbering s' = cellNumbering s
  ∧ crosswordGrid s' = renderRows (cellNumbering s) (step_grid data)
  ∧ gridTemplateColumns s'
    = assignTemplateColumns (step_grid data) (gridTemplateColumns s)
  ∧ pauseRequested s' = pauseRequested s
  ∧ pauseBtn_disabled s' = pauseBtn_disabled s
  ∧ traffic s'
    = traffic s ++ [Request "/api/solve_step"; Settled "/api/solve_step"]
  ∧ statusClass s'
    = (if looseTrue (solved data) then ["correct"]
       else if looseFalse (progress data) then ["incorrect"] else [])
  ∧ statusText s'
    = (if truthyString (message data) then default "" (message data)
       else "Solving step...")
  ∧ solveStepBtn_disabled s'
    = (if looseTrue (solved data) then true else solveStepBtn_disabled s)
  ∧ solveAllBtn_disabled s'
    = (if looseTrue (solved data) then true else solveAllBtn_disabled s).
Proof.
  intros s'. subst s'. unfold afterStep3.
  after_step_fields (update3_clues (assigned_clues data))
                    (update3_frame (assigned_clues data)).
Qed.

Lemma afterStep1_fields (data : StepData) (s : Client) :
  let s' := afterStep1 data s in
  gridData s' = Some (step_grid data)
  ∧ acrossClues s'
    = acrossClues (Snapshot1.updateCluesWithAssignments (assigned_clues data) s)
  ∧ downClues s'
    = downClues (Snapshot1.updateCluesWithAssignments (assigned_clues data) s)
  ∧ cellNumbering s' = cellNumbering s
  ∧ crosswordGrid s' = renderRows (cellNumbering s) (step_grid data)
  ∧ gridTemplateColumns s'
    = assignTemplateColumns (step_grid data) (gridTemplateColumns s)
  ∧ pauseRequested s' = pauseRequested s
  ∧ pauseBtn_disabled s' = pauseBtn_disabled s
  ∧ traffic s'
    = traffic s ++ [Request "/api/solve_step"; Settled "/api/solve_step"]
  ∧ statusClass s'
    = (if looseTrue (solved data) then ["correct"]
       else if looseFalse (progress data) then ["incorrect"] else [])
  ∧ statusText s'
    = (if truthyString (message data) then default "" (message data)
       else "Solving step...")
  ∧ solveStepBtn_disabled s'
    = (if looseTrue (solved data) then true else solveStepBtn_disabled s)
  ∧ solveAllBtn_disabled s'
    = (if looseTrue (solved data) then true else solveAllBtn_disabled s).
Proof.
  intros s'. subst s'. unfold afterStep1.
  after_step_fields (update1_clues (assigned_clues data))
                    (update1_frame (assigned_clues data)).
Qed.

(** C5, as stated, fails: a step that backtracks while the puzzle is still
    being solved ([solved] null, [progress] false) leaves the status element
    with the class [incorrect], in the first and in the third snapshot. *)
Lemma backtracking_step_gets_incorrect_styling :
  solved backtrackStep = JNull
  ∧ progress backtrackStep = JBool false
  ∧ statusClass (finalState (Snapshot3.solveStep (Ok backtrackStep) sampleClient))
    = ["incorrect"]
  ∧ statusClass (finalState (Snapshot1.solveStep (Ok backtrackStep) sampleClient))
    = ["incorrect"].
Proof. vm_compute. by split_and!. Qed.

(** C5, amended: after a step result has been taken in, the status element
    carries [correct] when [solved] is true, [incorrect] when [solved] is not
    true and [progress] is false, whether [solved] is null or false, and no
    class otherwise; its text is the server's message when there is one. *)
Theorem step_result_styling (data : StepData) (s : Client) :
  let s3 := finalState (Snapshot3.solveStep (Ok data) s) in
  let s1 := finalState (Snapshot1.solveStep (Ok data) s) in
  (statusClass s3
   = (if looseTrue (solved data) then ["correct"]
      else if looseFalse (progress data) then ["incorrect"] else [])
   ∧ statusText s3
     = (if truthyString (message data) then default "" (message data)
        else "Solving step..."))
  ∧ (statusClass s1
     = (if looseTrue (solved data) then ["correct"]
        else if looseFalse (progress data) then ["incorrect"] else [])
     ∧ statusText s1
       = (if truthyString (message data) then default "" (message data)
          else "Solving step...")).
Proof.
  intros s3 s1. subst s3 s1. rewrite solveStep3_Ok, solveStep1_Ok.
  unfold finalState.
  destruct (afterStep3_fields data s)
    as (_ & _ & _ & _ & _ & _ & _ & _ & _ & C3 & T3 & _).
  destruct (afterStep1_fields data s)
    as (_ & _ & _ & _ & _ & _ & _ & _ & _ & C1 & T1 & _).
  by split_and!.
Qed.

(** C9: when the request of a step fails, [solveStep] returns [false]; the
    grid, the clue lists, the numbering map, what is drawn, the pause flag
    and the buttons are as before the call, and the status text is the
    error message. *)
Theorem solveStep_failure_keeps_state
    (r : Response StepData) (msg : string) (s : Client) :
  requestFails r msg →
  let o3 := Snapshot3.solveStep r s in
  let o1 := Snapshot1.solveStep r s in
  (returned o3 = Some (JBool false)
   ∧ gridData (finalState o3) = gridData s
   ∧ acrossClues (finalState o3) = acrossClues s
   ∧ downClues (finalState o3) = downClues s
   ∧ cellNumbering (finalState o3) = cellNumbering s
   ∧ crosswordGrid (finalState o3) = crosswordGrid s
   ∧ pauseRequested (finalState o3) = pauseRequested s
   ∧ solveStepBtn_disabled (finalState o3) = solveStepBtn_disabled s
   ∧ solveAllBtn_disabled (finalState o3) = solveAllBtn_disabled s
   ∧ pauseBtn_disabled (finalState o3) = pauseBtn_disabled s
   ∧ statusText (finalState o3) = "Error: " +:+ msg)
  ∧ (returned o1 = Some (JBool false)
     ∧ gridData (finalState o1) = gridData s
     ∧ acrossClues (finalState o1) = acrossClues s
     ∧ downClues (finalState o1) = downClues s
     ∧ cellNumbering (finalState o1) = cellNumbering s
     ∧ crosswordGrid (finalState o1) = crosswordGrid s
     ∧ solveStepBtn_disabled (finalState o1) = solveStepBtn_disabled s
     ∧ solveAllBtn_disabled (finalState o1) = solveAllBtn_disabled s
     ∧ statusText (finalState o1) = "Error: " +:+ msg).
Proof.
  intros Hfail o3 o1. subst o3 o1.
  rewrite (solveStep3_fails r msg s Hfail), (solveStep1_fails r msg s Hfail).
  simpl. by split_and!.
Qed.

Lemma solveStep_failure_keeps_state_sample :
  let s := afterStep3 forwardStep sampleClient in
  let o3 := Snapshot3.solveStep HttpError s in
  let o1 := Snapshot1.solveStep HttpError s in
  (returned o3 = Some (JBool false)
   ∧ gridData (finalState o3) = gridData s
   ∧ acrossClues (finalState o3) = acrossClues s
   ∧ downClues (finalState o3) = downClues s
   ∧ cellNumbering (finalState o3) = cellNumbering s
   ∧ crosswordGrid (finalState o3) = crosswordGrid s
   ∧ pauseRequested (finalState o3) = pauseRequested s
   ∧ solveStepBtn_disabled (finalState o3) = solveStepBtn_disabled s
   ∧ solveAllBtn_disabled (finalState o3) = solveAllBtn_disabled s
   ∧ pauseBtn_disabled (finalState o3) = pauseBtn_disabled s
   ∧ statusText (finalState o3) = "Error: Failed to solve step")
  ∧ (returned o1 = Some (JBool false)
     ∧ gridData (finalState o1) = gridData s
     ∧ acrossClues (finalState o1) = acrossClues s
     ∧ downClues (finalState o1) = downClues s
     ∧ cellNumbering (finalState o1) = cellNumbering s
     ∧ crosswordGrid (finalState o1) = crosswordGrid s
     ∧ solveStepBtn_disabled (finalState o1) = solveStepBtn_disabled s
     ∧ solveAllBtn_disabled (finalState o1) = solveAllBtn_disabled s
     ∧ statusText (finalState o1) = "Error: Failed to solve step").
Proof.
  apply (solveStep_failure_keeps_state HttpError "Failed to solve step"
           (afterStep3 forwardStep sampleClient)).
  right. left. split; reflexivity.
Defined.

(** ** The loop of solveAll, third snapshot *)

Lemma solveAll3_entered (script : list Snapshot3.Turn) (s : Client) :
  Snapshot3.solveAll script s
  = match Snapshot3.solveAllLoop (JBool false) script (entered3 s) with
    | Exited s rest =>
        let s := set_pauseBtn_disabled true s in
        Finished
          (if pauseRequested s then
             set_solveAllBtn_disabled false
               (set_solveStepBtn_disabled false (set_statusText "Paused." s))
           else set_solveAllBtn_disabled true s)
          rest
    | Escaped msg s rest =>
        Finished
          (set_pauseBtn_disabled true
             (set_solveAllBtn_disabled false
                (set_solveStepBtn_disabled false
                   (set_statusText ("Error: " +:+ msg) s))))
          rest
    | Starved s => Pending s
    end.
Proof. reflexivity. Qed.

Lemma solveStep3_returned (r : Response StepData) (s : Client) :
  Snapshot3.solveStep r s
  = Returned (stepResult r) (finalState (Snapshot3.solveStep r s)).
Proof.
  destruct (settles r) as [[data ->]|[msg Hf]].
  - by rewrite solveStep3_Ok.
  - rewrite (solveStep3_fails r msg s Hf).
    destruct Hf as [H|[[H _]|H]]; subst r; reflexivity.
Qed.

Lemma turn3_returned (t : Snapshot3.Turn) (s : Client) :
  (sleep 50 >>
   exec (λ s, if Snapshot3.pauseClicked t then Snapshot3.clickPause s else s) >>
   Snapshot3.solveStep (Snapshot3.reply t)) s
  = Returned (stepResult (Snapshot3.reply t)) (afterTurn3 s t).
Proof.
  unfold afterTurn3. cbv beta iota delta [bind sleep exec].
  by rewrite solveStep3_returned.
Qed.

Lemma solveAllLoop3_cons v t rest s :
  Snapshot3.solveAllLoop v (t :: rest) s
  = if negb (truthy v) && negb (pauseRequested s)
    then Snapshot3.solveAllLoop (stepResult (Snapshot3.reply t)) rest
           (afterTurn3 s t)
    else Exited s (t :: rest).
Proof.
  cbn [Snapshot3.solveAllLoop]. by rewrite turn3_returned.
Qed.

Lemma sameData_refl s : sameData s s.
Proof. by repeat split. Qed.

Lemma sameData_sym s1 s2 : sameData s1 s2 → sameData s2 s1.
Proof. intros (?&?&?&?&?&?). by repeat split. Qed.

Lemma sameData_trans s1 s2 s3 : sameData s1 s2 → sameData s2 s3 → sameData s1 s3.
Proof.
  intros (?&?&?&?&?&?) (?&?&?&?&?&?). repeat split; congruence.
Qed.

Lemma solveStep3_effect (r : Response StepData) (s : Client) :
  let s' := finalState (Snapshot3.solveStep r s) in
  pauseRequested s' = pauseRequested s
  ∧ pauseBtn_disabled s' = pauseBtn_disabled s
  ∧ traffic s'
    = traffic s ++ [Request "/api/solve_step"; Settled "/api/solve_step"].
Proof.
  intros s'. subst s'. destruct (settles r) as [[data ->]|[msg Hf]].
  - rewrite solveStep3_Ok. simpl.
    destruct (afterStep3_fields data s)
      as (_ & _ & _ & _ & _ & _ & P & B & T & _). done.
  - rewrite (solveStep3_fails r msg s Hf). simpl.
    unfold emit. simpl. by rewrite <- app_assoc.
Qed.

Lemma solveStep3_sameData (r : Response StepData) (s1 s2 : Client) :
  sameData s1 s2 →
  sameData (finalState (Snapshot3.solveStep r s1))
           (finalState (Snapshot3.solveStep r s2)).
Proof.
  intros (G & A & D & N & C & W). destruct (settles r) as [[data ->]|[msg Hf]].
  - rewrite !solveStep3_Ok. simpl.
    destruct (afterStep3_fields data s1)
      as (G1 & A1 & D1 & N1 & C1 & W1 & _).
    destruct (afterStep3_fields data s2)
      as (G2 & A2 & D2 & N2 & C2 & W2 & _).
    destruct (update3_clues (assigned_clues data) s1 s2 A D) as [HA HD].
    unfold sameData. rewrite G1, G2, A1, A2, D1, D2, N1, N2, C1, C2, W1, W2.
    rewrite HA, HD, N, W. done.
  - rewrite (solveStep3_fails r msg s1 Hf), (solveStep3_fails r msg s2 Hf).
    simpl. by repeat split.
Qed.

Lemma afterTurn3_fields (s : Client) (t : Snapshot3.Turn) :
  pauseRequested (afterTurn3 s t)
  = pauseRequested s || (Snapshot3.pauseClicked t && negb (pauseBtn_disabled s))
  ∧ pauseBtn_disabled (afterTurn3 s t) = pauseBtn_disabled s
  ∧ traffic (afterTurn3 s t) = traffic s ++ turns 50 1
  ∧ sameData (afterTurn3 s t)
             (finalState (Snapshot3.solveStep (Snapshot3.reply t) s)).
Proof.
  unfold afterTurn3. cbv beta iota delta [bind sleep exec].
  set (s0 := if Snapshot3.pauseClicked t
             then Snapshot3.clickPause (emit (Timer 50) s)
             else emit (Timer 50) s).
  assert (pauseRequested s0
          = pauseRequested s
            || (Snapshot3.pauseClicked t && negb (pauseBtn_disabled s))
          ∧ pauseBtn_disabled s0 = pauseBtn_disabled s
          ∧ traffic s0 = traffic s ++ [Timer 50]
          ∧ sameData s0 s) as (P0 & B0 & T0 & S0).
  { subst s0. unfold Snapshot3.clickPause, Snapshot3.pauseSolving.
    destruct (Snapshot3.pauseClicked t); simpl;
      [destruct (pauseBtn_disabled s) eqn:E; simpl|];
      rewrite ?orb_true_r, ?orb_false_r; repeat split; done. }
  destruct (solveStep3_effect (Snapshot3.reply t) s0) as (P & B & T).
  rewrite (solveStep3_returned (Snapshot3.reply t) s0). simpl.
  rewrite P, B, T, P0, B0, T0. split_and!; [done..| |].
  - by rewrite <- app_assoc.
  - by apply solveStep3_sameData.
Qed.

Lemma turns_S ms n :
  turns ms (S n)
  = [Timer ms; Request "/api/solve_step"; Settled "/api/solve_step"]
    ++ turns ms n.
Proof. reflexivity. Qed.

Lemma turns_snoc ms n : turns ms n ++ turns ms 1 = turns ms (S n).
Proof.
  induction n as [|n IH]; [reflexivity|].
  unfold turns in *. simpl in *. by rewrite IH.
Qed.

Lemma stepRequests_app l1 l2 :
  stepRequests (l1 ++ l2) = stepRequests l1 + stepRequests l2.
Proof. induction l1 as [|e l1 IH]; simpl; [done|]. rewrite IH. lia. Qed.

Lemma stepRequests_turns ms n : stepRequests (turns ms n) = n.
Proof.
  induction n as [|n IH]; [reflexivity|].
  rewrite turns_S, stepRequests_app, IH. reflexivity.
Qed.

Lemma solveAllLoop3_exit v script s :
  negb (truthy v) && negb (pauseRequested s) = false →
  Snapshot3.solveAllLoop v script s = Exited s script.
Proof. intros H. destruct script; cbn [Snapshot3.solveAllLoop]; by rewrite H. Qed.

Lemma loop3_runs v pre rest s :
  truthy v = false → pauseRequested s = false → pauseBtn_disabled s = false →
  Forall (λ t, stops3 t = false) pre →
  ∃ v', truthy v' = false
    ∧ Snapshot3.solveAllLoop v (pre ++ rest) s
      = Snapshot3.solveAllLoop v' rest (foldl afterTurn3 s pre)
    ∧ pauseRequested (foldl afterTurn3 s pre) = false
    ∧ pauseBtn_disabled (foldl afterTurn3 s pre) = false
    ∧ traffic (foldl afterTurn3 s pre) = traffic s ++ turns 50 (length pre)
    ∧ sameData (foldl afterTurn3 s pre)
               (stepped3 s (Snapshot3.reply <$> pre)).
Proof.
  revert v s. induction pre as [|t pre IH]; intros v s Hv Hp Hb Hpre.
  - exists v. simpl. rewrite app_nil_r. split_and!; try done.
  - apply Forall_cons in Hpre as [Ht Hpre].
    apply orb_false_elim in Ht as [Hclick Hres].
    destruct (afterTurn3_fields s t) as (P & B & T & S).
    rewrite Hp, Hb, Hclick in P. simpl in P. rewrite Hb in B.
    destruct (IH (stepResult (Snapshot3.reply t)) (afterTurn3 s t) Hres P B Hpre)
      as (v' & Hv' & Hloop & P' & B' & T' & S').
    exists v'. rewrite <- app_comm_cons, solveAllLoop3_cons, Hv, Hp.
    cbn [negb andb foldl length].
    split_and!; try done.
    + rewrite T', T, <- app_assoc. f_equal.
    + eapply sameData_trans; [exact S'|].
      rewrite fmap_cons. unfold stepped3. cbn [foldl].
      clear -S. revert S.
      generalize (afterTurn3 s t)
                 (finalState (Snapshot3.solveStep (Snapshot3.reply t) s)).
      induction (Snapshot3.reply <$> pre) as [|r l IHl]; intros s1 s2 S;
        [done|].
      cbn [foldl]. apply IHl. by apply solveStep3_sameData.
Qed.

Lemma loop3_stops v t rest s :
  truthy v = false → pauseRequested s = false → pauseBtn_disabled s = false →
  stops3 t = true →
  Snapshot3.solveAllLoop v (t :: rest) s = Exited (afterTurn3 s t) rest
  ∧ pauseRequested (afterTurn3 s t) = Snapshot3.pauseClicked t.
Proof.
  intros Hv Hp Hb Ht.
  destruct (afterTurn3_fields s t) as (P & B & T & S).
  rewrite Hp, Hb in P. simpl in P. rewrite andb_true_r in P.
  split; [|done].
  rewrite solveAllLoop3_cons, Hv, Hp. simpl.
  apply solveAllLoop3_exit. rewrite P.
  unfold stops3 in Ht. destruct (Snapshot3.pauseClicked t); simpl in *.
  - apply andb_false_r.
  - by rewrite Ht.
Qed.

Lemma loop3_traffic v script s :
  ∃ n, n ≤ length script
    ∧ traffic (loopState (Snapshot3.solveAllLoop v script s))
      = traffic s ++ turns 50 n
    ∧ ∀ msg s' rest, Snapshot3.solveAllLoop v script s ≠ Escaped msg s' rest.
Proof.
  revert v s. induction script as [|t script IH]; intros v s.
  - exists 0. cbn [Snapshot3.solveAllLoop].
    destruct (negb (truthy v) && negb (pauseRequested s)); simpl;
      rewrite app_nil_r; split_and!; done.
  - rewrite solveAllLoop3_cons.
    destruct (negb (truthy v) && negb (pauseRequested s)).
    + destruct (IH (stepResult (Snapshot3.reply t)) (afterTurn3 s t))
        as (n & Hn & HT & HE).
      destruct (afterTurn3_fields s t) as (_ & _ & T & _).
      exists (S n). split_and!; [simpl; lia| |done].
      rewrite HT, T, <- app_assoc. f_equal.
    + exists 0. simpl. rewrite app_nil_r. split_and!; [lia|done..].
Qed.

Lemma client_ext (s1 s2 : Client) :
  gridData s1 = gridData s2 → acrossClues s1 = acrossClues s2 →
  downClues s1 = downClues s2 → cellNumbering s1 = cellNumbering s2 →
  pauseRequested s1 = pauseRequested s2 → statusText s1 = statusText s2 →
  statusClass s1 = statusClass s2 →
  solveStepBtn_disabled s1 = solveStepBtn_disabled s2 →
  solveAllBtn_disabled s1 = solveAllBtn_disabled s2 →
  pauseBtn_disabled s1 = pauseBtn_disabled s2 →
  crosswordGrid s1 = crosswordGrid s2 →
  gridTemplateColumns s1 = gridTemplateColumns s2 →
  traffic s1 = traffic s2 → s1 = s2.
Proof. destruct s1, s2. simpl. intros. by subst. Qed.

(** A click on Pause while the request of a step is out has the effect of a
    click before the step. *)
Lemma clickPause_solveStep (r : Response StepData) (s : Client) :
  returned (Snapshot3.solveStep r (Snapshot3.clickPause s))
  = returned (Snapshot3.solveStep r s)
  ∧ finalState (Snapshot3.solveStep r (Snapshot3.clickPause s))
    = Snapshot3.clickPause (finalState (Snapshot3.solveStep r s)).
Proof.
  split.
  - by rewrite (solveStep3_returned r (Snapshot3.clickPause s)),
               (solveStep3_returned r s).
  - unfold Snapshot3.clickPause.
    destruct (solveStep3_effect r s) as (_ & -> & _).
    destruct (pauseBtn_disabled s); [done|].
    unfold Snapshot3.pauseSolving.
    destruct (settles r) as [[data ->]|[msg Hf]].
    + rewrite !solveStep3_Ok. simpl.
      destruct (afterStep3_fields data s)
        as (G & A & D & N & C & W & P & B & T & K & X & B1 & B2).
      destruct (afterStep3_fields data (set_pauseRequested true s))
        as (G' & A' & D' & N' & C' & W' & P' & B' & T' & K' & X' & B1' & B2').
      destruct (update3_clues (assigned_clues data)
                  (set_pauseRequested true s) s eq_refl eq_refl) as [HA HD].
      simpl in N', C', W', P', B', T', B1', B2'.
      apply client_ext; simpl; congruence.
    + by rewrite (solveStep3_fails r msg _ Hf), (solveStep3_fails r msg s Hf).
Qed.

(** ** The loop of solveAll, first snapshot *)

Lemma solveAll1_entered (script : list (Response StepData)) (s : Client) :
  Snapshot1.solveAll script s
  = match Snapshot1.solveAllLoop (JBool false) script (entered1 s) with
    | Exited s rest => Finished (set_solveAllBtn_disabled true s) rest
    | Escaped msg s rest =>
        Finished
          (set_solveAllBtn_disabled false
             (set_solveStepBtn_disabled false
                (set_statusText ("Error: " +:+ msg) s)))
          rest
    | Starved s => Pending s
    end.
Proof. reflexivity. Qed.

Lemma solveStep1_returned (r : Response StepData) (s : Client) :
  Snapshot1.solveStep r s
  = Returned (stepResult r) (finalState (Snapshot1.solveStep r s)).
Proof.
  destruct (settles r) as [[data ->]|[msg Hf]].
  - by rewrite solveStep1_Ok.
  - rewrite (solveStep1_fails r msg s Hf).
    destruct Hf as [H|[[H _]|H]]; subst r; reflexivity.
Qed.

Lemma solveStep1_traffic (r : Response StepData) (s : Client) :
  traffic (finalState (Snapshot1.solveStep r s))
  = traffic s ++ [Request "/api/solve_step"; Settled "/api/solve_step"].
Proof.
  destruct (settles r) as [[data ->]|[msg Hf]].
  - rewrite solveStep1_Ok. simpl.
    destruct (afterStep1_fields data s)
      as (_ & _ & _ & _ & _ & _ & _ & _ & T & _). done.
  - rewrite (solveStep1_fails r msg s Hf). simpl.
    unfold emit. simpl. by rewrite <- app_assoc.
Qed.

Lemma afterTurn1_traffic (s : Client) (r : Response StepData) :
  traffic (afterTurn1 s r) = traffic s ++ turns 500 1.
Proof.
  unfold afterTurn1. cbv beta iota delta [bind sleep exec].
  rewrite solveStep1_traffic. unfold emit. simpl. by rewrite <- app_assoc.
Qed.

Lemma solveAllLoop1_cons v r rest s :
  Snapshot1.solveAllLoop v (r :: rest) s
  = if negb (truthy v)
    then Snapshot1.solveAllLoop (stepResult r) rest (afterTurn1 s r)
    else Exited s (r :: rest).
Proof.
  cbn [Snapshot1.solveAllLoop].
  replace ((sleep 500 >> Snapshot1.solveStep r) s)
    with (Returned (stepResult r) (afterTurn1 s r)); [done|].
  unfold afterTurn1. cbv beta iota delta [bind sleep exec].
  by rewrite solveStep1_returned.
Qed.

Lemma solveAllLoop1_exit v script s :
  truthy v = true → Snapshot1.solveAllLoop v script s = Exited s script.
Proof. intros H. destruct script; cbn [Snapshot1.solveAllLoop]; by rewrite H. Qed.

Lemma loop1_runs v pre rest s :
  truthy v = false → Forall (λ r, stops1 r = false) pre →
  ∃ v', truthy v' = false
    ∧ Snapshot1.solveAllLoop v (pre ++ rest) s
      = Snapshot1.solveAllLoop v' rest (foldl afterTurn1 s pre)
    ∧ traffic (foldl afterTurn1 s pre) = traffic s ++ turns 500 (length pre).
Proof.
  revert v s. induction pre as [|r pre IH]; intros v s Hv Hpre.
  - exists v. simpl. rewrite app_nil_r. split_and!; done.
  - apply Forall_cons in Hpre as [Hr Hpre].
    destruct (IH (stepResult r) (afterTurn1 s r) Hr Hpre)
      as (v' & Hv' & Hloop & T').
    exists v'. rewrite <- app_comm_cons, solveAllLoop1_cons, Hv.
    cbn [negb foldl length]. split_and!; try done.
    rewrite T', afterTurn1_traffic, <- app_assoc. f_equal.
Qed.

Lemma loop1_traffic v script s :
  ∃ n, n ≤ length script
    ∧ traffic (loopState (Snapshot1.solveAllLoop v script s))
      = traffic s ++ turns 500 n
    ∧ ∀ msg s' rest, Snapshot1.solveAllLoop v script s ≠ Escaped msg s' rest.
Proof.
  revert v s. induction script as [|r script IH]; intros v s.
  - exists 0. cbn [Snapshot1.solveAllLoop].
    destruct (negb (truthy v)); simpl; rewrite app_nil_r; split_and!; done.
  - rewrite solveAllLoop1_cons. destruct (negb (truthy v)).
    + destruct (IH (stepResult r) (afterTurn1 s r)) as (n & Hn & HT & HE).
      exists (S n). split_and!; [simpl; lia| |done].
      rewrite HT, afterTurn1_traffic, <- app_assoc. f_equal.
    + exists 0. simpl. rewrite app_nil_r. split_and!; [lia|done..].
Qed.

(** ** Requests in flight *)

Lemma serialized_turns ms n : serialized (turns ms n).
Proof.
  induction n as [|n IH]; intros pre Hpre.
  - apply prefix_nil_inv in Hpre as ->. simpl. lia.
  - rewrite turns_S in Hpre. simpl in Hpre.
    destruct pre as [|x1 [|x2 [|x3 pre]]]; [simpl; lia|..].
    + apply prefix_cons_inv_1 in Hpre as ->. simpl. lia.
    + pose proof (prefix_cons_inv_1 _ _ _ _ Hpre) as ->.
      apply prefix_cons_inv_2, prefix_cons_inv_1 in Hpre as ->. simpl. lia.
    + pose proof (prefix_cons_inv_1 _ _ _ _ Hpre) as ->.
      apply prefix_cons_inv_2 in Hpre.
      pose proof (prefix_cons_inv_1 _ _ _ _ Hpre) as ->.
      apply prefix_cons_inv_2 in Hpre.
      pose proof (prefix_cons_inv_1 _ _ _ _ Hpre) as ->.
      apply prefix_cons_inv_2 in Hpre.
      specialize (IH pre Hpre). simpl. lia.
Qed.

(** ** The loop of solveAll, second snapshot *)

Lemma solveAllBody2_Ok (data : StepData) (s : Client) :
  Snapshot2.solveAllBody (Ok data) s
  = Returned (allSolved2 data s)
      (if allSolved2 data s then
         match solved data with
         | JUndefined => shown2 data s
         | JBool true =>
             set_statusClass
               (classList_add "correct" (statusClass (shown2 data s)))
               (set_statusText "Puzzle solved correctly!" (shown2 data s))
         | _ =>
             set_statusClass
               (classList_add "incorrect" (statusClass (shown2 data s)))
               (set_statusText "Puzzle solved, but the solution is incorrect."
                  (shown2 data s))
         end
       else shown2 data s).
Proof.
  cbv beta iota delta [Snapshot2.solveAllBody bind exec sleep fetchJson ret].
  rewrite (renderGrid_drawn _ (step_grid data)).
  - reflexivity.
  - unfold Snapshot2.updateCluesWithAssignments.
    rewrite update1_frame. reflexivity.
Qed.

Lemma shown2_traffic (data : StepData) (s : Client) :
  traffic (shown2 data s) = traffic s ++ turns 500 1.
Proof.
  unfold shown2, showMessage, drawn, Snapshot2.updateCluesWithAssignments.
  rewrite update1_frame.
  destruct (truthyString (message data)); simpl; unfold emit; simpl;
    by rewrite <- !app_assoc.
Qed.

Lemma solveAll2_stops_without_progress (data : StepData)
    (rest : list (Response StepData)) (s : Client) :
  truthy (progress data) = false →
  ∃ s', Snapshot2.solveAll (Ok data :: rest) s = Finished s' rest
      ∧ stepRequests (traffic s') = stepRequests (traffic s) + 1.
Proof.
  intros Hp. unfold Snapshot2.solveAll. cbv zeta.
  cbn [Snapshot2.solveAllLoop negb]. rewrite solveAllBody2_Ok.
  set (s0 := set_solveAllBtn_disabled true _).
  assert (allSolved2 data s0 = true) as ->.
  { unfold allSolved2. rewrite Hp. apply orb_true_r. }
  assert (∀ script s1, Snapshot2.solveAllLoop true script s1 = Exited s1 script)
    as -> by (by intros [|? ?] ?).
  eexists. split; [reflexivity|].
  assert (traffic s0 = traffic s) as Hs0 by reflexivity.
  pose proof (shown2_traffic data s0) as T. rewrite Hs0 in T.
  destruct (solved data) as [| |[]]; simpl; rewrite T, stepRequests_app;
    reflexivity.
Qed.

(** ** Where solveAll stops *)

Lemma solveAll3_pending (script : list Snapshot3.Turn) (s : Client) :
  Forall (λ t, stops3 t = false) script →
  Snapshot3.solveAll script s = Pending (foldl afterTurn3 (entered3 s) script)
  ∧ traffic (foldl afterTurn3 (entered3 s) script)
    = traffic s ++ turns 50 (length script).
Proof.
  intros Hs.
  destruct (loop3_runs (JBool false) script [] (entered3 s)
              eq_refl eq_refl eq_refl Hs)
    as (v' & Hv' & Hloop & P & B & T & _).
  rewrite app_nil_r in Hloop. split; [|exact T].
  rewrite solveAll3_entered, Hloop. cbn [Snapshot3.solveAllLoop].
  by rewrite Hv', P.
Qed.

Lemma solveAll3_finished (pre : list Snapshot3.Turn) (t : Snapshot3.Turn)
    (rest : list Snapshot3.Turn) (s : Client) :
  Forall (λ t, stops3 t = false) pre → stops3 t = true →
  let s0 := afterTurn3 (foldl afterTurn3 (entered3 s) pre) t in
  Snapshot3.solveAll (pre ++ t :: rest) s
  = Finished
      (if Snapshot3.pauseClicked t then
         set_solveAllBtn_disabled false
           (set_solveStepBtn_disabled false
              (set_statusText "Paused." (set_pauseBtn_disabled true s0)))
       else set_solveAllBtn_disabled true (set_pauseBtn_disabled true s0))
      rest
  ∧ traffic s0 = traffic s ++ turns 50 (S (length pre))
  ∧ sameData s0
      (stepped3 (entered3 s) (Snapshot3.reply <$> (pre ++ [t]))).
Proof.
  intros Hpre Ht s0.
  destruct (loop3_runs (JBool false) pre (t :: rest) (entered3 s)
              eq_refl eq_refl eq_refl Hpre)
    as (v' & Hv' & Hloop & P & B & T & S).
  destruct (loop3_stops v' t rest _ Hv' P B Ht) as [Hstop Hclick].
  destruct (afterTurn3_fields (foldl afterTurn3 (entered3 s) pre) t)
    as (_ & _ & T' & S').
  fold s0 in Hstop, Hclick, T', S'. split_and!.
  - rewrite solveAll3_entered, Hloop, Hstop. cbv zeta.
    replace (pauseRequested (set_pauseBtn_disabled true s0))
      with (Snapshot3.pauseClicked t) by (by rewrite <- Hclick).
    reflexivity.
  - rewrite T', T, <- app_assoc. f_equal. apply turns_snoc.
  - eapply sameData_trans; [exact S'|].
    rewrite fmap_app. unfold stepped3. rewrite foldl_app. cbn [fmap list_fmap foldl].
    by apply solveStep3_sameData.
Qed.

Lemma solveAll1_pending (script : list (Response StepData)) (s : Client) :
  Forall (λ r, stops1 r = false) script →
  Snapshot1.solveAll script s = Pending (foldl afterTurn1 (entered1 s) script)
  ∧ traffic (foldl afterTurn1 (entered1 s) script)
    = traffic s ++ turns 500 (length script).
Proof.
  intros Hs.
  destruct (loop1_runs (JBool false) script [] (entered1 s) eq_refl Hs)
    as (v' & Hv' & Hloop & T).
  rewrite app_nil_r in Hloop. split; [|exact T].
  rewrite solveAll1_entered, Hloop. cbn [Snapshot1.solveAllLoop].
  by rewrite Hv'.
Qed.

Lemma solveAll1_finished (pre : list (Response StepData)) (r : Response StepData)
    (rest : list (Response StepData)) (s : Client) :
  Forall (λ r, stops1 r = false) pre → stops1 r = true →
  let s0 := afterTurn1 (foldl afterTurn1 (entered1 s) pre) r in
  Snapshot1.solveAll (pre ++ r :: rest) s
  = Finished (set_solveAllBtn_disabled true s0) rest
  ∧ traffic s0 = traffic s ++ turns 500 (S (length pre)).
Proof.
  intros Hpre Hr s0.
  destruct (loop1_runs (JBool false) pre (r :: rest) (entered1 s) eq_refl Hpre)
    as (v' & Hv' & Hloop & T).
  split.
  - rewrite solveAll1_entered, Hloop, solveAllLoop1_cons, Hv'.
    cbn [negb]. by rewrite (solveAllLoop1_exit _ rest _ Hr).
  - subst s0. rewrite afterTurn1_traffic, T, <- app_assoc. f_equal.
    apply turns_snoc.
Qed.

(** C1, as stated, fails.  In the first and third snapshot a terminal result
    with [solved] false does not end the loop: after it the run sends a
    second request and is still going.  In the second snapshot the loop does
    not go on through a step with [progress] false: it ends there although
    the puzzle is still being solved. *)
Lemma solveAll_does_not_stop_at_terminal_failure :
  solved exhaustedStep = JBool false
  ∧ match Snapshot3.solveAll
            [Snapshot3.mkTurn false (Ok exhaustedStep);
             Snapshot3.mkTurn false (Ok exhaustedStep)] sampleClient with
    | Pending s' => stepRequests (traffic s') = 2
    | Finished _ _ => False
    end
  ∧ match Snapshot1.solveAll [Ok exhaustedStep; Ok exhaustedStep] sampleClient with
    | Pending s' => stepRequests (traffic s') = 2
    | Finished _ _ => False
    end
  ∧ solved backtrackStep = JNull
  ∧ match Snapshot2.solveAll [Ok backtrackStep; Ok forwardStep] sampleClient with
    | Finished s' rest =>
        rest = [Ok forwardStep] ∧ stepRequests (traffic s') = 1
    | Pending _ => False
    end.
Proof. vm_compute. by split_and!. Qed.

(** C1, amended: [solveAll] keeps calling the step operation and leaves its
    loop exactly after the first turn whose step returned a truthy value,
    that is a result with [solved] true, or (third snapshot) during which
    Pause was clicked.  Steps with [progress] false, results with [solved]
    null or false and failed requests do not end it: a script made of such
    turns only is used up with one request per turn and the run is still
    pending.  The second snapshot leaves its loop after a step whose
    [progress] is falsy. *)
Theorem solveAll_stops_after_first_solved_or_paused_turn
    (pre : list Snapshot3.Turn) (t : Snapshot3.Turn) (rest : list Snapshot3.Turn)
    (pre1 : list (Response StepData)) (r1 : Response StepData)
    (rest1 : list (Response StepData)) (data : StepData) (s : Client) :
  Forall (λ t, stops3 t = false) pre → stops3 t = true →
  Forall (λ r, stops1 r = false) pre1 → stops1 r1 = true →
  truthy (progress data) = false →
  (∃ s', Snapshot3.solveAll (pre ++ t :: rest) s = Finished s' rest
       ∧ stepRequests (traffic s') = stepRequests (traffic s) + length pre + 1)
  ∧ (∃ s', Snapshot3.solveAll pre s = Pending s'
         ∧ stepRequests (traffic s') = stepRequests (traffic s) + length pre)
  ∧ (∃ s', Snapshot1.solveAll (pre1 ++ r1 :: rest1) s = Finished s' rest1
         ∧ stepRequests (traffic s') = stepRequests (traffic s) + length pre1 + 1)
  ∧ (∃ s', Snapshot1.solveAll pre1 s = Pending s'
         ∧ stepRequests (traffic s') = stepRequests (traffic s) + length pre1)
  ∧ (∃ s', Snapshot2.solveAll (Ok data :: pre1) s = Finished s' pre1
         ∧ stepRequests (traffic s') = stepRequests (traffic s) + 1).
Proof.
  intros Hpre Ht Hpre1 Hr1 Hp. split_and!.
  - destruct (solveAll3_finished pre t rest s Hpre Ht) as (E & T & _).
    eexists. split; [exact E|].
    destruct (Snapshot3.pauseClicked t); simpl;
      rewrite T, stepRequests_app, stepRequests_turns; lia.
  - destruct (solveAll3_pending pre s Hpre) as (E & T).
    eexists. split; [exact E|].
    rewrite T, stepRequests_app, stepRequests_turns. lia.
  - destruct (solveAll1_finished pre1 r1 rest1 s Hpre1 Hr1) as (E & T).
    eexists. split; [exact E|]. simpl.
    rewrite T, stepRequests_app, stepRequests_turns. lia.
  - destruct (solveAll1_pending pre1 s Hpre1) as (E & T).
    eexists. split; [exact E|].
    rewrite T, stepRequests_app, stepRequests_turns. lia.
  - by apply solveAll2_stops_without_progress.
Qed.

Lemma solveAll_stops_after_first_solved_or_paused_turn_sample :
  let s := sampleClient in
  let t := Snapshot3.mkTurn false (Ok completeStep) in
  let rest := [Snapshot3.mkTurn false (Ok forwardStep)] in
  (∃ s', Snapshot3.solveAll (sampleTurns ++ t :: rest) s = Finished s' rest
       ∧ stepRequests (traffic s') = stepRequests (traffic s) + 3 + 1)
  ∧ (∃ s', Snapshot3.solveAll sampleTurns s = Pending s'
         ∧ stepRequests (traffic s') = stepRequests (traffic s) + 3)
  ∧ (∃ s', Snapshot1.solveAll (sampleReplies ++ Ok completeStep :: [Ok forwardStep]) s
           = Finished s' [Ok forwardStep]
         ∧ stepRequests (traffic s') = stepRequests (traffic s) + 3 + 1)
  ∧ (∃ s', Snapshot1.solveAll sampleReplies s = Pending s'
         ∧ stepRequests (traffic s') = stepRequests (traffic s) + 3)
  ∧ (∃ s', Snapshot2.solveAll (Ok backtrackStep :: sampleReplies) s
           = Finished s' sampleReplies
         ∧ stepRequests (traffic s') = stepRequests (traffic s) + 1).
Proof.
  apply (solveAll_stops_after_first_solved_or_paused_turn
           sampleTurns (Snapshot3.mkTurn false (Ok completeStep))
           [Snapshot3.mkTurn false (Ok forwardStep)]
           sampleReplies (Ok completeStep) [Ok forwardStep]
           backtrackStep sampleClient).
  - repeat (apply Forall_cons_2; [reflexivity|]). apply Forall_nil_2.
  - reflexivity.
  - repeat (apply Forall_cons_2; [reflexivity|]). apply Forall_nil_2.
  - reflexivity.
  - reflexivity.
Defined.

(** ** Pausing and resuming *)






Example paused_run_on_sample :
  match Snapshot3.solveAll
          [Snapshot3.mkTurn false (Ok backtrackStep);
           Snapshot3.mkTurn true (Ok forwardStep);
           Snapshot3.mkTurn false (Ok completeStep)] sampleClient with
  | Finished s' rest =>
      rest = [Snapshot3.mkTurn false (Ok completeStep)]
      ∧ gridData s' = Some sampleFilledGrid
      ∧ assigned <$> acrossClues s' = [Some "CAT"; None]
      ∧ statusText s' = "Paused."
      ∧ traffic s' = turns 50 2
  | Pending _ => False
  end.
Proof. vm_compute. by split_and!. Qed.

(** * Further properties *)

(** ** Keys of cells *)

(** X1: two cells have the same key in the numbering map only if they are
    the same cell: the row and the column can be read back from the key. *)
Theorem cellKey_separates_cells (r c r' c' : nat) :
  cellKey r c = cellKey r' c' ↔ r = r' ∧ c = c'.
Proof.
  split; [apply cellKey_inj|]. by intros [-> ->].
Qed.

(** ** What a step leaves of the clues *)

Lemma updateFound_identity (n : Z) (f : Clue → Clue) (l : list Clue) :
  (∀ c, identity (f c) = identity c) →
  identity <$> updateFound n f l = identity <$> l.
Proof.
  intros Hf. induction l as [|c l IH]; [done|]. cbn [updateFound].
  destruct (number c =? n)%Z; rewrite !fmap_cons; [by rewrite Hf|by rewrite IH].
Qed.

Lemma foldl_applyAssignmentWith_identity assign (l : list Assignment) (s : Client) :
  (∀ a c, identity (assign a c) = identity c) →
  identity <$> acrossClues (foldl (applyAssignmentWith assign) s l)
  = identity <$> acrossClues s
  ∧ identity <$> downClues (foldl (applyAssignmentWith assign) s l)
    = identity <$> downClues s.
Proof.
  intros Hf. induction l as [|a l IH] using rev_ind; [done|].
  rewrite foldl_snoc. destruct IH as [IHA IHD].
  generalize dependent (foldl (applyAssignmentWith assign) s l).
  intros s0 IHA IHD. unfold applyAssignmentWith.
  destruct (String.eqb (a_direction a) "A"); destruct s0;
    unfold set_acrossClues, set_downClues; cbn [acrossClues downClues] in *;
    rewrite ?(updateFound_identity _ _ _ (Hf a)); done.
Qed.

Lemma update3_identity (p : option (list Assignment)) (s : Client) :
  identity <$> acrossClues (Snapshot3.updateCluesWithAssignments p s)
  = identity <$> acrossClues s
  ∧ identity <$> downClues (Snapshot3.updateCluesWithAssignments p s)
    = identity <$> downClues s.
Proof.
  destruct p as [l|]; simpl; [|done].
  change Snapshot3.applyAssignment with (applyAssignmentWith Snapshot3.assign).
  by apply foldl_applyAssignmentWith_identity.
Qed.

Lemma update1_identity (p : option (list Assignment)) (s : Client) :
  identity <$> acrossClues (Snapshot1.updateCluesWithAssignments p s)
  = identity <$> acrossClues s
  ∧ identity <$> downClues (Snapshot1.updateCluesWithAssignments p s)
    = identity <$> downClues s.
Proof.
  destruct p as [l|]; simpl; [|done].
  change Snapshot1.applyAssignment with (applyAssignmentWith Snapshot1.assign).
  by apply foldl_applyAssignmentWith_identity.
Qed.

(** X2: whatever the payload holds, also entries with repeated numbers or
    with a direction that is neither A nor D, [updateCluesWithAssignments]
    adds, removes and reorders no clue and changes no number, start, length
    or text; outside the two clue lists the client is untouched. *)
Theorem updateCluesWithAssignments_keeps_clue_identity
    (p : option (list Assignment)) (s : Client) :
  let s3 := Snapshot3.updateCluesWithAssignments p s in
  let s1 := Snapshot1.updateCluesWithAssignments p s in
  (identity <$> acrossClues s3 = identity <$> acrossClues s
   ∧ identity <$> downClues s3 = identity <$> downClues s
   ∧ s3 = set_downClues (downClues s3) (set_acrossClues (acrossClues s3) s))
  ∧ (identity <$> acrossClues s1 = identity <$> acrossClues s
     ∧ identity <$> downClues s1 = identity <$> downClues s
     ∧ s1 = set_downClues (downClues s1) (set_acrossClues (acrossClues s1) s)).
Proof.
  intros s3 s1. subst s3 s1.
  destruct (update3_identity p s) as [A3 D3].
  destruct (update1_identity p s) as [A1 D1].
  split_and!; try done; [apply update3_frame|apply update1_frame].
Qed.

(** ** Applying a payload twice *)

Section Absorption.
Variable assign : Assignment → Clue → Clue.
Hypothesis assign_number : ∀ a c, number (assign a c) = number c.
Hypothesis assign_absorbs : ∀ a b c, assign a (assign b c) = assign a c.

Lemma updateFound_absorbs (n : Z) (a b : Assignment) (l : list Clue) :
  updateFound n (assign a) (updateFound n (assign b) l)
  = updateFound n (assign a) l.
Proof.
  induction l as [|c l IH]; [done|]. cbn [updateFound].
  destruct (number c =? n)%Z eqn:E; cbn [updateFound].
  - by rewrite assign_number, E, assign_absorbs.
  - by rewrite E, IH.
Qed.

Lemma updateFound_comm (n m : Z) (a b : Assignment) (l : list Clue) :
  n ≠ m →
  updateFound n (assign a) (updateFound m (assign b) l)
  = updateFound m (assign b) (updateFound n (assign a) l).
Proof.
  intros Hnm. induction l as [|c l IH]; [done|]. cbn [updateFound].
  destruct (number c =? n)%Z eqn:En, (number c =? m)%Z eqn:Em;
    cbn [updateFound]; rewrite ?assign_number, ?En, ?Em; try done.
  - apply Z.eqb_eq in En, Em. congruence.
  - by rewrite IH.
Qed.

Lemma applyAssignmentWith_absorbs (a b : Assignment) (s : Client) :
  target a = target b →
  applyAssignmentWith assign (applyAssignmentWith assign s b) a
  = applyAssignmentWith assign s a.
Proof.
  unfold target, applyAssignmentWith. intros [= -> ->].
  destruct (String.eqb (a_direction b) "A"); destruct s;
    unfold set_acrossClues, set_downClues; simpl;
    by rewrite updateFound_absorbs.
Qed.

Lemma applyAssignmentWith_comm (a b : Assignment) (s : Client) :
  target a ≠ target b →
  applyAssignmentWith assign (applyAssignmentWith assign s b) a
  = applyAssignmentWith assign (applyAssignmentWith assign s a) b.
Proof.
  unfold target, applyAssignmentWith.
  destruct (String.eqb (a_direction a) "A"), (String.eqb (a_direction b) "A");
    intros Hab; destruct s; unfold set_acrossClues, set_downClues;
    simpl; try done;
    rewrite (updateFound_comm (a_number a) (a_number b)); congruence.
Qed.

Lemma foldl_applyAssignmentWith_after (l : list Assignment) (a : Assignment)
    (s : Client) :
  foldl (applyAssignmentWith assign) (applyAssignmentWith assign s a) l
  = if existsb (λ b, bool_decide (target b = target a)) l
    then foldl (applyAssignmentWith assign) s l
    else applyAssignmentWith assign (foldl (applyAssignmentWith assign) s l) a.
Proof.
  induction l as [|b l IH] using rev_ind; [done|].
  rewrite !foldl_snoc, existsb_app, IH. cbn [existsb]. rewrite orb_false_r.
  destruct (existsb _ l); cbn [orb]; [done|].
  case_bool_decide as Hba.
  - by apply applyAssignmentWith_absorbs.
  - by apply applyAssignmentWith_comm.
Qed.

Lemma foldl_applyAssignmentWith_twice (l : list Assignment) (s : Client) :
  foldl (applyAssignmentWith assign) (foldl (applyAssignmentWith assign) s l) l
  = foldl (applyAssignmentWith assign) s l.
Proof.
  induction l as [|a l IH] using rev_ind; [done|].
  rewrite !foldl_snoc, foldl_applyAssignmentWith_after.
  destruct (existsb _ l); rewrite IH; [done|].
  by apply applyAssignmentWith_absorbs.
Qed.

End Absorption.

(** X3: applying the same payload a second time changes nothing, in both
    snapshots of [updateCluesWithAssignments] and for any payload and any
    clue lists: an entry overwrites what an earlier entry for the same clue
    has written, and entries for different clues do not meet. *)
Theorem updateCluesWithAssignments_idempotent
    (p : option (list Assignment)) (s : Client) :
  Snapshot3.updateCluesWithAssignments p
    (Snapshot3.updateCluesWithAssignments p s)
  = Snapshot3.updateCluesWithAssignments p s
  ∧ Snapshot1.updateCluesWithAssignments p
      (Snapshot1.updateCluesWithAssignments p s)
    = Snapshot1.updateCluesWithAssignments p s.
Proof.
  destruct p as [l|]; [|done]. split.
  - apply (foldl_applyAssignmentWith_twice Snapshot3.assign); done.
  - apply (foldl_applyAssignmentWith_twice Snapshot1.assign); done.
Qed.

(** ** initializePuzzle *)

Lemma initializePuzzle1_ok (data : InitData) (s : Client) :
  let s' := finalState (Snapshot1.initializePuzzle (Ok data) s) in
  returned (Snapshot1.initializePuzzle (Ok data) s) = Some tt
  ∧ gridData s' = Some (init_grid data)
  ∧ acrossClues s' = across_clues data
  ∧ downClues s' = down_clues data
  ∧ cellNumbering s' =
    foldl numberDown (foldl numberAcross ∅ (across_clues data))
      (down_clues data)
  ∧ crosswordGrid s' = renderRows (cellNumbering s') (init_grid data).
Proof. intros s'. subst s'. split_and!; reflexivity. Qed.

(** X4: when its request fails, [initializePuzzle] returns with the error
    as status text and enables no button.  In the first snapshot the grid,
    the clue lists, the numbering map and what is drawn are those of before
    the call.  In the third the two clue lists have been emptied before the
    request went out and stay empty, while the grid, the map and what is
    drawn are kept: the map is then no longer the map of the clues, which
    is empty. *)
Theorem initializePuzzle_failure
    (r : Response InitData) (msg : string) (s : Client) :
  initFails r msg →
  let o1 := Snapshot1.initializePuzzle r s in
  let o3 := Snapshot3.initializePuzzle r s in
  (returned o1 = Some tt
   ∧ sameData (finalState o1) s
   ∧ solveStepBtn_disabled (finalState o1) = solveStepBtn_disabled s
   ∧ solveAllBtn_disabled (finalState o1) = solveAllBtn_disabled s
   ∧ statusText (finalState o1) = "Error: " +:+ msg
   ∧ statusClass (finalState o1) = [])
  ∧ (returned o3 = Some tt
     ∧ acrossClues (finalState o3) = []
     ∧ downClues (finalState o3) = []
     ∧ gridData (finalState o3) = gridData s
     ∧ cellNumbering (finalState o3) = cellNumbering s
     ∧ crosswordGrid (finalState o3) = crosswordGrid s
     ∧ gridTemplateColumns (finalState o3) = gridTemplateColumns s
     ∧ cellNumbering (createCellNumbering (finalState o3)) = ∅
     ∧ solveStepBtn_disabled (finalState o3) = solveStepBtn_disabled s
     ∧ solveAllBtn_disabled (finalState o3) = solveAllBtn_disabled s
     ∧ pauseBtn_disabled (finalState o3) = pauseBtn_disabled s
     ∧ pauseRequested (finalState o3) = pauseRequested s
     ∧ statusText (finalState o3) = "Error: " +:+ msg
     ∧ statusClass (finalState o3) = []).
Proof.
  intros Hfail o1 o3. subst o1 o3. unfold sameData.
  destruct Hfail as [Hr|[[Hr Hmsg]|Hr]]; subst r; try subst msg;
    split_and!; reflexivity.
Qed.

Lemma initializePuzzle_failure_sample :
  let s := afterStep3 forwardStep sampleClient in
  let o3 := Snapshot3.initializePuzzle HttpError s in
  acrossClues s ≠ []
  ∧ cellNumbering (createCellNumbering s) ≠ ∅
  ∧ acrossClues (finalState o3) = []
  ∧ cellNumbering (createCellNumbering (finalState o3)) = ∅
  ∧ statusText (finalState o3) = "Error: Failed to initialize puzzle".
Proof.
  cbv zeta.
  pose proof (initializePuzzle_failure HttpError "Failed to initialize puzzle"
                (afterStep3 forwardStep sampleClient)
                (or_intror (or_introl (conj eq_refl eq_refl)))) as H.
  cbv zeta in H.
  destruct H as (_ & _ & A & _ & _ & _ & _ & _ & M & _ & _ & _ & _ & T & _).
  split_and!; [vm_compute; discriminate|vm_compute; discriminate|exact A|exact M|exact T].
Defined.

Lemma forget_unassigned (l : list Clue) :
  (∀ clue, clue ∈ l → assigned clue = None ∧ confidence clue = None) →
  Snapshot3.forget <$> l = l.
Proof.
  intros Hl. rewrite <- (list_fmap_id l) at 2.
  apply list_fmap_ext. intros i c Hc.
  destruct (Hl c (list_elem_of_lookup_2 _ _ _ Hc)) as [Ha Hc'].
  destruct c; simpl in *; subst; reflexivity.
Qed.

Lemma initializePuzzle3_as_initializePuzzle1 (data : InitData) (s : Client) :
  sameData (finalState (Snapshot3.initializePuzzle (Ok data) s))
    (finalState (Snapshot1.initializePuzzle (Ok (forgotten data)) s)).
Proof.
  unfold sameData.
  destruct (initializePuzzle_ok data s) as (_ & G & A & D & M & C).
  destruct (initializePuzzle1_ok (forgotten data) s)
    as (_ & G1 & A1 & D1 & M1 & C1).
  cbv zeta in *. rewrite G, A, D, C, G1, A1, D1, C1, M1, M.
  split_and!; reflexivity.
Qed.

(** X5: a successful [initializePuzzle] of the third snapshot leaves the
    puzzle data that the one of the first snapshot leaves for the same
    response with [assigned] and [confidence] deleted from its clues; for a
    response whose clues carry neither, the two leave the same puzzle
    data.  The first snapshot keeps the response's clues as they come. *)
Theorem initializePuzzle_forgets_then_builds (data : InitData) (s : Client) :
  let s3 := finalState (Snapshot3.initializePuzzle (Ok data) s) in
  sameData s3 (finalState (Snapshot1.initializePuzzle (Ok (forgotten data)) s))
  ∧ acrossClues (finalState (Snapshot1.initializePuzzle (Ok data) s))
    = across_clues data
  ∧ downClues (finalState (Snapshot1.initializePuzzle (Ok data) s))
    = down_clues data
  ∧ ((∀ clue, clue ∈ across_clues data ++ down_clues data →
              assigned clue = None ∧ confidence clue = None) →
     sameData s3 (finalState (Snapshot1.initializePuzzle (Ok data) s))).
Proof.
  intros s3. subst s3.
  pose proof (initializePuzzle3_as_initializePuzzle1 data s) as Hsame.
  split_and!; [exact Hsame|reflexivity|reflexivity|].
  intros Hnone.
  assert (forgotten data = data) as Hdata.
  { unfold forgotten. rewrite !forget_unassigned.
    - by destruct data.
    - intros c Hc. apply Hnone, elem_of_app. by right.
    - intros c Hc. apply Hnone, elem_of_app. by left. }
  rewrite Hdata in Hsame. exact Hsame.
Qed.

Lemma initializePuzzle_forgets_then_builds_sample :
  let data := mkInitData sampleGrid sampleAcross sampleDown in
  sameData (finalState (Snapshot3.initializePuzzle (Ok data) staleClient))
    (finalState (Snapshot1.initializePuzzle (Ok data) staleClient)).
Proof.
  apply (initializePuzzle_forgets_then_builds
           (mkInitData sampleGrid sampleAcross sampleDown) staleClient).
  intros clue Hc. cbn [across_clues down_clues] in Hc.
  unfold sampleAcross, sampleDown in Hc. cbn [app] in Hc.
  repeat (apply elem_of_cons in Hc as [->|Hc]; [by split|]).
  by apply elem_of_nil in Hc.
Defined.

(** ** What every session keeps *)

Section Invariant.
Variable I : Client → Prop.
Hypothesis I_data : ∀ s1 s2, sameData s1 s2 → I s1 → I s2.

Section Third.
Hypothesis I_step : ∀ r s, I s → I (finalState (Snapshot3.solveStep r s)).

Lemma loop3_invariant v script s :
  I s → I (loopState (Snapshot3.solveAllLoop v script s)).
Proof.
  revert v s. induction script as [|t rest IH]; intros v s Hs.
  - cbn [Snapshot3.solveAllLoop].
    destruct (negb (truthy v) && negb (pauseRequested s)); exact Hs.
  - rewrite solveAllLoop3_cons.
    destruct (negb (truthy v) && negb (pauseRequested s)); [|exact Hs].
    apply IH. destruct (afterTurn3_fields s t) as (_ & _ & _ & S).
    apply (I_data _ _ (sameData_sym _ _ S)). by apply I_step.
Qed.

Lemma solveAll3_invariant script s :
  I s → I (reached (Snapshot3.solveAll script s)).
Proof.
  intros Hs. rewrite solveAll3_entered.
  assert (I (entered3 s)) as He.
  { apply (I_data s); [|exact Hs]. by repeat split. }
  pose proof (loop3_invariant (JBool false) script (entered3 s) He) as H.
  destruct (Snapshot3.solveAllLoop (JBool false) script (entered3 s))
    as [s' rest|msg s' rest|s']; simpl in H; cbv zeta; cbn [reached].
  - destruct (pauseRequested (set_pauseBtn_disabled true s'));
      (apply (I_data s'); [by repeat split|exact H]).
  - apply (I_data s'); [by repeat split|exact H].
  - exact H.
Qed.

End Third.

Section First.
Hypothesis I_step : ∀ r s, I s → I (finalState (Snapshot1.solveStep r s)).

Lemma loop1_invariant v script s :
  I s → I (loopState (Snapshot1.solveAllLoop v script s)).
Proof.
  revert v s. induction script as [|r rest IH]; intros v s Hs.
  - cbn [Snapshot1.solveAllLoop]. destruct (negb (truthy v)); exact Hs.
  - rewrite solveAllLoop1_cons. destruct (negb (truthy v)); [|exact Hs].
    apply IH. unfold afterTurn1. cbv beta iota delta [bind sleep exec].
    apply I_step. apply (I_data s); [|exact Hs]. by repeat split.
Qed.

Lemma solveAll1_invariant script s :
  I s → I (reached (Snapshot1.solveAll script s)).
Proof.
  intros Hs. rewrite solveAll1_entered.
  assert (I (entered1 s)) as He.
  { apply (I_data s); [|exact Hs]. by repeat split. }
  pose proof (loop1_invariant (JBool false) script (entered1 s) He) as H.
  destruct (Snapshot1.solveAllLoop (JBool false) script (entered1 s))
    as [s' rest|msg s' rest|s']; simpl in H; cbn [reached].
  - apply (I_data s'); [by repeat split|exact H].
  - apply (I_data s'); [by repeat split|exact H].
  - exact H.
Qed.

End First.
End Invariant.

Lemma foldl_numberAcross_identity (A A' : list Clue) (m : gmap string Z) :
  identity <$> A = identity <$> A' →
  foldl numberAcross m A = foldl numberAcross m A'.
Proof.
  revert A' m. induction A as [|a A IH]; intros [|a' A'] m H; try done.
  rewrite !fmap_cons in H. injection H as Hn Hs _ _ HA. cbn [foldl].
  rewrite (IH A' _ HA). f_equal. unfold numberAcross. by rewrite Hn, Hs.
Qed.

Lemma foldl_numberDown_identity (D D' : list Clue) (m : gmap string Z) :
  identity <$> D = identity <$> D' →
  foldl numberDown m D = foldl numberDown m D'.
Proof.
  revert D' m. induction D as [|d D IH]; intros [|d' D'] m H; try done.
  rewrite !fmap_cons in H. injection H as Hn Hs _ _ HD. cbn [foldl].
  rewrite (IH D' _ HD). f_equal. unfold numberDown. by rewrite Hn, Hs.
Qed.

Lemma numberingInSync_identity (s s' : Client) :
  cellNumbering s' = cellNumbering s →
  identity <$> acrossClues s' = identity <$> acrossClues s →
  identity <$> downClues s' = identity <$> downClues s →
  numberingInSync s → numberingInSync s'.
Proof.
  unfold numberingInSync. rewrite !createCellNumbering_map.
  intros -> HA HD ->.
  by rewrite (foldl_numberAcross_identity _ _ _ HA),
    (foldl_numberDown_identity _ _ _ HD).
Qed.

Lemma numberingInSync_data (s1 s2 : Client) :
  sameData s1 s2 → numberingInSync s1 → numberingInSync s2.
Proof.
  intros (_ & A & D & N & _). apply numberingInSync_identity; congruence.
Qed.

Lemma numberingInSync_step3 (r : Response StepData) (s : Client) :
  numberingInSync s → numberingInSync (finalState (Snapshot3.solveStep r s)).
Proof.
  destruct (settles r) as [[data ->]|[msg Hf]].
  - rewrite solveStep3_Ok. cbn [finalState].
    destruct (afterStep3_fields data s) as (_ & A & D & N & _).
    destruct (update3_identity (assigned_clues data) s) as [IA ID].
    apply numberingInSync_identity; congruence.
  - rewrite (solveStep3_fails r msg s Hf). cbn [finalState].
    by apply numberingInSync_identity.
Qed.

Lemma numberingInSync_step1 (r : Response StepData) (s : Client) :
  numberingInSync s → numberingInSync (finalState (Snapshot1.solveStep r s)).
Proof.
  destruct (settles r) as [[data ->]|[msg Hf]].
  - rewrite solveStep1_Ok. cbn [finalState].
    destruct (afterStep1_fields data s) as (_ & A & D & N & _).
    destruct (update1_identity (assigned_clues data) s) as [IA ID].
    apply numberingInSync_identity; congruence.
  - rewrite (solveStep1_fails r msg s Hf). cbn [finalState].
    by apply numberingInSync_identity.
Qed.

Lemma initFails_cases (r : Response InitData) :
  (∃ data, r = Ok data) ∨ (∃ msg, initFails r msg).
Proof.
  destruct r as [msg| |msg|data]; [right|right|right|left]; eexists;
    unfold initFails; eauto.
Qed.

Lemma initializePuzzle1_fails (r : Response InitData) (msg : string) (s : Client) :
  initFails r msg →
  sameData s (finalState (Snapshot1.initializePuzzle r s)).
Proof. intros [H|[[H ?]|H]]; subst; by repeat split. Qed.

Lemma initializePuzzle3_fails (r : Response InitData) (msg : string) (s : Client) :
  initFails r msg →
  let s' := finalState (Snapshot3.initializePuzzle r s) in
  gridData s' = gridData s ∧ cellNumbering s' = cellNumbering s
  ∧ crosswordGrid s' = crosswordGrid s.
Proof. intros [H|[[H ?]|H]]; subst; by repeat split. Qed.

(** X6: in the first snapshot the numbering map the client holds is, after
    any session from the loaded page, the map [createCellNumbering] would
    build from the clue lists it holds then: no handler changes a clue's
    number or start without rebuilding the map.  In the third snapshot the
    same holds for every session in which no [initializePuzzle] fails. *)
Theorem numbering_stays_in_sync :
  (∀ session, numberingInSync (foldl act1 initialClient session))
  ∧ (∀ session,
       Forall (λ a, initializeFails a = false) session →
       numberingInSync (foldl act3 initialClient session)).
Proof.
  split.
  - intros session. induction session as [|a session IH] using rev_ind;
      [reflexivity|].
    rewrite foldl_snoc. generalize dependent (foldl act1 initialClient session).
    intros s Hs. destruct a as [r|r|script]; cbn [act1].
    + destruct (initFails_cases r) as [[data ->]|[msg Hf]].
      * unfold numberingInSync. rewrite createCellNumbering_map.
        destruct (initializePuzzle1_ok data s) as (_ & _ & A & D & N & _).
        cbv zeta in *. by rewrite A, D, N.
      * exact (numberingInSync_data s _ (initializePuzzle1_fails r msg s Hf) Hs).
    + by apply numberingInSync_step1.
    + exact (solveAll1_invariant numberingInSync numberingInSync_data
               numberingInSync_step1 script s Hs).
  - intros session. induction session as [|a session IH] using rev_ind;
      [reflexivity|].
    intros H. destruct (proj1 (Forall_app _ _ _) H) as [Hs Ha].
    rewrite Forall_singleton in Ha. specialize (IH Hs).
    rewrite foldl_snoc. generalize dependent (foldl act3 initialClient session).
    intros s Hs'. destruct a as [r|r|script]; cbn [act3].
    + destruct r as [msg| |msg|data]; try discriminate Ha.
      unfold numberingInSync. rewrite createCellNumbering_map.
      destruct (initializePuzzle_ok data s) as (_ & _ & A & D & N & _).
      cbv zeta in *. by rewrite A, D, N.
    + by apply numberingInSync_step3.
    + exact (solveAll3_invariant numberingInSync numberingInSync_data
               numberingInSync_step3 script s Hs').
Qed.

Lemma numbering_stays_in_sync_sample :
  numberingInSync (foldl act3 initialClient sampleSession3).
Proof.
  apply (proj2 numbering_stays_in_sync). unfold sampleSession3.
  repeat (apply Forall_cons; split; [reflexivity|]). apply Forall_nil_2.
Defined.

Lemma initializePuzzle3_drawingInSync (data : InitData) (s : Client) :
  drawingInSync (finalState (Snapshot3.initializePuzzle (Ok data) s)).
Proof.
  pose proof (initializePuzzle_ok data s) as H. cbv zeta in H. revert H.
  generalize (finalState (Snapshot3.initializePuzzle (Ok data) s)).
  intros s' (_ & G & _ & _ & N & C). unfold drawingInSync.
  by rewrite G, C, N.
Qed.

Lemma initializePuzzle1_drawingInSync (data : InitData) (s : Client) :
  drawingInSync (finalState (Snapshot1.initializePuzzle (Ok data) s)).
Proof.
  pose proof (initializePuzzle1_ok data s) as H. cbv zeta in H. revert H.
  generalize (finalState (Snapshot1.initializePuzzle (Ok data) s)).
  intros s' (_ & G & _ & _ & _ & C). unfold drawingInSync.
  by rewrite G, C.
Qed.

Lemma drawingInSync_data (s1 s2 : Client) :
  sameData s1 s2 → drawingInSync s1 → drawingInSync s2.
Proof.
  unfold drawingInSync. intros (G & _ & _ & N & C & _). by rewrite G, N, C.
Qed.

Lemma drawingInSync_step3 (r : Response StepData) (s : Client) :
  drawingInSync s → drawingInSync (finalState (Snapshot3.solveStep r s)).
Proof.
  destruct (settles r) as [[data ->]|[msg Hf]].
  - intros _. rewrite solveStep3_Ok. cbn [finalState]. unfold drawingInSync.
    destruct (afterStep3_fields data s) as (G & _ & _ & N & C & _).
    cbv zeta in *. by rewrite G, N, C.
  - rewrite (solveStep3_fails r msg s Hf). cbn [finalState].
    apply drawingInSync_data. by repeat split.
Qed.

Lemma drawingInSync_step1 (r : Response StepData) (s : Client) :
  drawingInSync s → drawingInSync (finalState (Snapshot1.solveStep r s)).
Proof.
  destruct (settles r) as [[data ->]|[msg Hf]].
  - intros _. rewrite solveStep1_Ok. cbn [finalState]. unfold drawingInSync.
    destruct (afterStep1_fields data s) as (G & _ & _ & N & C & _).
    cbv zeta in *. by rewrite G, N, C.
  - rewrite (solveStep1_fails r msg s Hf). cbn [finalState].
    apply drawingInSync_data. by repeat split.
Qed.

Lemma drawingInSync_act1 (s : Client) (a : Action (Response StepData)) :
  drawingInSync s → drawingInSync (act1 s a).
Proof.
  intros Hs. destruct a as [r|r|script]; cbn [act1].
  - destruct (initFails_cases r) as [[data ->]|[msg Hf]].
    + apply initializePuzzle1_drawingInSync.
    + exact (drawingInSync_data s _ (initializePuzzle1_fails r msg s Hf) Hs).
  - by apply drawingInSync_step1.
  - exact (solveAll1_invariant drawingInSync drawingInSync_data
             drawingInSync_step1 script s Hs).
Qed.

Lemma drawingInSync_act3 (s : Client) (a : Action Snapshot3.Turn) :
  drawingInSync s → drawingInSync (act3 s a).
Proof.
  intros Hs. destruct a as [r|r|script]; cbn [act3].
  - destruct (initFails_cases r) as [[data ->]|[msg Hf]].
    + apply initializePuzzle3_drawingInSync.
    + destruct (initializePuzzle3_fails r msg s Hf) as (G & N & C).
      unfold drawingInSync in *. cbv zeta in *. by rewrite G, N, C.
  - by apply drawingInSync_step3.
  - exact (solveAll3_invariant drawingInSync drawingInSync_data
             drawingInSync_step3 script s Hs).
Qed.

(** X7: once [initializePuzzle] has succeeded, the grid element shows,
    after any further session and in both snapshots, the grid the client
    holds numbered by the map it holds, a failed request or a failed
    [initializePuzzle] included: every handler that assigns [gridData]
    draws it before it returns, and none touches the map without drawing. *)
Theorem drawing_stays_in_sync (data : InitData) (s0 : Client) :
  (∀ session,
     drawingInSync (foldl act1 s0 (Initialize (Ok data) :: session)))
  ∧ (∀ session,
       drawingInSync (foldl act3 s0 (Initialize (Ok data) :: session))).
Proof.
  split; intros session.
  - induction session as [|a session IH] using rev_ind.
    + apply initializePuzzle1_drawingInSync.
    + rewrite app_comm_cons, foldl_snoc. by apply drawingInSync_act1.
  - induction session as [|a session IH] using rev_ind.
    + apply initializePuzzle3_drawingInSync.
    + rewrite app_comm_cons, foldl_snoc. by apply drawingInSync_act3.
Qed.

(** ** What renderGrid draws *)

Lemma renderCell_letter m r c cell t :
  is_black cell = false → holdsLetter cell t →
  renderCell m r c cell = mkCellElement ["cell"; "filled"] [TextNode t].
Proof.
  intros Hw (Hc & Hne & Hstar). unfold renderCell. rewrite Hw, Hc.
  cbn [truthyString]. destruct (String.eqb_spec t ""); [done|].
  rewrite bool_decide_eq_false_2 by congruence. cbn [negb andb].
  destruct (truthyNumber (m !! cellKey r c)); [destruct (m !! cellKey r c)|];
    reflexivity.
Qed.

Lemma renderCell_plain m r c cell :
  is_black cell = false → (¬ ∃ t, holdsLetter cell t) →
  renderCell m r c cell
  = mkCellElement ["cell"]
      match m !! cellKey r c with
      | Some n => if (n =? 0)%Z then [] else [NumberSpan n]
      | None => []
      end.
Proof.
  intros Hw Hno. unfold renderCell. rewrite Hw.
  assert (truthyString (char cell)
          && negb (bool_decide (char cell = Some "*")) = false) as ->.
  { destruct (char cell) as [u|] eqn:Hc; [|done]. cbn [truthyString].
    destruct (String.eqb_spec u ""); [done|].
    case_bool_decide as Hstar; [done|]. destruct Hno. exists u.
    unfold holdsLetter. split_and!; [done..|]. intros ->. done. }
  destruct (m !! cellKey r c) as [n|]; [|reflexivity].
  cbn [truthyNumber]. by destruct (n =? 0)%Z.
Qed.

(** X8: the element [renderGrid] makes for a cell has one of three shapes,
    whatever the numbering map: a black cell gets the classes cell and
    black and no child; a white cell that holds a letter gets cell and
    filled and the letter as its only child, its number span is gone; any
    other white cell gets the class cell alone and, as its only child, the
    number of the cell if the map has one that is not 0. *)
Theorem renderCell_shapes (m : gmap string Z) (r c : nat) (cell : Cell) :
  (is_black cell = true →
   renderCell m r c cell = mkCellElement ["cell"; "black"] [])
  ∧ (∀ t, is_black cell = false → holdsLetter cell t →
          renderCell m r c cell
          = mkCellElement ["cell"; "filled"] [TextNode t])
  ∧ (is_black cell = false → (¬ ∃ t, holdsLetter cell t) →
     renderCell m r c cell
     = mkCellElement ["cell"]
         match m !! cellKey r c with
         | Some n => if (n =? 0)%Z then [] else [NumberSpan n]
         | None => []
         end).
Proof.
  split_and!.
  - apply renderCell_black.
  - intros t. apply renderCell_letter.
  - apply renderCell_plain.
Qed.

Lemma renderCell_shapes_sample :
  let m : gmap string Z := {[ "0-0" := 1%Z ]} in
  renderCell m 0 0 black = mkCellElement ["cell"; "black"] []
  ∧ renderCell m 0 0 (white (Some "C"))
    = mkCellElement ["cell"; "filled"] [TextNode "C"]
  ∧ renderCell m 0 0 (white (Some "*"))
    = mkCellElement ["cell"] [NumberSpan 1].
Proof.
  intros m.
  destruct (renderCell_shapes m 0 0 black) as (Hb & _ & _).
  destruct (renderCell_shapes m 0 0 (white (Some "C"))) as (_ & Hl & _).
  destruct (renderCell_shapes m 0 0 (white (Some "*"))) as (_ & _ & Hp).
  split_and!.
  - apply Hb. reflexivity.
  - apply Hl; [reflexivity|]. by split_and!.
  - rewrite Hp; [reflexivity|reflexivity|].
    intros (t & [= <-] & _ & Hstar). by apply Hstar.
Defined.

Lemma length_rendered {B} (F : nat → nat → Cell → B) (g : Grid) :
  length (concat (imap (λ i, imap (F i)) g)) = length (concat g).
Proof.
  revert F. induction g as [|row g IH]; intros F; [done|].
  rewrite imap_cons. cbn [concat]. rewrite !length_app, length_imap.
  f_equal. apply (IH (λ i, F (S i))).
Qed.

(** X9: on a client that holds a grid, [renderGrid] leaves one element per
    cell of the grid, rows of any lengths; the column template becomes the
    length of the first row alone when that row has a cell, and is kept as
    it was when the first row is empty or the grid has no row; nothing but
    the grid element and the template is written; and a second call changes
    nothing more. *)
Theorem renderGrid_one_element_per_cell (s : Client) (g : Grid) :
  gridData s = Some g →
  let s' := finalState (renderGrid s) in
  length (crosswordGrid s') = length (concat g)
  ∧ (∀ row0 rows, g = row0 :: rows → row0 ≠ [] →
       gridTemplateColumns s' = Some (length row0))
  ∧ (g = [] ∨ (∃ rows, g = [] :: rows) →
       gridTemplateColumns s' = gridTemplateColumns s)
  ∧ s' = set_crosswordGrid (crosswordGrid s')
           (set_gridTemplateColumns (gridTemplateColumns s') s)
  ∧ finalState (renderGrid s') = s'.
Proof.
  intros Hg s'. subst s'. rewrite (renderGrid_drawn s g Hg). cbn [finalState].
  assert (gridData (drawn g s) = Some g) as Hg' by (by destruct g).
  rewrite (renderGrid_drawn _ g Hg'). cbn [finalState].
  split_and!.
  - unfold drawn. cbn. apply length_rendered.
  - intros row0 rows -> Hrow. by destruct row0.
  - by intros [->|[rows ->]].
  - by destruct s, g as [|[|cell row0] rows].
  - by destruct s, g as [|[|cell row0] rows].
Qed.

Lemma renderGrid_one_element_per_cell_sample :
  let s' := finalState (renderGrid (set_gridData (Some sampleFilledGrid)
                                      sampleClient)) in
  length (crosswordGrid s') = 9
  ∧ gridTemplateColumns s' = Some 3
  ∧ finalState (renderGrid s') = s'.
Proof.
  destruct (renderGrid_one_element_per_cell
              (set_gridData (Some sampleFilledGrid) sampleClient)
              sampleFilledGrid eq_refl) as (L & W & _ & _ & I).
  split_and!; [exact L|by apply (W _ _ eq_refl)|exact I].
Defined.

(** ** Solve Step of the second snapshot *)

Lemma solveStep2_Ok_fields (data : StepData) (s : Client) :
  let s' := finalState (Snapshot2.solveStep (Ok data) s) in
  let t := taken2 data s in
  returned (Snapshot2.solveStep (Ok data) s) = Some tt
  ∧ sameData s' t
  ∧ traffic s' = traffic t
  ∧ solveAllBtn_disabled s' = solveAllBtn_disabled t
  ∧ solveStepBtn_disabled s' = allAssigned t || solveStepBtn_disabled t
  ∧ statusClass s'
    = (if allAssigned t then
         match solved data with
         | JBool true => classList_add "correct" (statusClass t)
         | JBool false => classList_add "incorrect" (statusClass t)
         | _ => statusClass t
         end
       else statusClass t).
Proof.
  intros s' t. subst s' t.
  cbv beta iota delta [Snapshot2.solveStep tryCatch bind exec fetchJson ret].
  rewrite (renderGrid_drawn _ (step_grid data)).
  2:{ unfold Snapshot2.updateCluesWithAssignments. rewrite update1_frame.
      reflexivity. }
  change (drawn (step_grid data) _) with (taken2 data s).
  generalize (taken2 data s). intros t. unfold sameData, allAssigned.
  destruct (truthyString (message data)), (truthy (progress data)); simpl;
    destruct (everyAssigned (acrossClues t) && everyAssigned (downClues t));
    try destruct (solved data) as [| |[]]; simpl; by split_and!.
Qed.

Lemma taken2_fields (data : StepData) (s : Client) :
  let t := taken2 data s in
  solveStepBtn_disabled t = solveStepBtn_disabled s
  ∧ solveAllBtn_disabled t = solveAllBtn_disabled s
  ∧ statusClass t = [].
Proof.
  intros t. subst t.
  unfold taken2, drawn, Snapshot2.updateCluesWithAssignments.
  rewrite update1_frame. by split_and!.
Qed.

Lemma solveStep2_fails (r : Response StepData) (msg : string) (s : Client) :
  requestFails r msg →
  Snapshot2.solveStep r s
  = Returned tt (set_statusText ("Error: " +:+ msg) (requested s)).
Proof. intros [H|[[H ?]|H]]; subst; reflexivity. Qed.

(** X10: for every reply and every client, [solveStep] of the second
    snapshot returns and leaves the puzzle data and the network log that
    [solveStep] of the first snapshot leaves.  It differs in the buttons and
    the styling: it never touches the Solve All button, it disables the
    Solve Step button exactly when every clue of both lists has an answer
    after the update, and only then styles the status, by [solved]. *)
Theorem solveStep2_agrees_with_solveStep1
    (r : Response StepData) (s : Client) :
  let o2 := Snapshot2.solveStep r s in
  let s2 := finalState o2 in
  let s1 := finalState (Snapshot1.solveStep r s) in
  returned o2 = Some tt
  ∧ sameData s2 s1
  ∧ traffic s2 = traffic s1
  ∧ solveAllBtn_disabled s2 = solveAllBtn_disabled s
  ∧ solveStepBtn_disabled s2
    = match r with Ok _ => allAssigned s2 | _ => false end
      || solveStepBtn_disabled s
  ∧ statusClass s2
    = match r with
      | Ok data =>
          if allAssigned s2 then
            match solved data with
            | JBool true => ["correct"]
            | JBool false => ["incorrect"]
            | _ => []
            end
          else []
      | _ => []
      end.
Proof.
  intros o2 s2 s1. subst o2 s2 s1.
  destruct (settles r) as [[data ->]|[msg Hf]].
  - destruct (solveStep2_Ok_fields data s) as (R & S & T & BA & BS & C).
    destruct (taken2_fields data s) as (TS & TA & TC).
    cbv zeta in *. rewrite solveStep1_Ok. cbn [finalState].
    change (afterStep1 data s) with (announce data (taken2 data s)).
    destruct (announce_fields data (taken2 data s))
      as (G' & A' & D' & N' & C' & W' & _ & _ & T' & _).
    cbv zeta in *.
    assert (allAssigned (finalState (Snapshot2.solveStep (Ok data) s))
            = allAssigned (taken2 data s)) as EA.
    { destruct S as (_ & A & D & _). unfold allAssigned. by rewrite A, D. }
    rewrite R, T, T', BA, BS, C, EA, TS, TA, TC.
    split_and!; try reflexivity.
    apply (sameData_trans _ _ _ S). unfold sameData.
    by rewrite G', A', D', N', C', W'.
  - rewrite (solveStep2_fails r msg s Hf), (solveStep1_fails r msg s Hf).
    cbn [finalState returned].
    destruct Hf as [H|[[H _]|H]]; subst r; split_and!;
      try reflexivity; apply sameData_refl.
Qed.

(** ** Errors inside a run of Solve All *)

Lemma solveAllLoop2_app (pre more : list (Response StepData)) (b : bool)
    (s s1 : Client) :
  Snapshot2.solveAllLoop b pre s = Starved s1 →
  Snapshot2.solveAllLoop b (pre ++ more) s
  = Snapshot2.solveAllLoop false more s1.
Proof.
  revert b s. induction pre as [|r pre IH]; intros b s H.
  - rewrite app_nil_l. cbn [Snapshot2.solveAllLoop] in H.
    destruct b; cbn [negb] in H; [discriminate H|]. by injection H as ->.
  - rewrite <- app_comm_cons. cbn [Snapshot2.solveAllLoop] in H |- *.
    destruct (negb b); [|discriminate H].
    destruct (Snapshot2.solveAllBody r s) as [b' s'|msg s'];
      [by apply IH|discriminate H].
Qed.

Lemma solveAllBody2_fails (r : Response StepData) (msg : string) (s : Client) :
  requestFails r msg →
  Snapshot2.solveAllBody r s
  = Thrown msg
      (emit (Settled "/api/solve_step")
         (emit (Request "/api/solve_step") (emit (Timer 500) s))).
Proof. intros [H|[[H ?]|H]]; subst; reflexivity. Qed.

(** X11: in the second snapshot a request that fails inside a run of
    [solveAll] ends the run: the loop has no handler of its own, so the
    error reaches the [catch] of [solveAll], which shows it and enables
    both solve buttons again; the puzzle data is that of before the turn
    and the replies that follow are not asked for. *)
Theorem solveAll2_failure_ends_run
    (pre : list (Response StepData)) (r : Response StepData)
    (rest : list (Response StepData)) (msg : string) (s s1 : Client) :
  requestFails r msg →
  Snapshot2.solveAll pre s = Pending s1 →
  let s' := reached (Snapshot2.solveAll (pre ++ r :: rest) s) in
  Snapshot2.solveAll (pre ++ r :: rest) s = Finished s' rest
  ∧ sameData s' s1
  ∧ statusText s' = "Error: " +:+ msg
  ∧ solveStepBtn_disabled s' = false
  ∧ solveAllBtn_disabled s' = false
  ∧ traffic s' = traffic s1 ++ turns 500 1.
Proof.
  intros Hf Hpre. unfold Snapshot2.solveAll in *. cbv zeta in *.
  destruct (Snapshot2.solveAllLoop false pre _) as [?|?|s2] eqn:EL;
    try discriminate Hpre.
  injection Hpre as ->.
  rewrite (solveAllLoop2_app pre (r :: rest) false _ s1 EL).
  cbn [Snapshot2.solveAllLoop negb].
  rewrite (solveAllBody2_fails r msg s1 Hf). cbn [reached].
  unfold sameData, emit, turns. simpl. rewrite <- !app_assoc.
  by split_and!.
Qed.

Lemma solveAll2_failure_ends_run_sample :
  let s1 := reached (Snapshot2.solveAll [Ok forwardStep] sampleClient) in
  let s' := reached (Snapshot2.solveAll [Ok forwardStep; HttpError; Ok completeStep]
                       sampleClient) in
  Snapshot2.solveAll [Ok forwardStep; HttpError; Ok completeStep] sampleClient
  = Finished s' [Ok completeStep]
  ∧ sameData s' s1
  ∧ statusText s' = "Error: Failed to solve step"
  ∧ solveStepBtn_disabled s' = false
  ∧ solveAllBtn_disabled s' = false
  ∧ traffic s' = traffic s1 ++ turns 500 1.
Proof.
  apply (solveAll2_failure_ends_run [Ok forwardStep] HttpError [Ok completeStep]
           "Failed to solve step" sampleClient).
  - right. left. split; reflexivity.
  - vm_compute. reflexivity.
Defined.

(** X12: [solveStep] of the first and of the third snapshot returns for
    every reply, with [data.solved] or, from its [catch], with [false]; it
    never throws.  So no exception ever leaves the loop of [solveAll] in
    these snapshots: the [catch] of [solveAll] (lines 229-235 and 792-797)
    is never entered, whatever the replies and the pause clicks. *)
Theorem solveAll_catch_is_never_entered :
  (∀ r s, returned (Snapshot1.solveStep r s) = Some (stepResult r))
  ∧ (∀ r s, returned (Snapshot3.solveStep r s) = Some (stepResult r))
  ∧ (∀ v script s msg s' rest,
       Snapshot1.solveAllLoop v script s ≠ Escaped msg s' rest)
  ∧ (∀ v script s msg s' rest,
       Snapshot3.solveAllLoop v script s ≠ Escaped msg s' rest).
Proof.
  split_and!.
  - intros r s. by rewrite solveStep1_returned.
  - intros r s. by rewrite solveStep3_returned.
  - intros v script s.
    destruct (loop1_traffic v script s) as (_ & _ & _ & H). exact H.
  - intros v script s.
    destruct (loop3_traffic v script s) as (_ & _ & _ & H). exact H.
Qed.

(** ** The buttons around a run of Solve All *)

Lemma solveStep3_buttons (r : Response StepData) (s : Client) :
  solveStepBtn_disabled s = true → solveAllBtn_disabled s = true →
  solveStepBtn_disabled (finalState (Snapshot3.solveStep r s)) = true
  ∧ solveAllBtn_disabled (finalState (Snapshot3.solveStep r s)) = true.
Proof.
  intros HS HA. destruct (settles r) as [[data ->]|[msg Hf]].
  - rewrite solveStep3_Ok. cbn [finalState].
    destruct (afterStep3_fields data s)
      as (_ & _ & _ & _ & _ & _ & _ & _ & _ & _ & _ & BS & BA).
    rewrite BS, BA, HS, HA. by destruct (looseTrue (solved data)).
  - rewrite (solveStep3_fails r msg s Hf). by cbn.
Qed.

Lemma solveStep1_buttons (r : Response StepData) (s : Client) :
  solveStepBtn_disabled s = true → solveAllBtn_disabled s = true →
  solveStepBtn_disabled (finalState (Snapshot1.solveStep r s)) = true
  ∧ solveAllBtn_disabled (finalState (Snapshot1.solveStep r s)) = true.
Proof.
  intros HS HA. destruct (settles r) as [[data ->]|[msg Hf]].
  - rewrite solveStep1_Ok. cbn [finalState].
    destruct (afterStep1_fields data s)
      as (_ & _ & _ & _ & _ & _ & _ & _ & _ & _ & _ & BS & BA).
    rewrite BS, BA, HS, HA. by destruct (looseTrue (solved data)).
  - rewrite (solveStep1_fails r msg s Hf). by cbn.
Qed.

Lemma loop1_buttons v script s :
  solveStepBtn_disabled s = true → solveAllBtn_disabled s = true →
  let s' := loopState (Snapshot1.solveAllLoop v script s) in
  solveStepBtn_disabled s' = true ∧ solveAllBtn_disabled s' = true.
Proof.
  revert v s. induction script as [|r rest IH]; intros v s HS HA.
  - cbn [Snapshot1.solveAllLoop]. by destruct (negb (truthy v)).
  - rewrite solveAllLoop1_cons. destruct (negb (truthy v)); [|done].
    unfold afterTurn1. cbv beta iota delta [bind sleep exec].
    destruct (solveStep1_buttons r (emit (Timer 500) s) HS HA) as [HS' HA'].
    by apply IH.
Qed.

Lemma loop3_buttons v script s :
  solveStepBtn_disabled s = true → solveAllBtn_disabled s = true →
  pauseBtn_disabled s = false →
  match Snapshot3.solveAllLoop v script s with
  | Exited s' _ =>
      solveStepBtn_disabled s' = true ∧ solveAllBtn_disabled s' = true
  | Starved s' =>
      solveStepBtn_disabled s' = true ∧ solveAllBtn_disabled s' = true
      ∧ pauseBtn_disabled s' = false ∧ pauseRequested s' = false
  | Escaped _ _ _ => False
  end.
Proof.
  revert v s. induction script as [|t rest IH]; intros v s HS HA HP.
  - cbn [Snapshot3.solveAllLoop].
    destruct (negb (truthy v)); cbn [andb]; [|done].
    by destruct (pauseRequested s) eqn:E.
  - rewrite solveAllLoop3_cons.
    destruct (negb (truthy v) && negb (pauseRequested s)); [|done].
    destruct (afterTurn3_fields s t) as (_ & HP' & _ & _).
    apply IH; [| |congruence].
    + unfold afterTurn3. cbv beta iota delta [bind sleep exec].
      apply solveStep3_buttons;
        destruct (Snapshot3.pauseClicked t); try done;
        unfold Snapshot3.clickPause; by destruct (pauseBtn_disabled _).
    + unfold afterTurn3. cbv beta iota delta [bind sleep exec].
      apply solveStep3_buttons;
        destruct (Snapshot3.pauseClicked t); try done;
        unfold Snapshot3.clickPause; by destruct (pauseBtn_disabled _).
Qed.

(** X13: how [solveAll] leaves the buttons, for every script and client.
    First snapshot: both solve buttons are disabled while the run waits and
    when it has returned.  Third snapshot: while the run waits the solve
    buttons are disabled and Pause is enabled; when it has returned Pause
    is disabled, and the two solve buttons are enabled again exactly when
    the run was paused, with the status text Paused, also when the step of
    that last turn had solved the puzzle. *)
Theorem solveAll_buttons :
  (∀ script s,
     let s' := reached (Snapshot1.solveAll script s) in
     solveStepBtn_disabled s' = true ∧ solveAllBtn_disabled s' = true)
  ∧ (∀ script s,
       match Snapshot3.solveAll script s with
       | Finished s' _ =>
           pauseBtn_disabled s' = true
           ∧ solveStepBtn_disabled s' = negb (pauseRequested s')
           ∧ solveAllBtn_disabled s' = negb (pauseRequested s')
           ∧ (if pauseRequested s' then statusText s' = "Paused." else True)
       | Pending s' =>
           pauseBtn_disabled s' = false ∧ pauseRequested s' = false
           ∧ solveStepBtn_disabled s' = true ∧ solveAllBtn_disabled s' = true
       end).
Proof.
  split; intros script s.
  - rewrite solveAll1_entered.
    pose proof (loop1_buttons (JBool false) script (entered1 s)
                  eq_refl eq_refl) as H.
    destruct (loop1_traffic (JBool false) script (entered1 s))
      as (_ & _ & _ & E).
    destruct (Snapshot1.solveAllLoop (JBool false) script (entered1 s))
      as [s' rest|msg s' rest|s']; cbv zeta in H; cbn [loopState] in H;
      cbn [reached].
    + by destruct H.
    + by destruct (E msg s' rest).
    + exact H.
  - rewrite solveAll3_entered.
    pose proof (loop3_buttons (JBool false) script (entered3 s)
                  eq_refl eq_refl eq_refl) as H.
    destruct (Snapshot3.solveAllLoop (JBool false) script (entered3 s))
      as [s' rest|msg s' rest|s']; [|done|].
    + destruct H as [HS HA]. cbv zeta.
      destruct s'. simpl in *. subst.
      destruct pauseRequested0; simpl; by split_and!.
    + destruct H as (HS & HA & HP & HR). by split_and!.
Qed.

(** ** The clue lists on the page *)

Lemma item_id_clueItem1 (prefix : string) (c : Clue) :
  item_id (Snapshot1.clueItem prefix c) = prefix +:+ pretty (number c).
Proof. unfold Snapshot1.clueItem. by destruct (truthyString (assigned c)). Qed.

Lemma item_id_clueItem3 showNumber (prefix : string) (c : Clue) :
  item_id (Snapshot3.clueItem showNumber prefix c)
  = prefix +:+ pretty (number c).
Proof. unfold Snapshot3.clueItem. by destruct (truthyString (assigned c)). Qed.

Lemma item_classes_clueItem1 (prefix : string) (c : Clue) :
  item_classes (Snapshot1.clueItem prefix c)
  = if truthyString (assigned c) then ["solved"] else [].
Proof. unfold Snapshot1.clueItem. by destruct (truthyString (assigned c)). Qed.

Lemma item_classes_clueItem3 showNumber (prefix : string) (c : Clue) :
  item_classes (Snapshot3.clueItem showNumber prefix c)
  = if truthyString (assigned c) then ["solved"] else [].
Proof. unfold Snapshot3.clueItem. by destruct (truthyString (assigned c)). Qed.

Lemma NoDup_ids (ida idd : list string) (A D : list Clue) :
  ida = (λ c, "across-" +:+ pretty (number c)) <$> A →
  idd = (λ c, "down-" +:+ pretty (number c)) <$> D →
  NoDup (number <$> A) → NoDup (number <$> D) → NoDup (ida ++ idd).
Proof.
  intros -> -> HA HD. apply NoDup_app. split_and!.
  - replace ((λ c, "across-" +:+ pretty (number c)) <$> A)
      with ((λ n, "across-" +:+ pretty n) <$> (number <$> A))
      by (by rewrite <- list_fmap_compose).
    apply NoDup_fmap_2; [|exact HA].
    intros n1 n2 H. by simplify_eq.
  - intros x (a & -> & _)%list_elem_of_fmap (d & Hd & _)%list_elem_of_fmap.
    discriminate Hd.
  - replace ((λ c, "down-" +:+ pretty (number c)) <$> D)
      with ((λ n, "down-" +:+ pretty n) <$> (number <$> D))
      by (by rewrite <- list_fmap_compose).
    apply NoDup_fmap_2; [|exact HD].
    intros n1 n2 H. by simplify_eq.
Qed.

(** X14: when no two clues of a list have the same number, [renderClues]
    gives every list item of the page an id of its own, in both snapshots:
    the ids of a list differ by the number, and an across id never equals a
    down id. *)
Theorem renderClues_ids_distinct (showNumber : Q → string) (s : Client) :
  NoDup (number <$> acrossClues s) → NoDup (number <$> downClues s) →
  NoDup (item_id <$> (Snapshot1.renderClues s).1 ++ (Snapshot1.renderClues s).2)
  ∧ NoDup (item_id <$> (Snapshot3.renderClues showNumber s).1
                       ++ (Snapshot3.renderClues showNumber s).2).
Proof.
  intros HA HD. unfold Snapshot1.renderClues, Snapshot3.renderClues.
  cbn [fst snd]. rewrite !fmap_app, <- !list_fmap_compose. split.
  - apply (NoDup_ids _ _ (acrossClues s) (downClues s)); [..|done|done];
      apply list_fmap_ext; intros i c _; apply item_id_clueItem1.
  - apply (NoDup_ids _ _ (acrossClues s) (downClues s)); [..|done|done];
      apply list_fmap_ext; intros i c _; apply item_id_clueItem3.
Qed.

Lemma renderClues_ids_distinct_sample :
  NoDup (item_id <$> (Snapshot1.renderClues sampleClient).1
                     ++ (Snapshot1.renderClues sampleClient).2)
  ∧ NoDup (item_id <$> (Snapshot3.renderClues (λ _, "0.5") sampleClient).1
                       ++ (Snapshot3.renderClues (λ _, "0.5") sampleClient).2).
Proof.
  apply (renderClues_ids_distinct (λ _, "0.5") sampleClient).
  - apply (bool_decide_unpack _). vm_compute. exact I.
  - apply (bool_decide_unpack _). vm_compute. exact I.
Defined.

(** X15: after a successful [initializePuzzle] of the third snapshot
    [renderClues] draws every clue of the response as a plain item, with
    number, text and length, no solved class, no answer and no confidence,
    whatever answers the clues of the response carry.  After that of the
    first snapshot a clue that comes with an answer is drawn as solved. *)
Theorem renderClues_after_initializePuzzle
    (showNumber : Q → string) (data : InitData) (s : Client) :
  Snapshot3.renderClues showNumber
    (finalState (Snapshot3.initializePuzzle (Ok data) s))
  = (newClueItem "across-" <$> across_clues data,
     newClueItem "down-" <$> down_clues data)
  ∧ Forall2 (marks "across-" assigned) (across_clues data)
      (Snapshot1.renderClues
         (finalState (Snapshot1.initializePuzzle (Ok data) s))).1
  ∧ Forall2 (marks "down-" assigned) (down_clues data)
      (Snapshot1.renderClues
         (finalState (Snapshot1.initializePuzzle (Ok data) s))).2.
Proof.
  destruct (initializePuzzle_ok data s) as (_ & _ & A & D & _).
  destruct (initializePuzzle1_ok data s) as (_ & _ & A1 & D1 & _).
  cbv zeta in *.
  unfold Snapshot3.renderClues, Snapshot1.renderClues. cbn [fst snd].
  rewrite A, D, A1, D1, <- !list_fmap_compose. split_and!.
  - reflexivity.
  - apply Forall2_fmap_r, Forall_Forall2_diag, Forall_forall. intros c _.
    split; [apply item_id_clueItem1|apply item_classes_clueItem1].
  - apply Forall2_fmap_r, Forall_Forall2_diag, Forall_forall. intros c _.
    split; [apply item_id_clueItem1|apply item_classes_clueItem1].
Qed.

Lemma replay1_answerAfter (dir : string) (l : list Assignment) (c : Clue) :
  let c' := replay Snapshot1.assign c (filter (addressedTo dir (number c)) l) in
  number c' = number c ∧ assigned c' = answerAfter dir l c.
Proof.
  intros c'. pose proof (replay1_updatedAs dir l c) as H. fold c' in H.
  unfold updatedAs, answerAfter in *.
  destruct (lastAddressed dir (number c) l) as [a|].
  - by destruct H as (? & _ & _ & _ & ? & _).
  - by rewrite H.
Qed.

Lemma replay3_answerAfter (dir : string) (l : list Assignment) (c : Clue) :
  let c' := replay Snapshot3.assign c (filter (addressedTo dir (number c)) l) in
  number c' = number c ∧ assigned c' = answerAfter dir l c.
Proof.
  intros c'. pose proof (replay3_updatedAs dir l c) as H. fold c' in H.
  unfold updatedAs, answerAfter in *.
  destruct (lastAddressed dir (number c) l) as [a|].
  - by destruct H as (? & _ & _ & _ & ? & _).
  - by rewrite H.
Qed.

(** X16: what [renderClues] draws after [updateCluesWithAssignments], on
    clue lists with unique numbers and a payload of A and D entries: the
    items keep their places and ids, and an item is marked solved exactly
    when the last entry addressed to its clue carries a non-empty answer,
    or no entry is addressed to it and it had one.  An entry without an
    answer, as a backtracking step sends, takes the mark away. *)
Theorem renderClues_after_update
    (showNumber : Q → string) (l : list Assignment) (s : Client) :
  NoDup (number <$> acrossClues s) →
  NoDup (number <$> downClues s) →
  wellDirected l →
  let s1 := Snapshot1.updateCluesWithAssignments (Some l) s in
  let s3 := Snapshot3.updateCluesWithAssignments (Some l) s in
  (Forall2 (marks "across-" (answerAfter "A" l)) (acrossClues s)
     (Snapshot1.renderClues s1).1
   ∧ Forall2 (marks "down-" (answerAfter "D" l)) (downClues s)
       (Snapshot1.renderClues s1).2)
  ∧ (Forall2 (marks "across-" (answerAfter "A" l)) (acrossClues s)
       (Snapshot3.renderClues showNumber s3).1
     ∧ Forall2 (marks "down-" (answerAfter "D" l)) (downClues s)
         (Snapshot3.renderClues showNumber s3).2).
Proof.
  intros HA HD Hdir s1 s3. subst s1 s3.
  unfold Snapshot1.renderClues, Snapshot3.renderClues. cbn [fst snd].
  cbn [Snapshot1.updateCluesWithAssignments Snapshot3.updateCluesWithAssignments].
  change Snapshot1.applyAssignment with (applyAssignmentWith Snapshot1.assign).
  change Snapshot3.applyAssignment with (applyAssignmentWith Snapshot3.assign).
  destruct (foldl_applyAssignmentWith Snapshot1.assign (λ _ _, eq_refl)
              s l HA HD Hdir) as (_ & A1 & D1).
  destruct (foldl_applyAssignmentWith Snapshot3.assign (λ _ _, eq_refl)
              s l HA HD Hdir) as (_ & A3 & D3).
  cbv zeta in *. rewrite A1, D1, A3, D3, <- !list_fmap_compose.
  split_and!; apply Forall2_fmap_r, Forall_Forall2_diag, Forall_forall;
    intros c _; unfold marks, compose.
  - destruct (replay1_answerAfter "A" l c) as [N E].
    by rewrite item_id_clueItem1, item_classes_clueItem1, N, E.
  - destruct (replay1_answerAfter "D" l c) as [N E].
    by rewrite item_id_clueItem1, item_classes_clueItem1, N, E.
  - destruct (replay3_answerAfter "A" l c) as [N E].
    by rewrite item_id_clueItem3, item_classes_clueItem3, N, E.
  - destruct (replay3_answerAfter "D" l c) as [N E].
    by rewrite item_id_clueItem3, item_classes_clueItem3, N, E.
Qed.

Lemma renderClues_after_update_sample :
  let l := samplePayload ++ [mkAssignment 2 "D" None None] in
  let s1 := Snapshot1.updateCluesWithAssignments (Some l) sampleClient in
  let s3 := Snapshot3.updateCluesWithAssignments (Some l) sampleClient in
  (Forall2 (marks "across-" (answerAfter "A" l)) sampleAcross
     (Snapshot1.renderClues s1).1
   ∧ Forall2 (marks "down-" (answerAfter "D" l)) sampleDown
       (Snapshot1.renderClues s1).2)
  ∧ (Forall2 (marks "across-" (answerAfter "A" l)) sampleAcross
       (Snapshot3.renderClues (λ _, "0.9") s3).1
     ∧ Forall2 (marks "down-" (answerAfter "D" l)) sampleDown
         (Snapshot3.renderClues (λ _, "0.9") s3).2).
Proof.
  apply (renderClues_after_update (λ _, "0.9")
           (samplePayload ++ [mkAssignment 2 "D" None None]) sampleClient).
  - apply (bool_decide_unpack _). vm_compute. exact I.
  - apply (bool_decide_unpack _). vm_compute. exact I.
  - unfold wellDirected, samplePayload. simpl.
    repeat (apply Forall_cons_2; [simpl; auto|]). apply Forall_nil_2.
Defined.

(** ** Clues that share a start cell *)

Lemma across_last (A : list Clue) (m : gmap string Z) (k : string) :
  foldl numberAcross m A !! k
  = match last (filter (λ c, startKey c = k) A) with
    | Some a => Some (number a)
    | None => m !! k
    end.
Proof.
  induction A as [|x A IH] using rev_ind; [done|].
  rewrite foldl_snoc, numberAcross_insert, filter_app.
  destruct (decide (startKey x = k)) as [Hk|Hk].
  - rewrite filter_cons_True, filter_nil by done.
    rewrite last_snoc, <- Hk. apply lookup_insert_eq.
  - rewrite filter_cons_False, filter_nil, app_nil_r by done.
    by rewrite lookup_insert_ne.
Qed.

Lemma down_first (D : list Clue) (m : gmap string Z) (k : string) :
  foldl numberDown m D !! k
  = if truthyNumber (m !! k) then m !! k
    else
      match filter (λ c, startKey c = k) D with
      | [] => m !! k
      | ds =>
          Some (default 0%Z (number <$> head (filter (λ d, number d ≠ 0%Z) ds)))
      end.
Proof.
  revert m. induction D as [|d D IH]; intros m.
  { cbn [foldl]. rewrite filter_nil. by destruct (truthyNumber (m !! k)). }
  cbn [foldl]. rewrite IH, numberDown_insert, filter_cons.
  case_decide as Hk.
  - rewrite Hk.
    destruct (truthyNumber (m !! k)) eqn:Em; [by rewrite Em|].
    rewrite lookup_insert_eq. cbn [truthyNumber]. rewrite filter_cons.
    destruct (Z.eqb_spec (number d) 0) as [Hz|Hz]; cbn [negb];
      case_decide as Hz'; try done.
    rewrite Hz. by destruct (filter (λ c, startKey c = k) D).
  - destruct (truthyNumber (m !! startKey d)); [done|].
    by rewrite lookup_insert_ne.
Qed.

(** X17: the number [createCellNumbering] leaves at a cell, for any clue
    lists, also with numbers 0 and with several clues starting at one cell:
    the last across clue starting there gives it, if its number is not 0;
    failing that the first down clue starting there whose number is not 0,
    and 0 if every down clue there has the number 0; with no clue starting
    at the cell the map has no entry. *)
Theorem createCellNumbering_precedence (s : Client) (k : string) :
  cellNumbering (createCellNumbering s) !! k
  = numberAt (acrossClues s) (downClues s) k.
Proof.
  rewrite createCellNumbering_map, down_first, across_last, lookup_empty.
  unfold numberAt. by destruct (last (filter _ (acrossClues s))).
Qed.

(** ** The third snapshot against the first *)

Lemma updateFound_sansConfidence (n : Z) (f g : Clue → Clue) (l l' : list Clue) :
  (∀ c c', sansConfidence c = sansConfidence c' →
           sansConfidence (f c) = sansConfidence (g c')) →
  sansConfidence <$> l = sansConfidence <$> l' →
  sansConfidence <$> updateFound n f l = sansConfidence <$> updateFound n g l'.
Proof.
  intros Hfg. revert l'. induction l as [|c l IH]; intros [|c' l'] H; try done.
  rewrite !fmap_cons in H. cbn [updateFound].
  assert (sansConfidence c = sansConfidence c') as Hc by congruence.
  assert (sansConfidence <$> l = sansConfidence <$> l') as Hl by congruence.
  assert (number c = number c') as -> by (unfold sansConfidence in Hc; congruence).
  destruct (number c' =? n)%Z; rewrite !fmap_cons.
  - by rewrite (Hfg c c' Hc), Hl.
  - by rewrite Hc, (IH l' Hl).
Qed.

Lemma update3_sansConfidence (p : option (list Assignment)) (s : Client) :
  sansConfidence <$> acrossClues (Snapshot3.updateCluesWithAssignments p s)
  = sansConfidence <$> acrossClues (Snapshot1.updateCluesWithAssignments p s)
  ∧ sansConfidence <$> downClues (Snapshot3.updateCluesWithAssignments p s)
    = sansConfidence <$> downClues (Snapshot1.updateCluesWithAssignments p s).
Proof.
  destruct p as [l|]; [|done].
  cbn [Snapshot3.updateCluesWithAssignments Snapshot1.updateCluesWithAssignments].
  induction l as [|a l IH] using rev_ind; [done|].
  rewrite !foldl_snoc. destruct IH as [IHA IHD].
  generalize dependent (foldl Snapshot3.applyAssignment s l).
  generalize dependent (foldl Snapshot1.applyAssignment s l).
  intros s1 s3 IHA IHD.
  assert (∀ c c', sansConfidence c = sansConfidence c' →
                  sansConfidence (Snapshot3.assign a c)
                  = sansConfidence (Snapshot1.assign a c')) as Hfg.
  { intros c c' H. unfold sansConfidence in *. simpl. congruence. }
  unfold Snapshot3.applyAssignment, Snapshot1.applyAssignment.
  destruct (String.eqb (a_direction a) "A"); destruct s1, s3;
    unfold set_acrossClues, set_downClues; cbn [acrossClues downClues] in *;
    (split; [|done]) || (split; [done|]);
    by apply updateFound_sansConfidence.
Qed.

(** X18: for every reply and client, [solveStep] of the third snapshot
    returns what that of the first returns and leaves the same client but
    for the clues' confidence: grid, numbering map, drawing, status, buttons
    and network log are equal, and the clue lists are equal once the
    confidence is taken off.  The answers shown are those of the first
    snapshot. *)
Theorem solveStep3_agrees_with_solveStep1
    (r : Response StepData) (s : Client) :
  let s3 := finalState (Snapshot3.solveStep r s) in
  let s1 := finalState (Snapshot1.solveStep r s) in
  returned (Snapshot3.solveStep r s) = returned (Snapshot1.solveStep r s)
  ∧ s3 = set_downClues (downClues s3) (set_acrossClues (acrossClues s3) s1)
  ∧ sansConfidence <$> acrossClues s3 = sansConfidence <$> acrossClues s1
  ∧ sansConfidence <$> downClues s3 = sansConfidence <$> downClues s1.
Proof.
  intros s3 s1. subst s3 s1.
  rewrite (solveStep3_returned r s), (solveStep1_returned r s).
  cbn [returned finalState]. split; [done|].
  destruct (settles r) as [[data ->]|[msg Hf]].
  - rewrite solveStep3_Ok, solveStep1_Ok. cbn [finalState].
    destruct (afterStep3_fields data s)
      as (G3 & A3 & D3 & N3 & C3 & W3 & P3 & B3 & T3 & K3 & X3 & S3 & L3).
    destruct (afterStep1_fields data s)
      as (G1 & A1 & D1 & N1 & C1 & W1 & P1 & B1 & T1 & K1 & X1 & S1 & L1).
    destruct (update3_sansConfidence (assigned_clues data) s) as [HA HD].
    split_and!.
    + apply client_ext; cbn; congruence.
    + by rewrite A3, A1.
    + by rewrite D3, D1.
  - rewrite (solveStep3_fails r msg s Hf), (solveStep1_fails r msg s Hf).
    cbn [finalState]. by split_and!.
Qed.

(** ** Where Solve All of the second snapshot stops *)

Lemma shown2_fields (data : StepData) (s : Client) :
  statusClass (shown2 data s) = statusClass s
  ∧ solveStepBtn_disabled (shown2 data s) = solveStepBtn_disabled s
  ∧ solveAllBtn_disabled (shown2 data s) = solveAllBtn_disabled s.
Proof.
  unfold shown2, showMessage, drawn, Snapshot2.updateCluesWithAssignments.
  rewrite update1_frame.
  by destruct (truthyString (message data)).
Qed.

Lemma loop2_waiting (b : bool) (pre : list (Response StepData)) (s s1 : Client) :
  Snapshot2.solveAllLoop b pre s = Starved s1 →
  statusClass s = [] → solveStepBtn_disabled s = true →
  solveAllBtn_disabled s = true →
  statusClass s1 = [] ∧ solveStepBtn_disabled s1 = true
  ∧ solveAllBtn_disabled s1 = true.
Proof.
  revert b s. induction pre as [|r pre IH]; intros b s H HC HS HA.
  - cbn [Snapshot2.solveAllLoop] in H.
    destruct (negb b); [|discriminate H]. by injection H as <-.
  - cbn [Snapshot2.solveAllLoop] in H.
    destruct (negb b); [|discriminate H].
    destruct (settles r) as [[data ->]|[msg Hf]].
    + rewrite solveAllBody2_Ok in H.
      destruct (allSolved2 data s).
      * destruct pre; discriminate H.
      * destruct (shown2_fields data s) as (C & S & A).
        apply (IH _ _ H); congruence.
    + rewrite (solveAllBody2_fails r msg s Hf) in H. discriminate H.
Qed.

(** X19: a turn of [solveAll] of the second snapshot whose request
    succeeds.  The run goes on to the next turn when, after the update,
    some clue has no answer and the reply reports progress; otherwise it
    returns with both solve buttons disabled and the puzzle data of the
    turn, and the status is styled correct only for [solved] true: every
    other value that is not undefined, null included, is styled
    incorrect. *)
Theorem solveAll2_stops_when_assigned_or_stuck
    (pre : list (Response StepData)) (data : StepData)
    (rest : list (Response StepData)) (s s1 : Client) :
  Snapshot2.solveAll pre s = Pending s1 →
  let run := Snapshot2.solveAll (pre ++ Ok data :: rest) s in
  allSolved2 data s1
  = (allAssigned (shown2 data s1) || negb (truthy (progress data)))
  ∧ (allSolved2 data s1 = false →
     Snapshot2.solveAll (pre ++ [Ok data]) s = Pending (shown2 data s1))
  ∧ (allSolved2 data s1 = true →
     run = Finished (reached run) rest
     ∧ sameData (reached run) (shown2 data s1)
     ∧ solveStepBtn_disabled (reached run) = true
     ∧ solveAllBtn_disabled (reached run) = true
     ∧ statusClass (reached run)
       = match solved data with
         | JUndefined => []
         | JBool true => ["correct"]
         | _ => ["incorrect"]
         end).
Proof.
  intros Hpre run. subst run. split; [reflexivity|].
  unfold Snapshot2.solveAll in *. cbv zeta in *.
  destruct (Snapshot2.solveAllLoop false pre _) as [?|?|s2] eqn:EL;
    try discriminate Hpre.
  injection Hpre as ->.
  destruct (loop2_waiting _ _ _ _ EL eq_refl eq_refl eq_refl) as (HC & HS & HA).
  destruct (shown2_fields data s1) as (C & S & A).
  rewrite !(solveAllLoop2_app pre _ false _ s1 EL).
  cbn [Snapshot2.solveAllLoop negb]. rewrite solveAllBody2_Ok.
  split; intros ->.
  - reflexivity.
  - assert (∀ script s0, Snapshot2.solveAllLoop true script s0 = Exited s0 script)
      as -> by (by intros [|? ?] ?).
    cbn [reached]. unfold sameData.
    destruct (solved data) as [| |[]]; simpl; rewrite ?C, ?S, ?A, ?HC, ?HS, ?HA;
      by split_and!.
Qed.

Lemma solveAll2_stops_when_assigned_or_stuck_sample :
  let s1 := reached (Snapshot2.solveAll [Ok forwardStep] sampleClient) in
  let run := Snapshot2.solveAll
               [Ok forwardStep; Ok backtrackStep; Ok completeStep]
               sampleClient in
  run = Finished (reached run) [Ok completeStep]
  ∧ sameData (reached run) (shown2 backtrackStep s1)
  ∧ solveStepBtn_disabled (reached run) = true
  ∧ solveAllBtn_disabled (reached run) = true
  ∧ statusClass (reached run) = ["incorrect"].
Proof.
  cbv zeta.
  destruct (solveAll2_stops_when_assigned_or_stuck [Ok forwardStep]
              backtrackStep [Ok completeStep] sampleClient
              (reached (Snapshot2.solveAll [Ok forwardStep] sampleClient)))
    as (_ & _ & H).
  - vm_compute. reflexivity.
  - apply H. vm_compute. reflexivity.
Defined.

(** * Handlers that overlap *)

(** ** The cut handlers against the handlers run in one piece *)

Lemma fetchJson_fetched {A} (url failure : string) (r : Response A) :
  fetchJson url failure r
  = (exec (emit (Request url)) >> exec (emit (Settled url)) >>
     fetched failure r).
Proof. reflexivity. Qed.

Lemma solveStep3_cut (r : Response StepData) (s : Client) :
  Snapshot3.solveStep r s
  = solveStep_resume handlers3 r
      (emit (Settled "/api/solve_step")
         (emit (Request "/api/solve_step") (solveStep_start handlers3 s))).
Proof.
  destruct r; [reflexivity..|].
  cbv beta iota delta [Snapshot3.solveStep Snapshot3.runSolveStep handlers3
                       solveStep_resume solveStep_start
                       tryCatch bind exec fetchJson fetched ret].
  reflexivity.
Qed.

Lemma solveStep1_cut (r : Response StepData) (s : Client) :
  Snapshot1.solveStep r s
  = solveStep_resume handlers1 r
      (emit (Settled "/api/solve_step")
         (emit (Request "/api/solve_step") (solveStep_start handlers1 s))).
Proof.
  destruct r; [reflexivity..|].
  cbv beta iota delta [Snapshot1.solveStep Snapshot1.runSolveStep handlers1
                       solveStep_resume solveStep_start
                       tryCatch bind exec fetchJson fetched ret].
  reflexivity.
Qed.

Lemma initializePuzzle3_cut (r : Response InitData) (s : Client) :
  Snapshot3.initializePuzzle r s
  = initializePuzzle_resume handlers3 r
      (emit (Settled "/api/initialize")
         (emit (Request "/api/initialize")
            (initializePuzzle_start handlers3 s))).
Proof.
  destruct r; [reflexivity..|].
  cbv beta iota delta [Snapshot3.initializePuzzle handlers3
                       initializePuzzle_resume initializePuzzle_start
                       tryCatch bind exec fetchJson fetched ret].
  reflexivity.
Qed.

Lemma initializePuzzle1_cut (r : Response InitData) (s : Client) :
  Snapshot1.initializePuzzle r s
  = initializePuzzle_resume handlers1 r
      (emit (Settled "/api/initialize")
         (emit (Request "/api/initialize")
            (initializePuzzle_start handlers1 s))).
Proof.
  destruct r; [reflexivity..|].
  cbv beta iota delta [Snapshot1.initializePuzzle handlers1
                       initializePuzzle_resume initializePuzzle_start
                       tryCatch bind exec fetchJson fetched ret].
  reflexivity.
Qed.

(** ** Logs *)

Lemma inFlight_app (l1 l2 : list NetEvent) :
  inFlight (l1 ++ l2) = (inFlight l1 + inFlight l2)%Z.
Proof. induction l1 as [|e l1 IH]; simpl; [done|]. rewrite IH. lia. Qed.

Lemma prefix_snoc_cases {A} (pre l : list A) (x : A) :
  pre `prefix_of` l ++ [x] → pre `prefix_of` l ∨ pre = l ++ [x].
Proof.
  intros [k Hk]. destruct k as [|y k _] using rev_ind.
  - right. by rewrite app_nil_r in Hk.
  - left. rewrite app_assoc in Hk. apply app_inj_tail in Hk as [-> _].
    by exists k.
Qed.

Lemma serialized_nil : serialized [].
Proof. intros pre ->%prefix_nil_inv. simpl. lia. Qed.

Lemma serialized_snoc (l : list NetEvent) (e : NetEvent) :
  serialized l → (0 ≤ inFlight (l ++ [e]) ≤ 1)%Z → serialized (l ++ [e]).
Proof.
  intros Hl He pre [Hpre| ->]%prefix_snoc_cases; [by apply Hl|done].
Qed.

Lemma serialized_inFlight (l : list NetEvent) :
  serialized l → (0 ≤ inFlight l ≤ 1)%Z.
Proof. intros Hl. by apply Hl. Qed.

Lemma own_snoc (id j : nat) (e : NetEvent) (p p' : Page) :
  wire p' = wire p ++ [(j, e)] →
  own id p' = own id p ++ (if decide (j = id) then [e] else []).
Proof.
  intros H. unfold own. rewrite H, filter_app, fmap_app, filter_cons.
  cbn [fst]. by case_decide.
Qed.

Lemma own_same (id : nat) (p p' : Page) :
  wire p' = wire p → own id p' = own id p.
Proof. intros H. unfold own. by rewrite H. Qed.

Lemma unanswered_bounds (w : option Waiting) : (0 ≤ unanswered w ≤ 1)%Z.
Proof. destruct w as [[]|]; simpl; lia. Qed.

(** ** Every handler keeps its own requests apart *)

Lemma tidy_loaded : tidy loaded.
Proof.
  unfold tidy, own, loaded. cbn [waiting wire started]. split_and!.
  - intros j w H. by rewrite lookup_empty in H.
  - intros j e H. by apply elem_of_nil in H.
  - intros id. split; [apply serialized_nil|]. by rewrite lookup_empty.
Qed.

Lemma tidy_same (p p' : Page) (j : nat) :
  tidy p → wire p' = wire p → started p ≤ started p' →
  (∀ i, i ≠ j → waiting p' !! i = waiting p !! i) →
  (is_Some (waiting p' !! j) → j < started p') →
  unanswered (waiting p' !! j) = inFlight (own j p) →
  tidy p'.
Proof.
  intros (Hw & Hl & Ho) Hwire Hst Hoth Hj Hu. split_and!.
  - intros i w Hi. destruct (decide (i = j)) as [->|Hne]; [by apply Hj|].
    rewrite (Hoth i Hne) in Hi. specialize (Hw i w Hi). lia.
  - intros i e Hi. rewrite Hwire in Hi. specialize (Hl i e Hi). lia.
  - intros id. rewrite (own_same id p p' Hwire).
    destruct (Ho id) as [Hs Hf]. split; [done|].
    destruct (decide (id = j)) as [->|Hne]; [done|]. by rewrite (Hoth id Hne).
Qed.

Lemma tidy_step (p p' : Page) (j : nat) (e : NetEvent) :
  tidy p → wire p' = wire p ++ [(j, e)] → started p ≤ started p' →
  j < started p' →
  (∀ i, i ≠ j → waiting p' !! i = waiting p !! i) →
  unanswered (waiting p' !! j) = (inFlight (own j p) + inFlight [e])%Z →
  tidy p'.
Proof.
  intros (Hw & Hl & Ho) Hwire Hst Hj Hoth Hu. split_and!.
  - intros i w Hi. destruct (decide (i = j)) as [->|Hne]; [done|].
    rewrite (Hoth i Hne) in Hi. specialize (Hw i w Hi). lia.
  - intros i e' Hi. rewrite Hwire in Hi.
    apply elem_of_app in Hi as [Hi|Hi].
    + specialize (Hl i e' Hi). lia.
    + apply list_elem_of_singleton in Hi. by simplify_eq.
  - intros id. rewrite (own_snoc id j e p p' Hwire).
    destruct (Ho id) as [Hs Hf]. case_decide as Hid.
    + subst id. rewrite inFlight_app, <- Hu. split; [|done].
      apply serialized_snoc; [done|]. rewrite inFlight_app, <- Hu.
      apply unanswered_bounds.
    + rewrite app_nil_r. rewrite (Hoth id) by done. done.
Qed.

Lemma tidy_fresh (p : Page) :
  tidy p → waiting p !! started p = None ∧ inFlight (own (started p) p) = 0%Z.
Proof.
  intros (Hw & Hl & Ho).
  assert (waiting p !! started p = None) as Hnone.
  { destruct (waiting p !! started p) as [w|] eqn:E; [|done].
    specialize (Hw _ _ E). lia. }
  split; [done|]. destruct (Ho (started p)) as [_ ->]. by rewrite Hnone.
Qed.

Lemma tidy_loopHead (h : Handlers) (id : nat) (solved : JsBool) (c : Client)
    (p q : Page) :
  tidy p → wire q = wire p → started p ≤ started q → id < started q →
  (∀ i, i ≠ id → waiting q !! i = waiting p !! i) →
  inFlight (own id p) = 0%Z →
  tidy (loopHead h id solved c q).
Proof.
  intros Hp Hwire Hst Hid Hoth Hf. unfold loopHead.
  destruct (solveAll_goesOn h solved c).
  - apply (tidy_step p _ id (Timer (solveAll_delay h))); cbn; try done.
    + by rewrite Hwire.
    + intros i Hi. rewrite lookup_insert_ne by done. by apply Hoth.
    + rewrite lookup_insert_eq, Hf. done.
  - apply (tidy_same p _ id); cbn; try done.
    + intros i Hi. rewrite lookup_delete_ne by done. by apply Hoth.
    + by rewrite lookup_delete_eq, Hf.
Qed.

Lemma tidy_fire (h : Handlers) (p : Page) (e : Event) :
  tidy p → tidy (fire h p e).
Proof.
  intros Hp. destruct (tidy_fresh p Hp) as [Hnone Hzero].
  pose proof Hp as (Hw & Hl & Ho).
  assert (∀ id w, waiting p !! id = Some w →
                  inFlight (own id p) = unanswered (Some w)) as Hown.
  { intros id w E. destruct (Ho id) as [_ ->]. by rewrite E. }
  destruct e as [| | | |id|id r|id r]; cbn [fire]; cbv zeta.
  - apply (tidy_step p _ (started p) (Request "/api/initialize")); cbn;
      rewrite ?lookup_insert_eq, ?Hzero; try done; try lia.
    intros i Hi. by rewrite lookup_insert_ne.
  - destruct (solveStepBtn_disabled (client p)); [done|].
    apply (tidy_step p _ (started p) (Request "/api/solve_step")); cbn;
      rewrite ?lookup_insert_eq, ?Hzero; try done; try lia.
    intros i Hi. by rewrite lookup_insert_ne.
  - destruct (solveAllBtn_disabled (client p)); [done|].
    apply (tidy_loopHead h _ _ _ p); cbn; try done; lia.
  - apply (tidy_same p _ 0); cbn; try done.
    + intros [w H]. exact (Hw _ _ H).
    + by destruct (Ho 0) as [_ ->].
  - destruct (waiting p !! id) as [[]|] eqn:E; try done.
    apply (tidy_step p _ id (Request "/api/solve_step")); cbn;
      rewrite ?lookup_insert_eq, ?(Hown _ _ E); try done.
    + exact (Hw _ _ E).
    + intros i Hi. by rewrite lookup_insert_ne.
  - destruct (waiting p !! id) as [[]|] eqn:E; try done.
    apply (tidy_step p _ id (Settled "/api/initialize")); cbn;
      rewrite ?lookup_delete_eq, ?(Hown _ _ E); try done.
    + exact (Hw _ _ E).
    + intros i Hi. by rewrite lookup_delete_ne.
  - destruct (waiting p !! id) as [[]|] eqn:E; try done.
    + apply (tidy_step p _ id (Settled "/api/solve_step")); cbn;
        rewrite ?lookup_delete_eq, ?(Hown _ _ E); try done.
      * exact (Hw _ _ E).
      * intros i Hi. by rewrite lookup_delete_ne.
    + assert (tidy (mkPage (client p) (delete id (waiting p)) (started p)
                      (wire p ++ [(id, Settled "/api/solve_step")]))) as Hq.
      { apply (tidy_step p _ id (Settled "/api/solve_step")); cbn;
          rewrite ?lookup_delete_eq, ?(Hown _ _ E); try done.
        * exact (Hw _ _ E).
        * intros i Hi. by rewrite lookup_delete_ne. }
      assert (inFlight
                (own id (mkPage (client p) (delete id (waiting p)) (started p)
                           (wire p ++ [(id, Settled "/api/solve_step")])))
              = 0%Z) as Hz.
      { destruct Hq as (_ & _ & Hq). destruct (Hq id) as [_ ->]. cbn.
        by rewrite lookup_delete_eq. }
      destruct (solveStep_resume h r _) as [v c'|msg c'].
      * apply (tidy_loopHead h _ _ _ _ _ Hq); cbn; try done.
        -- exact (Hw _ _ E).
        -- intros i Hi. by rewrite lookup_delete_ne.
      * apply (tidy_same _ _ id Hq); cbn [waiting wire started];
          rewrite ?lookup_delete_eq, ?Hz; done.
Qed.

(** ** The turns of a run *)

Lemma own_fresh (p : Page) : tidy p → own (started p) p = [].
Proof.
  intros (_ & Hl & _). unfold own.
  destruct (filter (λ x : nat * NetEvent, x.1 = started p) (wire p))
    as [|[j e] l] eqn:E; [done|].
  assert ((j, e) ∈ filter (λ x : nat * NetEvent, x.1 = started p) (wire p))
    as [Hj He]%list_elem_of_filter by (rewrite E; apply elem_of_cons; by left).
  cbn in Hj. subst j. specialize (Hl _ _ He). lia.
Qed.

Lemma paced_same (ms : nat) (p p' : Page) (j : nat) :
  (∀ id, paced ms (waiting p !! id) (own id p)) →
  wire p' = wire p →
  (∀ i, i ≠ j → waiting p' !! i = waiting p !! i) →
  paced ms (waiting p' !! j) (own j p) →
  ∀ id, paced ms (waiting p' !! id) (own id p').
Proof.
  intros Hp Hwire Hoth Hj id. rewrite (own_same id p p' Hwire).
  destruct (decide (id = j)) as [->|Hne]; [done|]. rewrite (Hoth id Hne).
  apply Hp.
Qed.

Lemma paced_step (ms : nat) (p p' : Page) (j : nat) (e : NetEvent) :
  (∀ id, paced ms (waiting p !! id) (own id p)) →
  wire p' = wire p ++ [(j, e)] →
  (∀ i, i ≠ j → waiting p' !! i = waiting p !! i) →
  paced ms (waiting p' !! j) (own j p ++ [e]) →
  ∀ id, paced ms (waiting p' !! id) (own id p').
Proof.
  intros Hp Hwire Hoth Hj id. rewrite (own_snoc id j e p p' Hwire).
  case_decide as Hid; [by subst id|].
  rewrite app_nil_r, (Hoth id) by done. apply Hp.
Qed.

Lemma paced_loopHead (h : Handlers) (id : nat) (solved : JsBool) (c : Client)
    (p q : Page) (n : nat) :
  (∀ id, paced (solveAll_delay h) (waiting p !! id) (own id p)) →
  wire q = wire p →
  (∀ i, i ≠ id → waiting q !! i = waiting p !! i) →
  own id p = turns (solveAll_delay h) n →
  ∀ i, paced (solveAll_delay h)
         (waiting (loopHead h id solved c q) !! i)
         (own i (loopHead h id solved c q)).
Proof.
  intros Hp Hwire Hoth Hown. unfold loopHead.
  destruct (solveAll_goesOn h solved c).
  - apply (paced_step _ p _ id (Timer (solveAll_delay h))); cbn.
    + exact Hp.
    + by rewrite Hwire.
    + intros i Hi. rewrite lookup_insert_ne by done. by apply Hoth.
    + rewrite lookup_insert_eq, Hown. by exists n.
  - apply (paced_same _ p _ id); cbn.
    + exact Hp.
    + exact Hwire.
    + intros i Hi. rewrite lookup_delete_ne by done. by apply Hoth.
    + rewrite lookup_delete_eq, Hown. right. right. by exists n.
Qed.

Lemma paced_fire (h : Handlers) (p : Page) (e : Event) :
  tidy p →
  (∀ id, paced (solveAll_delay h) (waiting p !! id) (own id p)) →
  ∀ id, paced (solveAll_delay h) (waiting (fire h p e) !! id)
          (own id (fire h p e)).
Proof.
  intros Ht Hp. destruct (tidy_fresh p Ht) as [Hnone _].
  pose proof (own_fresh p Ht) as Hfresh.
  destruct e as [| | | |j|j r|j r]; cbn [fire]; cbv zeta.
  - apply (paced_step _ p _ (started p) (Request "/api/initialize")); cbn;
      try done.
    + intros i Hi. by rewrite lookup_insert_ne.
    + by rewrite lookup_insert_eq, Hfresh.
  - destruct (solveStepBtn_disabled (client p)); [done|].
    apply (paced_step _ p _ (started p) (Request "/api/solve_step")); cbn;
      try done.
    + intros i Hi. by rewrite lookup_insert_ne.
    + by rewrite lookup_insert_eq, Hfresh.
  - destruct (solveAllBtn_disabled (client p)); [done|].
    by apply (paced_loopHead h _ _ _ p _ 0).
  - done.
  - destruct (waiting p !! j) as [[]|] eqn:E; try done.
    apply (paced_step _ p _ j (Request "/api/solve_step")); cbn; try done.
    + intros i Hi. by rewrite lookup_insert_ne.
    + rewrite lookup_insert_eq. specialize (Hp j). rewrite E in Hp.
      destruct Hp as [n ->]. exists n. by rewrite <- app_assoc.
  - destruct (waiting p !! j) as [[]|] eqn:E; try done.
    apply (paced_step _ p _ j (Settled "/api/initialize")); cbn; try done.
    + intros i Hi. by rewrite lookup_delete_ne.
    + rewrite lookup_delete_eq. specialize (Hp j). rewrite E in Hp.
      rewrite Hp. by left.
  - destruct (waiting p !! j) as [[]|] eqn:E; try done.
    + apply (paced_step _ p _ j (Settled "/api/solve_step")); cbn; try done.
      * intros i Hi. by rewrite lookup_delete_ne.
      * rewrite lookup_delete_eq. specialize (Hp j). rewrite E in Hp.
        rewrite Hp. right. by left.
    + pose proof (Hp j) as Hj. rewrite E in Hj. destruct Hj as [n Hn].
      set (p1 := mkPage (client p) (delete j (waiting p)) (started p)
                   (wire p ++ [(j, Settled "/api/solve_step")])).
      assert (own j p1 = turns (solveAll_delay h) (S n)) as Hown1.
      { rewrite (own_snoc j j (Settled "/api/solve_step") p p1 eq_refl).
        rewrite decide_True by done. rewrite Hn, <- app_assoc.
        apply turns_snoc. }
      assert (∀ id, paced (solveAll_delay h) (waiting p1 !! id) (own id p1))
        as Hp1.
      { apply (paced_step _ p _ j (Settled "/api/solve_step")); cbn;
          try done.
        - intros i Hi. by rewrite lookup_delete_ne.
        - rewrite lookup_delete_eq, Hn, <- app_assoc. right. right.
          exists (S n). apply turns_snoc. }
      destruct (solveStep_resume h r _) as [v c'|msg c'].
      * apply (paced_loopHead h _ _ _ p1 _ (S n)); cbn; try done.
        intros i Hi. by rewrite lookup_delete_ne.
      * apply (paced_same _ p1 _ j); cbn; try done;
          rewrite lookup_delete_eq; right; right; exists (S n); exact Hown1.
Qed.

(** ** A run of solveAll among other handlers *)

Lemma air_snoc (p p' : Page) (j : nat) (e : NetEvent) :
  wire p' = wire p ++ [(j, e)] → air p' = air p ++ [e].
Proof. intros H. unfold air. by rewrite H, fmap_app. Qed.

Lemma over_fire (h : Handlers) (id : nat) (p : Page) (e : Event) :
  waiting p !! id = None → id < started p →
  waiting (fire h p e) !! id = None ∧ id < started (fire h p e).
Proof.
  intros Hn Hid.
  destruct e as [| | | |j|j r|j r]; cbn [fire]; cbv zeta.
  - cbn. rewrite lookup_insert_ne by lia. split; [done|lia].
  - destruct (solveStepBtn_disabled (client p)); [done|].
    cbn. rewrite lookup_insert_ne by lia. split; [done|lia].
  - destruct (solveAllBtn_disabled (client p)); [done|].
    unfold loopHead. destruct (solveAll_goesOn h _ _); cbn.
    + rewrite lookup_insert_ne by lia. split; [done|lia].
    + rewrite lookup_delete_ne by lia. split; [done|lia].
  - done.
  - destruct (waiting p !! j) as [[]|] eqn:E; try done.
    cbn. rewrite lookup_insert_ne by congruence. done.
  - destruct (waiting p !! j) as [[]|] eqn:E; try done.
    cbn. rewrite lookup_delete_ne by congruence. done.
  - destruct (waiting p !! j) as [[]|] eqn:E; try done.
    + cbn. rewrite lookup_delete_ne by congruence. done.
    + destruct (solveStep_resume h r _) as [v c'|msg c'].
      * unfold loopHead. destruct (solveAll_goesOn h _ _); cbn.
        -- rewrite lookup_insert_ne by congruence. done.
        -- rewrite lookup_delete_ne by congruence. done.
      * cbn. rewrite lookup_delete_ne by congruence. done.
Qed.

Section Alone.
Variable h : Handlers.
Hypothesis start_init : ∀ c,
  solveStepBtn_disabled (initializePuzzle_start h c) = solveStepBtn_disabled c
  ∧ solveAllBtn_disabled (initializePuzzle_start h c) = solveAllBtn_disabled c.
Hypothesis fail_init : ∀ r c,
  (∀ data, r ≠ Ok data) →
  solveStepBtn_disabled (finalState (initializePuzzle_resume h r c))
  = solveStepBtn_disabled c
  ∧ solveAllBtn_disabled (finalState (initializePuzzle_resume h r c))
    = solveAllBtn_disabled c.
Hypothesis start_step : ∀ c,
  solveStepBtn_disabled (solveStep_start h c) = solveStepBtn_disabled c
  ∧ solveAllBtn_disabled (solveStep_start h c) = solveAllBtn_disabled c.
Hypothesis resume_step : ∀ r c,
  solveStepBtn_disabled c = true → solveAllBtn_disabled c = true →
  solveStepBtn_disabled (finalState (solveStep_resume h r c)) = true
  ∧ solveAllBtn_disabled (finalState (solveStep_resume h r c)) = true.
Hypothesis start_all : ∀ c,
  solveStepBtn_disabled (solveAll_start h c) = true
  ∧ solveAllBtn_disabled (solveAll_start h c) = true.
Hypothesis click_pause : ∀ c,
  solveStepBtn_disabled (pause_click h c) = solveStepBtn_disabled c
  ∧ solveAllBtn_disabled (pause_click h c) = solveAllBtn_disabled c.

Lemma runsAlone_loopHead (id : nat) (solved : JsBool) (c : Client) (q : Page) :
  serialized (air q) → inFlight (air q) = 0%Z → id < started q →
  (∀ j w, j ≠ id → waiting q !! j = Some w → w = InitFetch) →
  solveStepBtn_disabled c = true → solveAllBtn_disabled c = true →
  let q' := loopHead h id solved c q in
  serialized (air q')
  ∧ (runsAlone id q' ∨ (waiting q' !! id = None ∧ id < started q')).
Proof.
  intros Hs Hf Hid Hoth HS HA q'. subst q'. unfold loopHead.
  destruct (solveAll_goesOn h solved c).
  - assert (air (mkPage (emit (Timer (solveAll_delay h)) c)
                   (<[id:=AllTimer]> (waiting q)) (started q)
                   (wire q ++ [(id, Timer (solveAll_delay h))]))
            = air q ++ [Timer (solveAll_delay h)]) as Hair
      by (by apply (air_snoc q _ id)).
    assert (inFlight (air q ++ [Timer (solveAll_delay h)]) = 0%Z) as Hz
      by (rewrite inFlight_app, Hf; reflexivity).
    rewrite Hair. split.
    + apply serialized_snoc; [done|]. rewrite Hz. lia.
    + left. unfold runsAlone. rewrite Hair, Hz. cbn.
      rewrite lookup_insert_eq. split_and!; try done; [by left|].
      intros j w Hj. rewrite lookup_insert_ne by done. by apply Hoth.
  - split; [done|]. right. cbn. by rewrite lookup_delete_eq.
Qed.

Lemma runsAlone_fire (id : nat) (p : Page) (e : Event) :
  runsAlone id p → serialized (air p) → initializeSucceeds e = false →
  serialized (air (fire h p e))
  ∧ (runsAlone id (fire h p e)
     ∨ (waiting (fire h p e) !! id = None ∧ id < started (fire h p e))).
Proof.
  intros Hall Hser Hne.
  pose proof Hall as (Hrun & Hoth & Hid & HS & HA & Hf).
  pose proof (serialized_inFlight _ Hser) as Hb.
  assert (∀ j w, j ≠ id → waiting p !! j = Some w → w = InitFetch) as Hoth'
    by exact Hoth.
  assert (∀ p' j x,
            wire p' = wire p ++ [(j, x)] → inFlight [x] = 0%Z →
            serialized (air p') ∧ inFlight (air p') = inFlight (air p)) as Hquiet.
  { intros p' j x Hw He. rewrite (air_snoc p p' j x Hw). split.
    - apply serialized_snoc; [done|]. rewrite inFlight_app, He. lia.
    - rewrite inFlight_app, He. lia. }
  destruct e as [| | | |j|j r|j r]; cbn [fire]; cbv zeta.
  - (* a click on Initialize *)
    destruct (Hquiet (fire h p ClickInitialize) (started p)
                (Request "/api/initialize") eq_refl eq_refl) as [Hs' Hf'].
    split; [exact Hs'|]. left. unfold runsAlone.
    cbn [fire] in Hf'. rewrite Hf'. cbn.
    rewrite lookup_insert_ne by lia.
    destruct (start_init (client p)) as [-> ->].
    split_and!; try done; [|lia].
    intros i w Hi. destruct (decide (i = started p)) as [->|Hne'].
    + rewrite lookup_insert_eq. by intros [= <-].
    + rewrite lookup_insert_ne by done. by apply Hoth.
  - rewrite HS. split; [done|]. by left.
  - rewrite HA. split; [done|]. by left.
  - split; [done|]. left. unfold runsAlone. cbn.
    destruct (click_pause (client p)) as [-> ->]. done.
  - (* a timer *)
    destruct (decide (j = id)) as [->|Hj].
    + destruct Hrun as [E|E]; rewrite E; [|split; [done|]; by left].
      rewrite E in Hf.
      assert (air (fire h p (TimerFires id))
              = air p ++ [Request "/api/solve_step"]) as Hair.
      { apply (air_snoc p _ id). cbn. by rewrite E. }
      cbn [fire] in Hair. rewrite E in Hair.
      assert (inFlight (air p ++ [Request "/api/solve_step"]) = 1%Z) as H1
        by (rewrite inFlight_app, Hf; reflexivity).
      rewrite Hair. split.
      * apply serialized_snoc; [done|]. rewrite H1. lia.
      * left. unfold runsAlone. rewrite Hair, H1. cbn.
        rewrite lookup_insert_eq.
        destruct (start_step (client p)) as [-> ->].
        split_and!; try done; [by right|].
        intros i w Hi. rewrite lookup_insert_ne by done. by apply Hoth.
    + assert (match waiting p !! j with Some AllTimer => False | _ => True end)
        as Hnot.
      { destruct (waiting p !! j) as [w|] eqn:E; [|done].
        by rewrite (Hoth j w Hj E). }
      destruct (waiting p !! j) as [[]|]; try done;
        (split; [done|]; by left).
  - (* the response of an initializePuzzle *)
    destruct (decide (j = id)) as [->|Hj].
    + destruct Hrun as [E|E]; rewrite E; (split; [done|]; by left).
    + destruct (waiting p !! j) as [w|] eqn:E; [|split; [done|]; by left].
      rewrite (Hoth j w Hj E).
      destruct (Hquiet
                  (mkPage (client p) (waiting p) (started p)
                     (wire p ++ [(j, Settled "/api/initialize")]))
                  j (Settled "/api/initialize") eq_refl eq_refl) as [Hs' Hf'].
      split; [exact Hs'|]. left. unfold runsAlone.
      change (air _) with
        (air (mkPage (client p) (waiting p) (started p)
                (wire p ++ [(j, Settled "/api/initialize")]))).
      rewrite Hf'. cbn. rewrite lookup_delete_ne by done.
      assert (∀ data, r ≠ Ok data) as Hr
        by (intros data ->; discriminate Hne).
      destruct (fail_init r (emit (Settled "/api/initialize") (client p)) Hr)
        as [-> ->].
      split_and!; try done.
      intros i w' Hi Hw. apply lookup_delete_Some in Hw as [_ Hw].
      by apply (Hoth i).
  - (* the response of a step *)
    destruct (decide (j = id)) as [->|Hj].
    + destruct Hrun as [E|E]; rewrite E; [split; [done|]; by left|].
      rewrite E in Hf.
      set (p1 := mkPage (client p) (waiting p) (started p)
                   (wire p ++ [(id, Settled "/api/solve_step")])).
      assert (air p1 = air p ++ [Settled "/api/solve_step"]) as Hair
        by (by apply (air_snoc p p1 id)).
      assert (inFlight (air p1) = 0%Z) as H0
        by (rewrite Hair, inFlight_app, Hf; reflexivity).
      assert (serialized (air p1)) as Hs1.
      { rewrite Hair. apply serialized_snoc; [done|].
        rewrite <- Hair, H0. lia. }
      pose proof (resume_step r (emit (Settled "/api/solve_step") (client p))
                    HS HA) as [HS' HA'].
      destruct (solveStep_resume h r _) as [v c'|msg c'].
      * apply (runsAlone_loopHead id v c' p1); try done.
      * split; [exact Hs1|]. right. cbn. by rewrite lookup_delete_eq.
    + assert (match waiting p !! j with
              | Some StepFetch | Some AllFetch => False
              | _ => True
              end) as Hnot.
      { destruct (waiting p !! j) as [w|] eqn:E; [|done].
        by rewrite (Hoth j w Hj E). }
      destruct (waiting p !! j) as [[]|]; try done;
        (split; [done|]; by left).
Qed.

Lemma runsAlone_run (p : Page) (evs : list Event) :
  solveAllBtn_disabled (client p) = false →
  (∀ j w, waiting p !! j = Some w → w = InitFetch) →
  serialized (air p) → inFlight (air p) = 0%Z →
  Forall (λ e, initializeSucceeds e = false) evs →
  let p' := foldl (fire h) (fire h p ClickSolveAll) evs in
  (runsAlone (started p) p' ∧ serialized (air p'))
  ∨ (waiting p' !! started p = None ∧ started p < started p').
Proof.
  intros HA Hoth Hser Hf. induction evs as [|e evs IH] using rev_ind; intros Hev p'.
  - subst p'. cbn [foldl fire]. cbv zeta. rewrite HA.
    destruct (start_all (client p)) as [HS' HA'].
    destruct (runsAlone_loopHead (started p) (JBool false)
                (solveAll_start h (client p))
                (mkPage (client p) (waiting p) (S (started p)) (wire p)))
      as [Hs [Hr|Ho]]; try done.
    + cbn. lia.
    + intros j w _. apply Hoth.
    + by left.
    + by right.
  - subst p'. rewrite foldl_snoc.
    destruct (proj1 (Forall_app _ _ _) Hev) as [Hevs He].
    rewrite Forall_singleton in He.
    destruct (IH Hevs) as [[Hr Hs]|[Hn Hlt]].
    + destruct (runsAlone_fire (started p) _ e Hr Hs He) as [Hs' [Hr'|Ho]].
      * by left.
      * by right.
    + right. by apply over_fire.
Qed.

End Alone.

Lemma resume3_Ok (data : StepData) (c : Client) :
  solveStep_resume handlers3 (Ok data) c
  = Returned (solved data)
      (announce data
         (drawn (step_grid data)
            (Snapshot3.updateCluesWithAssignments (assigned_clues data)
               (set_gridData (Some (step_grid data)) c)))).
Proof.
  cbv beta iota delta [handlers3 solveStep_resume tryCatch bind exec fetched ret].
  rewrite (renderGrid_drawn _ (step_grid data)).
  - reflexivity.
  - rewrite update3_frame. reflexivity.
Qed.

Lemma resume1_Ok (data : StepData) (c : Client) :
  solveStep_resume handlers1 (Ok data) c
  = Returned (solved data)
      (announce data
         (drawn (step_grid data)
            (Snapshot1.updateCluesWithAssignments (assigned_clues data)
               (set_gridData (Some (step_grid data)) c)))).
Proof.
  cbv beta iota delta [handlers1 solveStep_resume tryCatch bind exec fetched ret].
  rewrite (renderGrid_drawn _ (step_grid data)).
  - reflexivity.
  - rewrite update1_frame. reflexivity.
Qed.

Lemma resume3_buttons (r : Response StepData) (c : Client) :
  solveStepBtn_disabled c = true → solveAllBtn_disabled c = true →
  solveStepBtn_disabled (finalState (solveStep_resume handlers3 r c)) = true
  ∧ solveAllBtn_disabled (finalState (solveStep_resume handlers3 r c)) = true.
Proof.
  intros HS HA. destruct r as [msg| |msg|data]; try done.
  rewrite resume3_Ok. cbn [finalState].
  destruct (announce_fields data
              (drawn (step_grid data)
                 (Snapshot3.updateCluesWithAssignments (assigned_clues data)
                    (set_gridData (Some (step_grid data)) c))))
    as (_ & _ & _ & _ & _ & _ & _ & _ & _ & _ & _ & BS & BA).
  rewrite BS, BA. unfold drawn. rewrite update3_frame. cbn. rewrite HS, HA.
  by destruct (looseTrue (solved data)).
Qed.

Lemma resume1_buttons (r : Response StepData) (c : Client) :
  solveStepBtn_disabled c = true → solveAllBtn_disabled c = true →
  solveStepBtn_disabled (finalState (solveStep_resume handlers1 r c)) = true
  ∧ solveAllBtn_disabled (finalState (solveStep_resume handlers1 r c)) = true.
Proof.
  intros HS HA. destruct r as [msg| |msg|data]; try done.
  rewrite resume1_Ok. cbn [finalState].
  destruct (announce_fields data
              (drawn (step_grid data)
                 (Snapshot1.updateCluesWithAssignments (assigned_clues data)
                    (set_gridData (Some (step_grid data)) c))))
    as (_ & _ & _ & _ & _ & _ & _ & _ & _ & _ & _ & BS & BA).
  rewrite BS, BA. unfold drawn. rewrite update1_frame. cbn. rewrite HS, HA.
  by destruct (looseTrue (solved data)).
Qed.

Lemma failed_initialize_buttons (h : Handlers) (r : Response InitData)
    (c : Client) :
  h = handlers1 ∨ h = handlers3 → (∀ data, r ≠ Ok data) →
  solveStepBtn_disabled (finalState (initializePuzzle_resume h r c))
  = solveStepBtn_disabled c
  ∧ solveAllBtn_disabled (finalState (initializePuzzle_resume h r c))
    = solveAllBtn_disabled c.
Proof.
  intros [-> | ->] Hr; destruct r as [msg| |msg|data]; try done;
    by destruct (Hr data).
Qed.

Lemma run_alone (h : Handlers) (p : Page) (evs : list Event) :
  h = handlers1 ∨ h = handlers3 →
  solveAllBtn_disabled (client p) = false →
  (∀ j w, waiting p !! j = Some w → w = InitFetch) →
  serialized (air p) → inFlight (air p) = 0%Z →
  Forall (λ e, initializeSucceeds e = false) evs →
  let p' := foldl (fire h) (fire h p ClickSolveAll) evs in
  (runsAlone (started p) p' ∧ serialized (air p'))
  ∨ (waiting p' !! started p = None ∧ started p < started p').
Proof.
  intros Hh. apply runsAlone_run.
  - by destruct Hh as [-> | ->].
  - intros r c. by apply failed_initialize_buttons.
  - by destruct Hh as [-> | ->].
  - destruct Hh as [-> | ->]; [apply resume1_buttons|apply resume3_buttons].
  - by destruct Hh as [-> | ->].
  - destruct Hh as [-> | ->]; intros c; [done|].
    cbn. unfold Snapshot3.clickPause. by destruct (pauseBtn_disabled c).
Qed.

(** C7, as stated, fails: two step requests are unanswered at once during
    a run of [solveAll], although every run awaits its own response.  Third
    snapshot: while the run waits for its step, [initializePuzzle] is
    clicked and succeeds, which enables the solve buttons, and a click on
    Solve Step sends a second request.  First snapshot: Solve Step has been
    clicked and still waits when Solve All is clicked, and the run sends its
    first request beside it. *)
Lemma solveAll_run_with_two_requests_in_flight :
  (let p := foldl (fire handlers3) loaded
              [ClickInitialize; InitializeSettles 0 (Ok sampleInit);
               ClickSolveAll; TimerFires 1;
               ClickInitialize; InitializeSettles 2 (Ok sampleInit);
               ClickSolveStep] in
   waiting p !! 1 = Some AllFetch ∧ waiting p !! 3 = Some StepFetch
   ∧ inFlight (air p) = 2%Z ∧ inFlight (traffic (client p)) = 2%Z
   ∧ ¬ serialized (air p))
  ∧ (let p := foldl (fire handlers1) loaded
                [ClickInitialize; InitializeSettles 0 (Ok sampleInit);
                 ClickSolveStep; ClickSolveAll; TimerFires 2] in
     waiting p !! 1 = Some StepFetch ∧ waiting p !! 2 = Some AllFetch
     ∧ inFlight (air p) = 2%Z ∧ inFlight (traffic (client p)) = 2%Z
     ∧ ¬ serialized (air p)).
Proof.
  split; cbv zeta; split_and!; try (vm_compute; reflexivity).
  - intros H. specialize (H _ (reflexivity _)). vm_compute in H.
    destruct H as [_ H]. by apply H.
  - intros H. specialize (H _ (reflexivity _)). vm_compute in H.
    destruct H as [_ H]. by apply H.
Qed.

(** C7: in the first and in the third snapshot, whatever is clicked and in
    whatever order timers fire and requests settle, every handler keeps its
    own step requests apart, and the log of a run of [solveAll] is made of
    whole turns, its timer, then its request, then the answer, followed by
    the turn it is in: the run sends its next request only when its previous
    one has been answered and its timer has fired since.  A run that is
    started while nothing but calls of [initializePuzzle] wait and no step
    request is unanswered is under way after the click, and as long as it
    is, and no [initializePuzzle] succeeds, at no moment is more than one
    step request of the page unanswered, the event that ends the run
    included. *)
Theorem solveAll_requests_apart (h : Handlers) :
  h = handlers1 ∨ h = handlers3 →
  (∀ evs id,
     let p' := foldl (fire h) loaded evs in
     serialized (own id p')
     ∧ paced (solveAll_delay h) (waiting p' !! id) (own id p'))
  ∧ (∀ p evs,
       solveAllBtn_disabled (client p) = false →
       (∀ j w, waiting p !! j = Some w → w = InitFetch) →
       serialized (air p) → inFlight (air p) = 0%Z →
       Forall (λ e, initializeSucceeds e = false) evs →
       let p' := foldl (fire h) (fire h p ClickSolveAll) evs in
       waiting (fire h p ClickSolveAll) !! started p = Some AllTimer
       ∧ (is_Some (waiting p' !! started p) →
          serialized (air p')
          ∧ ∀ e, initializeSucceeds e = false →
                 serialized (air (fire h p' e)))).
Proof.
  intros Hh. split.
  - intros evs id p'. subst p'.
    assert (tidy (foldl (fire h) loaded evs)
            ∧ ∀ i, paced (solveAll_delay h)
                     (waiting (foldl (fire h) loaded evs) !! i)
                     (own i (foldl (fire h) loaded evs))) as [(_ & _ & H) Hp].
    { induction evs as [|e evs [IHt IHp]] using rev_ind.
      - split; [apply tidy_loaded|]. intros i. cbn.
        rewrite lookup_empty. right. right. by exists 0.
      - rewrite foldl_snoc. split; [by apply tidy_fire|by apply paced_fire]. }
    split; [apply H|apply Hp].
  - intros p evs HA Hoth Hser Hf Hev p'. split.
    + cbn [fire]. cbv zeta. rewrite HA. unfold loopHead.
      destruct Hh as [-> | ->]; cbn; by rewrite lookup_insert_eq.
    + intros [w Hw].
      destruct (run_alone h p evs Hh HA Hoth Hser Hf Hev) as [[Hr Hs]|[Hn _]].
      * split; [exact Hs|]. intros e He.
        destruct Hh as [-> | ->].
        -- apply (runsAlone_fire handlers1) with (id := started p); try done.
           ++ intros r c. apply failed_initialize_buttons. by left.
           ++ apply resume1_buttons.
        -- apply (runsAlone_fire handlers3) with (id := started p); try done.
           ++ intros r c. apply failed_initialize_buttons. by right.
           ++ apply resume3_buttons.
           ++ intros c. cbn. unfold Snapshot3.clickPause.
              by destruct (pauseBtn_disabled c).
      * fold p' in Hn. congruence.
Qed.

Lemma solveAll_requests_apart_sample :
  let evs := [TimerFires 1; ClickInitialize; StepSettles 1 (Ok backtrackStep);
              InitializeSettles 2 HttpError; ClickPause; TimerFires 1] in
  let p' := foldl (fire handlers3) (fire handlers3 samplePage ClickSolveAll) evs in
  waiting p' !! 1 = Some AllFetch
  ∧ serialized (air p')
  ∧ (let q := foldl (fire handlers3) loaded
                [ClickInitialize; InitializeSettles 0 (Ok sampleInit);
                 ClickSolveAll; TimerFires 1;
                 ClickInitialize; InitializeSettles 2 (Ok sampleInit);
                 ClickSolveStep] in
     serialized (own 1 q)
     ∧ paced 50 (waiting q !! 1) (own 1 q)).
Proof.
  cbv zeta.
  destruct (solveAll_requests_apart handlers3 (or_intror eq_refl)) as [HA HB].
  split_and!.
  - vm_compute. reflexivity.
  - apply (HB samplePage
             [TimerFires 1; ClickInitialize; StepSettles 1 (Ok backtrackStep);
              InitializeSettles 2 HttpError; ClickPause; TimerFires 1]).
    + vm_compute. reflexivity.
    + intros j w H. cbn [samplePage waiting] in H.
      by rewrite lookup_empty in H.
    + change (air samplePage)
        with (([] ++ [Request "/api/initialize"]) ++ [Settled "/api/initialize"]).
      apply serialized_snoc; [apply serialized_snoc; [apply serialized_nil|]|];
        vm_compute; by split.
    + vm_compute. reflexivity.
    + repeat (apply Forall_cons; split; [reflexivity|]). apply Forall_nil_2.
    + eexists. vm_compute. reflexivity.
  - apply (HA [ClickInitialize; InitializeSettles 0 (Ok sampleInit);
               ClickSolveAll; TimerFires 1;
               ClickInitialize; InitializeSettles 2 (Ok sampleInit);
               ClickSolveStep] 1).
  - apply (HA [ClickInitialize; InitializeSettles 0 (Ok sampleInit);
               ClickSolveAll; TimerFires 1;
               ClickInitialize; InitializeSettles 2 (Ok sampleInit);
               ClickSolveStep] 1).
Defined.

(** ** The page against the handlers run one at a time *)

Lemma page_solveStep (h : Handlers) (p : Page) (r : Response StepData) :
  solveStepBtn_disabled (client p) = false →
  client (foldl (fire h) p [ClickSolveStep; StepSettles (started p) r])
  = finalState
      (solveStep_resume h r
         (emit (Settled "/api/solve_step")
            (emit (Request "/api/solve_step") (solveStep_start h (client p))))).
Proof.
  intros H. cbn [foldl fire]. cbv zeta. rewrite H.
  cbn [waiting client started]. by rewrite lookup_insert_eq.
Qed.

Lemma page_initializePuzzle (h : Handlers) (p : Page) (r : Response InitData) :
  client (foldl (fire h) p [ClickInitialize; InitializeSettles (started p) r])
  = finalState
      (initializePuzzle_resume h r
         (emit (Settled "/api/initialize")
            (emit (Request "/api/initialize")
               (initializePuzzle_start h (client p))))).
Proof.
  cbn [foldl fire]. cbv zeta.
  cbn [waiting client started]. by rewrite lookup_insert_eq.
Qed.

Lemma page_handlers_one_at_a_time (p : Page) :
  (∀ r, solveStepBtn_disabled (client p) = false →
        client (foldl (fire handlers3) p
                  [ClickSolveStep; StepSettles (started p) r])
        = finalState (Snapshot3.solveStep r (client p)))
  ∧ (∀ r, solveStepBtn_disabled (client p) = false →
          client (foldl (fire handlers1) p
                    [ClickSolveStep; StepSettles (started p) r])
          = finalState (Snapshot1.solveStep r (client p)))
  ∧ (∀ r, client (foldl (fire handlers3) p
                    [ClickInitialize; InitializeSettles (started p) r])
          = finalState (Snapshot3.initializePuzzle r (client p)))
  ∧ (∀ r, client (foldl (fire handlers1) p
                    [ClickInitialize; InitializeSettles (started p) r])
          = finalState (Snapshot1.initializePuzzle r (client p))).
Proof.
  split_and!; intros r.
  - intros H. by rewrite page_solveStep, solveStep3_cut.
  - intros H. by rewrite page_solveStep, solveStep1_cut.
  - by rewrite page_initializePuzzle, initializePuzzle3_cut.
  - by rewrite page_initializePuzzle, initializePuzzle1_cut.
Qed.

Lemma attend_cons (id : nat) (t : Snapshot3.Turn) (rest : list Snapshot3.Turn) :
  attend id (t :: rest)
  = (if Snapshot3.pauseClicked t then [ClickPause] else [])
    ++ [TimerFires id; StepSettles id (Snapshot3.reply t)] ++ attend id rest.
Proof. unfold attend. rewrite bind_cons. by rewrite <- app_assoc. Qed.

Lemma attended_over (id : nat) (script : list Snapshot3.Turn) (p : Page) :
  waiting p !! id = None → pauseBtn_disabled (client p) = true →
  foldl (fire handlers3) p (attend id script) = p.
Proof.
  intros Hn Hd. induction script as [|t rest IH]; [done|].
  rewrite attend_cons, !foldl_app.
  assert (foldl (fire handlers3) p
            (if Snapshot3.pauseClicked t then [ClickPause] else []) = p) as ->.
  { destruct (Snapshot3.pauseClicked t); [|done]. cbn.
    unfold Snapshot3.clickPause. rewrite Hd. by destruct p. }
  assert (fire handlers3 p (TimerFires id) = p) as Ht
    by (cbn [fire]; cbv zeta; by rewrite Hn).
  assert (fire handlers3 p (StepSettles id (Snapshot3.reply t)) = p) as Hs
    by (cbn [fire]; cbv zeta; by rewrite Hn).
  cbn [foldl]. rewrite Ht, Hs. exact IH.
Qed.

Lemma page_loop3 (script : list Snapshot3.Turn) (v : JsBool) (c : Client)
    (q : Page) (id : nat) :
  let p' := foldl (fire handlers3) (loopHead handlers3 id v c q)
              (attend id script) in
  match Snapshot3.solveAllLoop v script c with
  | Exited s' _ =>
      client p' = solveAll_end handlers3 s' ∧ waiting p' !! id = None
  | Starved s' =>
      client p' = emit (Timer 50) s' ∧ waiting p' !! id = Some AllTimer
  | Escaped _ _ _ => False
  end.
Proof.
  revert v c q. induction script as [|t rest IH]; intros v c q p'.
  - subst p'.
    cbn [Snapshot3.solveAllLoop attend mbind list_bind foldl]. unfold loopHead.
    change (solveAll_goesOn handlers3 v c)
      with (negb (truthy v) && negb (pauseRequested c)).
    destruct (negb (truthy v) && negb (pauseRequested c)); cbn.
    + by rewrite lookup_insert_eq.
    + by rewrite lookup_delete_eq.
  - assert (p' = foldl (fire handlers3) (loopHead handlers3 id v c q)
                   (attend id (t :: rest))) as Hp' by reflexivity.
    clearbody p'. rewrite solveAllLoop3_cons. unfold loopHead in Hp'.
    change (solveAll_goesOn handlers3 v c)
      with (negb (truthy v) && negb (pauseRequested c)) in Hp'.
    destruct (negb (truthy v) && negb (pauseRequested c)).
    + rewrite attend_cons, !foldl_app in Hp'.
      set (p1 := foldl (fire handlers3) _
                   (if Snapshot3.pauseClicked t then [ClickPause] else []))
        in Hp'.
      assert (waiting p1 !! id = Some AllTimer
              ∧ client p1
                = (if Snapshot3.pauseClicked t
                   then Snapshot3.clickPause (emit (Timer 50) c)
                   else emit (Timer 50) c)) as [Hw1 Hc1].
      { subst p1. destruct (Snapshot3.pauseClicked t); cbn;
          by rewrite lookup_insert_eq. }
      clearbody p1. cbn [foldl] in Hp'.
      assert (fire handlers3 (fire handlers3 p1 (TimerFires id))
                (StepSettles id (Snapshot3.reply t))
              = loopHead handlers3 id (stepResult (Snapshot3.reply t))
                  (afterTurn3 c t)
                  (mkPage (client (fire handlers3 p1 (TimerFires id)))
                     (waiting (fire handlers3 p1 (TimerFires id)))
                     (started (fire handlers3 p1 (TimerFires id)))
                     (wire (fire handlers3 p1 (TimerFires id))
                        ++ [(id, Settled "/api/solve_step")]))) as Hturn.
      { cbn [fire]. cbv zeta. rewrite Hw1. cbn [waiting client].
        rewrite lookup_insert_eq, Hc1.
        change (solveStep_start handlers3) with solveStepStart.
        pose proof (solveStep3_cut (Snapshot3.reply t)
                      (if Snapshot3.pauseClicked t
                       then Snapshot3.clickPause (emit (Timer 50) c)
                       else emit (Timer 50) c)) as Hcut.
        change (solveStep_start handlers3) with solveStepStart in Hcut.
        rewrite <- Hcut.
        pose proof (turn3_returned t c) as Ht.
        cbv beta iota delta [bind sleep exec] in Ht. rewrite Ht.
        reflexivity. }
      rewrite Hturn in Hp'. rewrite Hp'. apply IH.
    + cbn [Snapshot3.solveAllLoop loopState].
      rewrite attended_over in Hp'; cbn.
      * rewrite Hp'. cbn. by rewrite lookup_delete_eq.
      * by rewrite lookup_delete_eq.
      * by destruct (pauseRequested c).
Qed.

(** With nothing else happening, a run of [solveAll] on the page is the run
    of the script: the client it reaches is the one [solveAll] returns, or,
    while the loop goes on, the one the loop has reached with the timer of
    the next turn started. *)
Lemma page_solveAll3 (script : list Snapshot3.Turn) (p : Page) :
  solveAllBtn_disabled (client p) = false →
  let p' := foldl (fire handlers3) (fire handlers3 p ClickSolveAll)
              (attend (started p) script) in
  match Snapshot3.solveAll script (client p) with
  | Finished s' _ => client p' = s' ∧ waiting p' !! started p = None
  | Pending s' =>
      client p' = emit (Timer 50) s' ∧ waiting p' !! started p = Some AllTimer
  end.
Proof.
  intros HA p'. subst p'. cbn [fire]. cbv zeta. rewrite HA.
  rewrite solveAll3_entered.
  pose proof (page_loop3 script (JBool false) (entered3 (client p))
                (mkPage (client p) (waiting p) (S (started p)) (wire p))
                (started p)) as H.
  cbv zeta in H. change (solveAll_start handlers3) with entered3.
  destruct (Snapshot3.solveAllLoop (JBool false) script (entered3 (client p)))
    as [s' rest|msg s' rest|s']; [exact H|done|exact H].
Qed.

(** ** The log of the page and the log of the client *)

Lemma resume_traffic (h : Handlers) (r : Response StepData) (c : Client) :
  h = handlers1 ∨ h = handlers3 →
  traffic (finalState (solveStep_resume h r c)) = traffic c.
Proof.
  intros [-> | ->]; destruct r as [msg| |msg|data]; try done.
  - rewrite resume1_Ok. cbn [finalState].
    destruct (announce_fields data
                (drawn (step_grid data)
                   (Snapshot1.updateCluesWithAssignments (assigned_clues data)
                      (set_gridData (Some (step_grid data)) c))))
      as (_ & _ & _ & _ & _ & _ & _ & _ & T & _).
    rewrite T. unfold drawn. by rewrite update1_frame.
  - rewrite resume3_Ok. cbn [finalState].
    destruct (announce_fields data
                (drawn (step_grid data)
                   (Snapshot3.updateCluesWithAssignments (assigned_clues data)
                      (set_gridData (Some (step_grid data)) c))))
      as (_ & _ & _ & _ & _ & _ & _ & _ & T & _).
    rewrite T. unfold drawn. by rewrite update3_frame.
Qed.

Lemma initialize_resume_traffic (h : Handlers) (r : Response InitData)
    (c : Client) :
  h = handlers1 ∨ h = handlers3 →
  traffic (finalState (initializePuzzle_resume h r c)) = traffic c.
Proof.
  intros [-> | ->]; destruct r as [msg| |msg|data]; try done;
    cbv beta iota delta [handlers1 handlers3 initializePuzzle_resume
                         tryCatch bind exec fetched ret renderGrid];
    reflexivity.
Qed.

Lemma traffic_fire (h : Handlers) (p : Page) (e : Event) :
  h = handlers1 ∨ h = handlers3 →
  traffic (client p) = air p →
  traffic (client (fire h p e)) = air (fire h p e).
Proof.
  intros Hh Hp.
  assert (∀ c, traffic (initializePuzzle_start h c) = traffic c) as Hi
    by (by destruct Hh as [-> | ->]).
  assert (∀ c, traffic (solveStep_start h c) = traffic c) as Hs
    by (by destruct Hh as [-> | ->]).
  assert (∀ c, traffic (solveAll_start h c) = traffic c) as Ha
    by (by destruct Hh as [-> | ->]).
  assert (∀ c, traffic (solveAll_end h c) = traffic c) as He.
  { destruct Hh as [-> | ->]; intros c; [done|]. cbn.
    by destruct (pauseRequested c). }
  assert (∀ msg c, traffic (solveAll_catch h msg c) = traffic c) as Hc
    by (by destruct Hh as [-> | ->]).
  assert (∀ c, traffic (pause_click h c) = traffic c) as Hk.
  { destruct Hh as [-> | ->]; intros c; [done|]. cbn.
    unfold Snapshot3.clickPause. by destruct (pauseBtn_disabled c). }
  assert (∀ id v c q, traffic c = air q →
            traffic (client (loopHead h id v c q)) = air (loopHead h id v c q))
    as Hloop.
  { intros id v c q Hq. unfold loopHead.
    destruct (solveAll_goesOn h v c); unfold air; cbn.
    - by rewrite fmap_app, Hq.
    - by rewrite He. }
  destruct e as [| | | |j|j r|j r]; cbn [fire]; cbv zeta.
  - unfold air. cbn. by rewrite fmap_app, Hi, Hp.
  - destruct (solveStepBtn_disabled (client p)); [done|].
    unfold air. cbn. by rewrite fmap_app, Hs, Hp.
  - destruct (solveAllBtn_disabled (client p)); [done|].
    apply Hloop. by rewrite Ha.
  - unfold air. cbn. by rewrite Hk.
  - destruct (waiting p !! j) as [[]|]; try done.
    unfold air. cbn. by rewrite fmap_app, Hs, Hp.
  - destruct (waiting p !! j) as [[]|]; try done.
    unfold air. cbn [client wire].
    rewrite (initialize_resume_traffic h r _ Hh), fmap_app. cbn.
    by rewrite Hp.
  - destruct (waiting p !! j) as [[]|]; try done.
    + unfold air. cbn [client wire].
      rewrite (resume_traffic h r _ Hh), fmap_app. cbn. by rewrite Hp.
    + pose proof (resume_traffic h r (emit (Settled "/api/solve_step") (client p))
                    Hh) as Hr.
      destruct (solveStep_resume h r _) as [v c'|msg c']; cbn [finalState] in Hr.
      * apply Hloop. unfold air. cbn [wire]. rewrite fmap_app, Hr. cbn.
        by rewrite Hp.
      * unfold air. cbn [client wire]. rewrite Hc, fmap_app, Hr. cbn.
        by rewrite Hp.
Qed.

(** The log kept by the page is the [traffic] of its client. *)
Lemma traffic_is_air (h : Handlers) (evs : list Event) :
  h = handlers1 ∨ h = handlers3 →
  traffic (client (foldl (fire h) loaded evs)) = air (foldl (fire h) loaded evs).
Proof.
  intros Hh. induction evs as [|e evs IH] using rev_ind; [done|].
  rewrite foldl_snoc. by apply traffic_fire.
Qed.
